(** * EKF-SLAM (gradedSLAM/EKFSLAM.py): a shallow embedding and its properties

    The estimator of [src/gradedSLAM/EKFSLAM.py] is embedded function by
    function.  NumPy arrays of floats are idealised as lists of real numbers
    (a 1-d array is a [list R], a 2-d array the list of its rows), Python
    exceptions are the [Raise] outcomes of a small error monad, and the
    assertions of the source are kept where the source has them. *)

From Stdlib Require Import Reals Lra Lia List ZArith Bool Arith.
From Stdlib Require Import ClassicalDescription.
Import ListNotations.

Local Open Scope R_scope.

(** ** Outcomes of a call: a value or a raised exception *)

Inductive exn : Type :=
| AssertionError
| TypeError
| ValueError
| LinAlgError.

Inductive result (A : Type) : Type :=
| Ok (a : A)
| Raise (e : exn).

Arguments Ok {A} a.
Arguments Raise {A} e.

Definition bind {A B : Type} (c : result A) (k : A -> result B) : result B :=
  match c with
  | Ok a => k a
  | Raise e => Raise e
  end.

Notation "x <- c ;; k" := (bind c (fun x => k))
  (at level 61, c at next level, right associativity).
Notation "' p <- c ;; k" := (bind c (fun p => k))
  (at level 61, p pattern, c at next level, right associativity).

(** [assert cond, msg] on a condition that is a proposition over the reals. *)
Definition assert_ (C : Prop) : result unit :=
  if excluded_middle_informative C then Ok tt else Raise AssertionError.

(** [assert cond, msg] on a condition computed on shapes. *)
Definition assertb (b : bool) : result unit :=
  if b then Ok tt else Raise AssertionError.

(** A 1-d array and a 2-d array (the list of its rows). *)
Abbreviation vec := (list R) (only parsing).
Abbreviation mat := (list (list R)) (only parsing).

(** ** The NumPy and SciPy operations the estimator uses *)

Module np.

Fixpoint mapi_from {A B : Type} (k : nat) (g : nat -> A -> B) (l : list A) : list B :=
  match l with
  | [] => []
  | a :: l' => g k a :: mapi_from (S k) g l'
  end.

Definition mapi {A B : Type} (g : nat -> A -> B) (l : list A) : list B :=
  mapi_from 0 g l.

Fixpoint map2 {A B C : Type} (g : A -> B -> C) (l : list A) (m : list B) : list C :=
  match l, m with
  | a :: l', b :: m' => g a b :: map2 g l' m'
  | _, _ => []
  end.

(** [v[i]] and [M[i, j]] *)
Definition vget (v : vec) (i : nat) : R := nth i v 0.
Definition get (M : mat) (i j : nat) : R := nth j (nth i M []) 0.

Definition nrows (M : mat) : nat := length M.
Definition ncols (M : mat) : nat :=
  match M with
  | [] => 0%nat
  | r :: _ => length r
  end.

(** [M.shape == (r, c)] *)
Definition has_shape (r c : nat) (M : mat) : bool :=
  (length M =? r)%nat && forallb (fun row => (length row =? c)%nat) M.

Definition zeros (n : nat) : vec := repeat 0 n.
Definition zeros2 (r c : nat) : mat := repeat (zeros c) r.

(** [np.eye(r, c)] *)
Definition eye2 (r c : nat) : mat :=
  map (fun i => map (fun j => if (i =? j)%nat then 1 else 0) (seq 0 c)) (seq 0 r).
Definition eye (n : nat) : mat := eye2 n n.

Definition vadd (u v : vec) : vec := map2 Rplus u v.
Definition vsub (u v : vec) : vec := map2 Rminus u v.
Definition vopp (u : vec) : vec := map Ropp u.
Definition vscale (c : R) (u : vec) : vec := map (Rmult c) u.
Definition vdiv (u : vec) (c : R) : vec := map (fun a => a / c) u.

Definition madd (A B : mat) : mat := map2 vadd A B.
Definition msub (A B : mat) : mat := map2 vsub A B.
Definition mopp (A : mat) : mat := map vopp A.

(** [u @ v] on two 1-d arrays *)
Fixpoint dot (u v : vec) : R :=
  match u, v with
  | a :: u', b :: v' => a * b + dot u' v'
  | _, _ => 0
  end.

(** [M[:, j]] *)
Definition col (M : mat) (j : nat) : vec := map (fun row => nth j row 0) M.

(** [M.T] *)
Definition transpose (M : mat) : mat := map (col M) (seq 0 (ncols M)).

(** [M @ v], [v @ M] and [A @ B] *)
Definition mvmul (M : mat) (v : vec) : vec := map (fun row => dot row v) M.
Definition vmmul (v : vec) (M : mat) : vec := map (dot v) (transpose M).
Definition mmul (A B : mat) : mat := map (fun row => vmmul row B) A.

(** [l[a:b]]; [M[a:b]] on rows and [M[:, a:b]] on columns *)
Definition slice {A : Type} (a b : nat) (l : list A) : list A := firstn (b - a) (skipn a l).
Definition rows (a b : nat) (M : mat) : mat := slice a b M.
Definition cols (a b : nat) (M : mat) : mat := map (slice a b) M.

(** [M[a:]], [M[:, a:]], [M[:, :b]] *)
Definition rows_from (a : nat) (M : mat) : mat := skipn a M.
Definition cols_from (a : nat) (M : mat) : mat := map (skipn a) M.
Definition cols_to (b : nat) (M : mat) : mat := map (firstn b) M.

(** A 1-d array of length n read as an (n, 1) column, as NumPy does when it
    is assigned to a column slice [M[a:b, j]]. *)
Definition as_col (v : vec) : mat := map (fun a => [a]) v.

(** [v.reshape((-1, 2))]: consecutive pairs; NumPy refuses an odd length. *)
Fixpoint reshape_m1_2 (v : vec) : result (list vec) :=
  match v with
  | [] => Ok []
  | [_] => Raise ValueError
  | a :: b :: v' =>
      match reshape_m1_2 v' with
      | Ok r => Ok ([a; b] :: r)
      | Raise e => Raise e
      end
  end.

(** [v[a:b] = src] *)
Definition vslice_assign (a b : nat) (src v : vec) : vec :=
  mapi (fun i x => if (a <=? i)%nat && (i <? b)%nat then vget src (i - a) else x) v.

(** [v[idx]] and [M[idx]], [M[:, idx]] with an integer index array *)
Definition take (idx : list nat) (v : vec) : vec := map (fun k => nth k v 0) idx.
Definition take_rows (idx : list nat) (M : mat) : mat := map (fun k => nth k M []) idx.
Definition take_cols (idx : list nat) (M : mat) : mat := map (take idx) M.

(** [v[mask]] with a boolean mask *)
Fixpoint mask_select {A : Type} (mask : list bool) (l : list A) : list A :=
  match mask, l with
  | b :: mask', a :: l' => if b then a :: mask_select mask' l' else mask_select mask' l'
  | _, _ => []
  end.

(** [M[np.diag_indices(n)] += 1] *)
Definition add_one_on_diag (M : mat) : mat :=
  mapi (fun i row => mapi (fun j a => if (i =? j)%nat then a + 1 else a) row) M.

(** [P[r0:r1, c0:c1] = B]: the entries of the block are replaced, the
    others are kept. *)
Definition slice_assign (r0 r1 c0 c1 : nat) (B P : mat) : mat :=
  mapi (fun i row =>
          if (r0 <=? i)%nat && (i <? r1)%nat
          then mapi (fun j a =>
                       if (c0 <=? j)%nat && (j <? c1)%nat
                       then get B (i - r0) (j - c0) else a) row
          else row) P.

(** [np.linalg.norm(v)], the Euclidean norm *)
Definition norm (v : vec) : R := sqrt (dot v v).

(** [np.arctan2(y, x)], the angle of the point [(x, y)] in (-pi, pi] *)
Definition arctan2 (y x : R) : R :=
  if Rlt_dec 0 x then atan (y / x)
  else if Rlt_dec x 0 then
         if Rle_dec 0 y then atan (y / x) + PI else atan (y / x) - PI
       else if Rlt_dec 0 y then PI / 2
            else if Rlt_dec y 0 then - (PI / 2) else 0.

(** [np.allclose(A, B)] with NumPy's default tolerances
    [rtol = 1e-05], [atol = 1e-08]. *)
Definition rtol : R := 1 / 100000.
Definition atol : R := 1 / 100000000.

Definition isclose (a b : R) : Prop := Rabs (a - b) <= atol + rtol * Rabs b.

Definition allclose (A B : mat) : Prop :=
  forall i j : nat, isclose (get A i j) (get B i j).

(** The quadratic form [x @ M @ x]. *)
Definition quad (M : mat) (x : vec) : R := dot x (mvmul M x).

(** [np.all(np.linalg.eigvals(M) >= 0)] and [np.all(np.linalg.eigvals(M) > 0)]
    on a symmetric real matrix: the eigenvalues are the extreme values of the
    quadratic form on unit vectors, so the two tests are positive
    semi-definiteness and positive definiteness. *)
Definition eigvals_all_ge0 (M : mat) : Prop :=
  forall x : vec, length x = nrows M -> 0 <= quad M x.

Definition eigvals_all_gt0 (M : mat) : Prop :=
  forall x : vec, length x = nrows M -> x <> zeros (nrows M) -> 0 < quad M x.

(** [np.diagonal(M)], [np.diag(v)] *)
Definition diagonal (M : mat) : vec :=
  map (fun i => get M i i) (seq 0 (Nat.min (nrows M) (ncols M))).

Definition diag (v : vec) : mat :=
  mapi (fun i a => mapi (fun j _ => if (i =? j)%nat then a else 0) v) v.

(** [numpy.matlib.repmat(M, m, n)]: [M] tiled [m] times down and [n] times
    across. *)
Definition repmat (M : mat) (m n : nat) : mat :=
  concat (repeat (map (fun row => concat (repeat row n)) M) m).

(** [scipy.linalg.block_diag(A, B)] *)
Definition block_diag (A B : mat) : mat :=
  map (fun row => row ++ zeros (ncols B)) A ++
  map (fun row => zeros (ncols A) ++ row) B.

End np.

(** ** utils.py *)

(** Modelled from the spec: [utils.rotmat2d] is not among the sources; the
    spec gives it as "the standard 2D rotation matrix" R(theta). *)
Definition rotmat2d (angle : R) : mat :=
  [[cos angle; - sin angle];
   [sin angle; cos angle]].

(** Modelled from the spec: [utils.wrapToPi] is not among the sources; the
    spec gives it as "angle wrapping to (-pi, pi]".  The angle is moved by
    the multiple of [2 * PI] that brings it into that interval. *)
Definition wrapToPi (angle : R) : R :=
  angle - 2 * PI * IZR (1 - up (- ((angle - PI) / (2 * PI)))).

(** An angle of (-pi, pi]. *)
Definition wrapped (a : R) : Prop := - PI < a <= PI.

(** ** class EKFSLAM *)

(** The attributes set by [__init__]. *)
Record EKFSLAM : Type := mkEKFSLAM {
  self_Q : mat;
  self_R : mat;
  self_do_asso : bool;
  self_alphas : vec;
  self_sensor_offset : vec
}.

(** *** Motion model *)

Definition f (self : EKFSLAM) (x u : vec) : result vec :=
  let x_pred :=
    np.vadd (np.slice 0 2 x) (np.mvmul (rotmat2d (np.vget x 2)) (firstn 2 u))
    ++ [wrapToPi (np.vget x 2 + np.vget u 2)] in
  _ <- assertb (length x_pred =? 3)%nat ;;
  Ok x_pred.

Definition Fx (self : EKFSLAM) (x u : vec) : result mat :=
  let psi := np.vget x 2 in
  let Fx0 := np.eye 3 in
  let Fx1 :=
    np.slice_assign 0 2 2 3
      (np.as_col (np.mvmul (rotmat2d (psi + PI / 2)) (firstn 2 u))) Fx0 in
  _ <- assertb (np.has_shape 3 3 Fx1) ;;
  Ok Fx1.

Definition Fu (self : EKFSLAM) (x u : vec) : result mat :=
  let psi := np.vget x 2 in
  let Fu0 := np.eye 3 in
  let Fu1 := np.slice_assign 0 2 0 2 (rotmat2d psi) Fu0 in
  _ <- assertb (np.has_shape 3 3 Fu1) ;;
  Ok Fu1.

(** The covariance that [predict] writes into [P], block by block, in the
    order of the three slice assignments of the source. *)
Definition predict_cov (self : EKFSLAM) (Fx_ Fu_ : mat) (P : mat) : mat :=
  let P1 :=
    np.slice_assign 0 3 0 3
      (np.madd
         (np.mmul (np.mmul Fx_ (np.cols 0 3 (np.rows 0 3 P))) (np.transpose Fx_))
         (np.mmul (np.mmul Fu_ (self_Q self)) (np.transpose Fu_))) P in
  let P2 :=
    np.slice_assign 0 3 3 (np.ncols P1)
      (np.mmul Fx_ (np.cols_from 3 (firstn 3 P1))) P1 in
  let P3 :=
    np.slice_assign 3 (np.nrows P2) 0 3
      (np.transpose (np.cols_from 3 (firstn 3 P2))) P2 in
  P3.

Definition predict (self : EKFSLAM) (eta : vec) (P : mat) (z_odo : vec)
  : result (vec * mat) :=
  _ <- assert_ (np.allclose P (np.transpose P)) ;;
  _ <- assert_ (np.eigvals_all_ge0 P) ;;
  _ <- assertb (np.has_shape (length eta) (length eta) P) ;;
  let x := firstn 3 eta in
  let u := z_odo in
  x_pred <- f self x u ;;
  (* etapred[:3] = f(x, u); etapred[3:] = eta[3:] *)
  let etapred := x_pred ++ skipn 3 eta in
  Fx_ <- Fx self x u ;;
  Fu_ <- Fu self x u ;;
  let P' := predict_cov self Fx_ Fu_ P in
  _ <- assert_ (np.allclose P' (np.transpose P')) ;;
  _ <- assert_ (np.eigvals_all_gt0 P') ;;
  _ <- assertb (np.has_shape (length etapred) (length etapred) P') ;;
  Ok (etapred, P').

(** *** Measurement model *)

(** One predicted measurement: range and bearing of the relative position
    [delta] (world frame) seen from the sensor, [Rot] being the rotation to
    the sensor frame. *)
Definition range_bearing (Rot : mat) (delta : vec) : vec :=
  let zc := np.mvmul Rot delta in
  [np.norm delta; np.arctan2 (np.vget zc 1) (np.vget zc 0)].

Definition h (self : EKFSLAM) (eta : vec) : result vec :=
  let x := firstn 3 eta in
  (* m = eta[3:].reshape((-1, 2)).T; the rows of m.T are the landmarks *)
  ms <- np.reshape_m1_2 (skipn 3 eta) ;;
  let Rot := rotmat2d (- np.vget x 2) in
  let offset_world := np.mvmul (rotmat2d (np.vget x 2)) (self_sensor_offset self) in
  let delta_m_T :=
    map (fun mj => np.vsub (np.vsub mj (firstn 2 x)) offset_world) ms in
  (* [ranges; bearings] stacked, transposed and flattened *)
  let zpred := flat_map (range_bearing Rot) delta_m_T in
  _ <- assertb (Z.of_nat (length zpred) =? Z.of_nat (length eta) - 3)%Z ;;
  Ok zpred.

(** The body of the loop of [H] for landmark [i]: the two rows of the
    landmark are written into [Hmat]. *)
Definition H_step (x offset_world : vec) (ms : list vec) (zr : vec)
  (Hmat : mat) (i : nat) : mat :=
  let Rpihalf := rotmat2d (PI / 2) in
  let delta_i := np.vsub (nth i ms []) (firstn 2 x) in
  let zc_i := np.vsub delta_i offset_world in
  let jac_z_cb :=
    np.slice_assign 0 2 2 3
      (np.as_col (np.mvmul (np.mopp Rpihalf) delta_i))
      (np.mopp (np.eye2 2 3)) in
  let ind := (2 * i)%nat in
  let delx_i := np.vmmul (np.vdiv zc_i (np.vget zr i)) jac_z_cb in
  let delang_i :=
    np.vmmul
      (np.vdiv (np.vmmul zc_i (np.transpose Rpihalf)) ((np.norm zc_i) ^ 2))
      jac_z_cb in
  let H1 := np.slice_assign ind (ind + 2) 0 3 [delx_i; delang_i] Hmat in
  np.slice_assign ind (ind + 2) (3 + ind) (3 + ind + 2)
    (np.mopp (np.cols_to 2 (np.rows ind (ind + 2) H1))) H1.

Definition H (self : EKFSLAM) (eta : vec) : result mat :=
  let x := firstn 3 eta in
  ms <- np.reshape_m1_2 (skipn 3 eta) ;;
  let numM := length ms in
  let offset_world := np.mvmul (rotmat2d (np.vget x 2)) (self_sensor_offset self) in
  zpred <- h self eta ;;
  (* zr = zpred[::2] *)
  let zr := map (fun i => np.vget zpred (2 * i)) (seq 0 numM) in
  let H0 := np.zeros2 (2 * numM) (3 + 2 * numM) in
  Ok (fold_left (H_step x offset_world ms zr) (seq 0 numM) H0).

(** *** Landmark initializer *)

(** The body of the loop of [add_landmarks] for the measurement [j]; the
    state of the loop is [(lmnew, Gx, Rall)]. *)
Definition add_landmarks_step (self : EKFSLAM) (eta z : vec)
  (st : vec * mat * mat) (j : nat) : vec * mat * mat :=
  let '(lmnew, Gx, Rall) := st in
  let sensor_offset_world :=
    np.mvmul (rotmat2d (np.vget eta 2)) (self_sensor_offset self) in
  let sensor_offset_world_der :=
    np.mvmul (rotmat2d (np.vget eta 2 + PI / 2)) (self_sensor_offset self) in
  let ind := (2 * j)%nat in
  let zj := np.slice ind (ind + 2) z in
  let rot := rotmat2d (np.vget eta 2 + np.vget zj 1) in
  let zj_cart := np.vscale (np.vget zj 0) (np.col rot 0) in
  let lmnew' :=
    np.vslice_assign ind (ind + 2)
      (np.vadd (np.vadd (firstn 2 eta) zj_cart) sensor_offset_world) lmnew in
  let Gx1 := np.slice_assign ind (ind + 2) 0 2 (np.eye 2) Gx in
  let Gx2 :=
    np.slice_assign ind (ind + 2) 2 3
      (np.as_col (np.vadd (np.vscale (np.vget zj 0) (np.col rot 1))
                          sensor_offset_world_der)) Gx1 in
  let Gz := np.mmul rot (np.diag [1; np.vget zj 0]) in
  let Rall' :=
    np.slice_assign ind (ind + 2) ind (ind + 2)
      (np.mmul (np.mmul Gz (self_R self)) (np.transpose Gz)) Rall in
  (lmnew', Gx2, Rall').

Definition add_landmarks (self : EKFSLAM) (eta : vec) (P : mat) (z : vec)
  : result (vec * mat) :=
  let n := np.nrows P in
  let numLmk := (length z / 2)%nat in
  (* lmnew = np.empty_like(z); Gx = np.empty(...); Rall = np.zeros(...) *)
  let st0 := (np.zeros (length z), np.zeros2 (numLmk * 2) 3,
              np.zeros2 (numLmk * 2) (numLmk * 2)) in
  let '(lmnew, Gx, Rall) :=
    fold_left (add_landmarks_step self eta z) (seq 0 numLmk) st0 in
  _ <- assertb (length lmnew mod 2 =? 0)%nat ;;
  let etaadded := eta ++ lmnew in
  let Padded0 :=
    np.block_diag P
      (np.madd (np.mmul (np.mmul Gx (np.cols 0 3 (np.rows 0 3 P))) (np.transpose Gx))
               Rall) in
  let Padded1 :=
    np.slice_assign 0 n n (np.ncols Padded0)
      (np.mmul (np.cols_to 3 P) (np.transpose Gx)) Padded0 in
  let Padded :=
    np.slice_assign n (np.nrows Padded1) 0 n
      (np.transpose (np.cols_from n (firstn n Padded1))) Padded1 in
  _ <- assertb (np.has_shape (length etaadded) (length etaadded) Padded) ;;
  _ <- assert_ (np.allclose Padded (np.transpose Padded)) ;;
  _ <- assert_ (np.eigvals_all_ge0 Padded) ;;
  Ok (etaadded, Padded).

(** *** Association adapter and update *)

Section Update.

(** [JCBB.JCBB(z, zpred, S, alpha1, alpha2)], the external association
    search: one entry per measurement, the index of the matched landmark or
    [-1]. *)
Variable JCBB : vec -> vec -> mat -> R -> R -> list Z.

(** [scipy.linalg.inv]; the source calls it on a matrix that
    [scipy.linalg.cho_factor] has just accepted. *)
Variable la_inv : mat -> mat.

(** What [associate] returns when it returns something. *)
Definition association : Type := (vec * vec * mat * mat * list Z)%type.

Definition associate (self : EKFSLAM) (z zpred : vec) (H_ S : mat)
  : result (option association) :=
  if self_do_asso self then
    let a := JCBB z zpred S (np.vget (self_alphas self) 0) (np.vget (self_alphas self) 1) in
    (* zinds[::2] = a > -1; zinds[1::2] = zinds[::2] *)
    let zinds := flat_map (fun ai => [(-1 <? ai)%Z; (-1 <? ai)%Z]) a in
    let zass := np.mask_select zinds z in
    (* zbarinds[::2] = 2 * a[a > -1]; zbarinds[1::2] = 2 * a[a > -1] + 1 *)
    let zbarinds :=
      flat_map (fun ai => [Z.to_nat (2 * ai); Z.to_nat (2 * ai + 1)])
               (filter (fun ai => (-1 <? ai)%Z) a) in
    let zpredass := np.take zbarinds zpred in
    let Sass := np.take_cols zbarinds (np.take_rows zbarinds S) in
    let Hass := np.take_rows zbarinds H_ in
    _ <- assertb (length zpredass =? length zass)%nat ;;
    _ <- assertb (np.has_shape (length zpredass) (length zpredass) Sass) ;;
    _ <- assertb (np.nrows Hass =? length zpredass)%nat ;;
    Ok (Some (zass, zpredass, Hass, Sass, a))
  else
    (* pass: the method returns None *)
    Ok None.

(** The innovation of the matched measurements, bearings wrapped:
    [v = za.ravel() - zpred; v[1::2] = utils.wrapToPi(v[1::2])]. *)
Definition innovation (za zpred : vec) : vec :=
  np.mapi (fun k a => if Nat.odd k then wrapToPi a else a) (np.vsub za zpred).

(** The Kalman gain [W = P @ Ha.T @ la.inv(Sa)]. *)
Definition kalman_gain (P Ha Sa : mat) : mat :=
  np.mmul (np.mmul P (np.transpose Ha)) (la_inv Sa).

(** The [else] branch of [update] under [if za.shape[0] == 0]: the Kalman
    correction with the matched measurements. *)
Definition kalman_correction (eta : vec) (P : mat) (za zpred : vec) (Ha Sa : mat)
  : result (vec * mat * R) :=
  let v := innovation za zpred in
  (* S_cho_factors = la.cho_factor(Sa): the factorisation exists only for a
     positive definite matrix *)
  _ <- (if excluded_middle_informative (np.eigvals_all_gt0 Sa)
        then Ok tt else Raise LinAlgError) ;;
  let W := kalman_gain P Ha Sa in
  let etaupd := np.vadd eta (np.mvmul W v) in
  let jo := np.add_one_on_diag (np.mmul (np.mopp W) Ha) in
  let Pupd := np.mmul jo P in
  (* NIS = v.T @ la.cho_solve(S_cho_factors, v) *)
  let NIS := np.dot v (np.mvmul (la_inv Sa) v) in
  _ <- assert_ (np.allclose Pupd (np.transpose Pupd)) ;;
  _ <- assert_ (np.eigvals_all_gt0 Pupd) ;;
  Ok (etaupd, Pupd, NIS).

(** The big measurement noise of [update]:
    [R = np.diag(np.diagonal(ml.repmat(self.R, numLmk, numLmk)))]. *)
Definition update_R (self : EKFSLAM) (numLmk : nat) : mat :=
  np.diag (np.diagonal (np.repmat (self_R self) numLmk numLmk)).

(** The first half of [update], up to the comment "Create new landmarks if
    any is available": the state, covariance and NIS after the correction,
    the association and the flattened measurements. *)
Definition update_correct (self : EKFSLAM) (eta : vec) (P : mat) (z : mat)
  : result (vec * mat * R * list Z * vec) :=
  let numLmk := ((Z.of_nat (length eta) - 3) / 2)%Z in
  _ <- assertb (((Z.of_nat (length eta) - 3) mod 2) =? 0)%Z ;;
  if (0 <? numLmk)%Z then
    zpred <- h self eta ;;
    H_ <- H self eta ;;
    let R_ := update_R self (Z.to_nat numLmk) in
    let S := np.madd (np.mmul (np.mmul H_ P) (np.transpose H_)) R_ in
    _ <- assertb (np.has_shape (length zpred) (length zpred) S) ;;
    let zflat := concat z in
    r <- associate self zflat zpred H_ S ;;
    match r with
    | None =>
        (* za, zpred, Ha, Sa, a = None *)
        Raise TypeError
    | Some (za, zpreda, Ha, Sa, a) =>
        if (length za =? 0)%nat then
          Ok (eta, P, 1, a, zflat)
        else
          '(etaupd, Pupd, NIS) <- kalman_correction eta P za zpreda Ha Sa ;;
          Ok (etaupd, Pupd, NIS, a, zflat)
    end
  else
    (* All measurements are new landmarks *)
    let a := repeat (-1)%Z (length z) in
    Ok (eta, P, 1, a, concat z).

Definition update (self : EKFSLAM) (eta : vec) (P : mat) (z : mat)
  : result (vec * mat * R * list Z) :=
  '(etaupd, Pupd, NIS, a, zflat) <- update_correct self eta P z ;;
  '(etaupd', Pupd') <-
    (if self_do_asso self then
       let is_new_lmk := map (fun ai => (ai =? -1)%Z) a in
       if existsb (fun b => b) is_new_lmk then
         let z_new_inds := flat_map (fun b : bool => [b; b]) is_new_lmk in
         let z_new := np.mask_select z_new_inds zflat in
         add_landmarks self etaupd Pupd z_new
       else Ok (etaupd, Pupd)
     else Ok (etaupd, Pupd)) ;;
  _ <- assert_ (np.allclose Pupd' (np.transpose Pupd')) ;;
  _ <- assert_ (np.eigvals_all_ge0 Pupd') ;;
  Ok (etaupd', Pupd', NIS, a).

End Update.

(** *** Consistency diagnostics *)

(** The values a float64 result can take once a division by zero is
    possible: a finite number, an infinity or NaN.  (The inputs of [NEESes]
    are taken finite, and rounding is not modelled.) *)
Inductive float64 : Type :=
| Fin (r : R)
| PInf
| NInf
| NaN.

(** [a / b] on two finite NumPy floats: a division by zero does not raise,
    it gives an infinity, or NaN for [0 / 0]. *)
Definition float_div (a b : R) : float64 :=
  if Req_EM_T b 0 then
    if Req_EM_T a 0 then NaN
    else if Rlt_dec 0 a then PInf else NInf
  else Fin (a / b).

Definition isnan (a : float64) : bool :=
  match a with
  | NaN => true
  | _ => false
  end.

(** [a >= 0] on a float64. *)
Definition float_ge0 (a : float64) : Prop :=
  match a with
  | Fin r => 0 <= r
  | PInf => True
  | NInf => False
  | NaN => False
  end.

(** The determinant of an (n, n) array, expanded along the first row. *)
Fixpoint det (n : nat) (M : mat) : R :=
  match n with
  | O => 1
  | S n' =>
      match M with
      | [] => 0
      | row :: rest =>
          fold_right Rplus 0
            (map (fun j =>
                    (-1) ^ j * nth j row 0 *
                    det n' (map (fun r => firstn j r ++ skipn (S j) r) rest))
                 (seq 0 n))
      end
  end.

(** [np.linalg.solve(A, b)] for a square [A] and a 1-d [b]: the solution of
    [A @ x = b] (here by Cramer's rule), [LinAlgError] when [A] is singular. *)
Definition linalg_solve (A : mat) (b : vec) : result vec :=
  let n := np.nrows A in
  if Req_EM_T (det n A) 0 then Raise LinAlgError
  else
    Ok (map (fun j =>
               det n (np.slice_assign 0 n j (S j) (np.as_col b) A) / det n A)
            (seq 0 n)).

Definition NEESes (x : vec) (P : mat) (x_gt : vec) : result (list float64) :=
  _ <- assertb (length x =? 3)%nat ;;
  _ <- assertb (np.has_shape 3 3 P) ;;
  _ <- assertb (length x_gt =? 3)%nat ;;
  let d_x0 := np.vsub x x_gt in
  let d_x := np.vslice_assign 2 3 [wrapToPi (np.vget d_x0 2)] d_x0 in
  _ <- assert_ (- PI <= np.vget d_x 2 <= PI) ;;
  let d_p := np.slice 0 2 d_x in
  let P_p := np.cols 0 2 (np.rows 0 2 P) in
  _ <- assertb (length d_p =? 2)%nat ;;
  let d_heading := np.vget d_x 2 in
  let P_heading := np.get P 2 2 in
  s_all <- linalg_solve P d_x ;;
  let NEES_all := np.dot d_x s_all in
  s_pos <- linalg_solve P_p d_p ;;
  let NEES_pos := np.dot d_p s_pos in
  (* try: ... except ZeroDivisionError: a division of NumPy floats never
     raises it, so the handler is never entered *)
  let NEES_heading := float_div (d_heading ^ 2) P_heading in
  let NEESes0 := [Fin NEES_all; Fin NEES_pos; NEES_heading] in
  (* NEESes[np.isnan(NEESes)] = 1.0 *)
  let NEESes1 := map (fun a => if isnan a then Fin 1 else a) NEESes0 in
  _ <- assert_ (Forall float_ge0 NEESes1) ;;
  Ok NEESes1.

(** ** Notions used in the statements *)

(** [M] has [r] rows, each of length [c]. *)
Definition shape (r c : nat) (M : mat) : Prop :=
  length M = r /\ Forall (fun row => length row = c) M.

(** [M] equals its transpose, entry by entry. *)
Definition symmetric (M : mat) : Prop :=
  forall i j : nat, np.get M i j = np.get M j i.

(** What the spec asks of the big R: the block-diagonal repetition of the
    per-landmark R, one full block per landmark. *)
Fixpoint block_diag_repeat (B : mat) (n : nat) : mat :=
  match n with
  | O => []
  | S n' => np.block_diag B (block_diag_repeat B n')
  end.

(** The world position that [add_landmarks] computes for measurement [j]. *)
Definition new_landmark (self : EKFSLAM) (eta z : vec) (j : nat) : vec :=
  let zj := np.slice (2 * j) (2 * j + 2) z in
  let rot := rotmat2d (np.vget eta 2 + np.vget zj 1) in
  np.vadd (np.vadd (firstn 2 eta) (np.vscale (np.vget zj 0) (np.col rot 0)))
          (np.mvmul (rotmat2d (np.vget eta 2)) (self_sensor_offset self)).

(** The sum of [g 0], ..., [g (n - 1)]. *)
Fixpoint fsum (g : nat -> R) (n : nat) : R :=
  match n with
  | O => 0
  | S n' => g 0%nat + fsum (fun i => g (S i)) n'
  end.

(** The leading 3 x 3 block of [P], entry by entry. *)
Definition lead3 (P : mat) : mat :=
  map (fun i => map (fun j => np.get P i j) [0; 1; 2]%nat) [0; 1; 2]%nat.

(** ** Configurations and arrays of the examples *)

(** Unit noises, association enabled, the sensor at the centre of the
    robot. *)
Definition slam0 : EKFSLAM :=
  mkEKFSLAM (np.eye 3) (np.eye 2) true [1 / 1000; 1 / 10000] [0; 0].

(** The same with association disabled (the default of [__init__]). *)
Definition slam_off : EKFSLAM :=
  mkEKFSLAM (np.eye 3) (np.eye 2) false [1 / 1000; 1 / 10000] [0; 0].

(** A configuration whose range and bearing noises are correlated. *)
Definition slam_corr : EKFSLAM :=
  mkEKFSLAM (np.eye 3) [[1; 1 / 2]; [1 / 2; 1]] true [1 / 1000; 1 / 10000] [0; 0].

(** The covariance predicted from the identity for one landmark and the
    odometry (1, 0, 0). *)
Definition cov1 : mat :=
  [[2; 0; 0; 0; 0]; [0; 3; 1; 0; 0]; [0; 1; 2; 0; 0]; [0; 0; 0; 1; 0]; [0; 0; 0; 0; 1]].

(** A correction with one matched landmark at (2, 0) seen from the origin:
    the Jacobian of the measurement there, the innovation covariance
    [Ha1 @ I @ Ha1.T + I], its inverse, and the corrected covariance. *)
Definition Ha1 : mat := [[-1; 0; 0; 1; 0]; [0; - (1 / 2); -1; 0; 1 / 2]].
Definition Sa1 : mat := [[3; 0]; [0; 5 / 2]].
Definition inv1 (S : mat) : mat := [[1 / 3; 0]; [0; 2 / 5]].
Definition Pupd1 : mat :=
  [[2 / 3; 0; 0; 1 / 3; 0];
   [0; 9 / 10; - (1 / 5); 0; 1 / 10];
   [0; - (1 / 5); 3 / 5; 0; 1 / 5];
   [1 / 3; 0; 0; 2 / 3; 0];
   [0; 1 / 10; 1 / 5; 0; 9 / 10]].

(** The covariance after a first landmark is initialised with no pose
    uncertainty: the measurement noise on the landmark alone. *)
Definition Padded1 : mat :=
  [[0; 0; 0; 0; 0]; [0; 0; 0; 0; 0]; [0; 0; 0; 0; 0]; [0; 0; 0; 1; 0]; [0; 0; 0; 0; 1]].

(** ** Notions used in the further properties *)

(** Composition of two odometry increments: the second is expressed in the
    frame reached by the first. *)
Definition compose_odometry (u v : vec) : vec :=
  np.vadd (firstn 2 u) (np.mvmul (rotmat2d (np.vget u 2)) (firstn 2 v))
  ++ [np.vget u 2 + np.vget v 2].

(** Component [i] of the pose that [f] predicts, 0 when [f] raises. *)
Definition f_component (self : EKFSLAM) (i : nat) (x u : vec) : R :=
  match f self x u with
  | Ok x' => np.vget x' i
  | Raise _ => 0
  end.

(** [v] with its entry [j] replaced by [t]: [v[j] = t]. *)
Definition with_entry (j : nat) (t : R) (v : vec) : vec :=
  np.vslice_assign j (S j) [t] v.

(** Consecutive pairs of [v] moved by [(t0, t1)]. *)
Fixpoint shift_pairs (t0 t1 : R) (v : vec) : vec :=
  match v with
  | a :: b :: v' => (a + t0) :: (b + t1) :: shift_pairs t0 t1 v'
  | _ => v
  end.

(** The state [eta] after a translation of the world by [(t0, t1)]: the
    robot position and every landmark are moved, the heading is kept. *)
Definition translate (t0 t1 : R) (eta : vec) : vec :=
  shift_pairs t0 t1 (firstn 2 eta) ++ firstn 1 (skipn 2 eta)
  ++ shift_pairs t0 t1 (skipn 3 eta).

(** The array of [H] after the landmarks before [n] have been written, for
    a state of [N] landmarks: the rows of the later landmarks are still
    zero; in the rows of landmark [i] the columns of another landmark are
    zero and the columns of landmark [i] hold the opposite of the two
    position columns. *)
Definition H_rows_written (N n : nat) (M : mat) : Prop :=
  shape (2 * N) (3 + 2 * N) M /\
  (forall i j : nat, (2 * n <= i)%nat -> np.get M i j = 0) /\
  (forall i r k c : nat, (i < n)%nat -> (r < 2)%nat -> (k < N)%nat -> (c < 2)%nat ->
     np.get M (2 * i + r) (3 + 2 * k + c) =
     if (k =? i)%nat then - np.get M (2 * i + r) c else 0).

(** The covariance after a second landmark is initialised at (1, 0) with
    no prior uncertainty. *)
Definition Padded2 : mat :=
  [[0; 0; 0; 0; 0; 0; 0]; [0; 0; 0; 0; 0; 0; 0]; [0; 0; 0; 0; 0; 0; 0];
   [0; 0; 0; 0; 0; 0; 0]; [0; 0; 0; 0; 0; 0; 0];
   [0; 0; 0; 0; 0; 1; 0]; [0; 0; 0; 0; 0; 0; 1]].

(** The associations found by the search: the pairs (measurement index,
    landmark index) of the matched measurements, in the order of the
    measurements, the first measurement having index [s]. *)
Definition matched_from (s : nat) (a : list Z) : list (nat * Z) :=
  filter (fun p => (-1 <? snd p)%Z) (combine (seq s (length a)) a).

Definition matched (a : list Z) : list (nat * Z) := matched_from 0 a.

(** * Properties *)

(** ** The error monad *)

Lemma bind_Ok {A B : Type} (c : result A) (k : A -> result B) (b : B) :
  bind c k = Ok b -> exists a, c = Ok a /\ k a = Ok b.
Proof.
  destruct c as [a|e]; simpl; intro E; [exists a; split; trivial | discriminate].
Qed.

Lemma assert_Ok (C : Prop) (u : unit) : assert_ C = Ok u -> C.
Proof.
  unfold assert_. destruct (excluded_middle_informative C); [trivial | discriminate].
Qed.

Lemma assert_holds (C : Prop) : C -> assert_ C = Ok tt.
Proof.
  intro HC. unfold assert_. destruct (excluded_middle_informative C); [reflexivity | contradiction].
Qed.

Lemma assert_fails (C : Prop) : ~ C -> assert_ C = Raise AssertionError.
Proof.
  intro HC. unfold assert_. destruct (excluded_middle_informative C); [contradiction | reflexivity].
Qed.

Lemma assertb_Ok (b : bool) (u : unit) : assertb b = Ok u -> b = true.
Proof.
  destruct b; [trivial | discriminate].
Qed.

(** One step through a monadic definition whose outcome is known to be [Ok]. *)
Ltac bind_inv E :=
  let a := fresh "a" in
  let Ea := fresh "Ea" in
  apply bind_Ok in E; destruct E as [a [Ea E]].

Tactic Notation "bind_named" hyp(E) ident(a) ident(Ea) :=
  apply bind_Ok in E; destruct E as [a [Ea E]].

(** ** Angle wrapping *)

Lemma wrapToPi_wrapped (a : R) : wrapped (wrapToPi a).
Proof.
  unfold wrapped, wrapToPi.
  set (x := (a - PI) / (2 * PI)).
  assert (Hpi : 0 < PI) by apply PI_RGT_0.
  assert (Hx : a - PI = 2 * PI * x) by (unfold x; field; lra).
  destruct (archimed (- x)) as [Hu1 Hu2].
  rewrite minus_IZR.
  set (U := IZR (up (- x))) in *.
  split; nra.
Qed.

Lemma wrapToPi_id (a : R) : wrapped a -> wrapToPi a = a.
Proof.
  unfold wrapped, wrapToPi. intros [Hlo Hhi].
  set (x := (a - PI) / (2 * PI)).
  assert (Hpi : 0 < PI) by apply PI_RGT_0.
  assert (Hx : a - PI = 2 * PI * x) by (unfold x; field; lra).
  assert (Hu : (1 = up (- x))%Z).
  { apply tech_up; simpl; nra. }
  rewrite <- Hu. simpl. lra.
Qed.

(** ** Lists indexed by position *)

Lemma length_mapi_from {A B : Type} (g : nat -> A -> B) (l : list A) (k : nat) :
  length (np.mapi_from k g l) = length l.
Proof.
  revert k. induction l as [|a l IH]; intro k; simpl; [reflexivity | now rewrite IH].
Qed.

Lemma length_mapi {A B : Type} (g : nat -> A -> B) (l : list A) :
  length (np.mapi g l) = length l.
Proof. apply length_mapi_from. Qed.

Lemma nth_mapi_from {A B : Type} (g : nat -> A -> B) (l : list A) (k i : nat) (d : B) (d' : A) :
  (i < length l)%nat ->
  nth i (np.mapi_from k g l) d = g (k + i)%nat (nth i l d').
Proof.
  revert k i. induction l as [|a l IH]; intros k i Hi; simpl in Hi; [lia|].
  destruct i as [|i]; simpl.
  - now rewrite Nat.add_0_r.
  - rewrite (IH (S k) i) by lia. f_equal. lia.
Qed.

Lemma nth_mapi {A B : Type} (g : nat -> A -> B) (l : list A) (i : nat) (d : B) (d' : A) :
  (i < length l)%nat -> nth i (np.mapi g l) d = g i (nth i l d').
Proof. intro Hi. unfold np.mapi. now rewrite (nth_mapi_from g l 0 i d d'). Qed.

Lemma length_map2 {A B C : Type} (g : A -> B -> C) (l : list A) (m : list B) :
  length (np.map2 g l m) = Nat.min (length l) (length m).
Proof.
  revert m. induction l as [|a l IH]; intros [|b m]; simpl; auto.
Qed.

Lemma nth_map2 {A B C : Type} (g : A -> B -> C) (l : list A) (m : list B)
  (i : nat) (d : C) (da : A) (db : B) :
  (i < length l)%nat -> (i < length m)%nat ->
  nth i (np.map2 g l m) d = g (nth i l da) (nth i m db).
Proof.
  revert m i. induction l as [|a l IH]; intros [|b m] i Hl Hm; simpl in *; try lia.
  destruct i as [|i]; [reflexivity | apply IH; lia].
Qed.

(** ** Heading and bearings stay wrapped *)

Lemma f_heading_wrapped (self : EKFSLAM) (x u x' : vec) :
  f self x u = Ok x' ->
  np.vget x' 2 = wrapToPi (np.vget x 2 + np.vget u 2) /\ length x' = 3%nat.
Proof.
  unfold f. intro E. bind_inv E.
  apply assertb_Ok in Ea. apply Nat.eqb_eq in Ea.
  injection E as <-. split; [|exact Ea].
  rewrite length_app in Ea. simpl in Ea.
  unfold np.vget at 1. rewrite app_nth2 by lia.
  replace (2 - length _)%nat with 0%nat by lia. reflexivity.
Qed.

Lemma predict_heading (self : EKFSLAM) (eta : vec) (P : mat) (z_odo : vec)
  (eta' : vec) (P' : mat) :
  predict self eta P z_odo = Ok (eta', P') ->
  np.vget eta' 2 = wrapToPi (np.vget (firstn 3 eta) 2 + np.vget z_odo 2).
Proof.
  unfold predict. intro E.
  do 4 bind_inv E. rename a2 into x_pred.
  do 5 bind_inv E. injection E as <- _.
  destruct (f_heading_wrapped _ _ _ _ Ea2) as [Hw Hl].
  unfold np.vget at 1. rewrite app_nth1 by lia. exact Hw.
Qed.

Lemma innovation_bearing (za zpred : vec) (k : nat) :
  (k < length (innovation za zpred))%nat -> Nat.odd k = true ->
  np.vget (innovation za zpred) k = wrapToPi (np.vget (np.vsub za zpred) k).
Proof.
  unfold innovation. rewrite length_mapi. intros Hk Hodd.
  unfold np.vget. rewrite (nth_mapi _ _ k 0 0) by exact Hk.
  now rewrite Hodd.
Qed.

(** C7: the heading returned by [f], the heading of the state returned by
    [predict] and every bearing component (odd position) of the innovation
    computed in [update] lie in (-pi, pi]. *)
Theorem heading_wrap_invariant (self : EKFSLAM) :
  (forall x u x', f self x u = Ok x' -> - PI < np.vget x' 2 <= PI) /\
  (forall eta P z_odo eta' P',
      predict self eta P z_odo = Ok (eta', P') -> - PI < np.vget eta' 2 <= PI) /\
  (forall za zpred k,
      (k < length (innovation za zpred))%nat -> Nat.odd k = true ->
      - PI < np.vget (innovation za zpred) k <= PI).
Proof.
  split; [|split].
  - intros x u x' E. destruct (f_heading_wrapped _ _ _ _ E) as [-> _].
    apply wrapToPi_wrapped.
  - intros eta P z_odo eta' P' E. rewrite (predict_heading _ _ _ _ _ _ E).
    apply wrapToPi_wrapped.
  - intros za zpred k Hk Hodd. rewrite innovation_bearing by assumption.
    apply wrapToPi_wrapped.
Qed.

(** ** Evaluation on concrete arrays *)

(** The list structure of an array expression is computed; the real-number
    entries are left as they are. *)
Ltac np_eval :=
  cbv [predict_cov f Fx Fu range_bearing
       np.slice_assign np.mapi np.mapi_from np.map2 np.vget np.get
       np.nrows np.ncols np.has_shape np.zeros np.zeros2 np.eye2 np.eye np.vadd np.vsub
       np.vopp np.vscale np.vdiv np.madd np.msub np.mopp np.dot np.col np.transpose
       np.mvmul np.vmmul np.mmul np.slice np.rows np.cols np.rows_from np.cols_from
       np.cols_to np.as_col np.vslice_assign np.take np.take_rows np.take_cols
       np.mask_select np.add_one_on_diag np.diagonal np.diag np.repmat np.block_diag
       np.reshape_m1_2 np.quad
       rotmat2d self_Q self_R self_do_asso self_alphas self_sensor_offset
       bind assertb
       nth map seq firstn skipn length app repeat concat flat_map fold_left fold_right
       forallb existsb filter hd
       Nat.leb Nat.ltb Nat.eqb Nat.sub Nat.add Nat.mul Nat.min Nat.odd Nat.even
       Nat.div Nat.modulo Nat.divmod
       negb andb orb fst snd].

(** Equality of two arrays given entry by entry. *)
Ltac list_eq :=
  repeat (match goal with
          | |- (_ :: _) = (_ :: _) => apply f_equal2
          | |- @eq (list _) [] [] => reflexivity
          end).

Lemma trig_at_0 :
  cos 0 = 1 /\ sin 0 = 0 /\ cos (0 + PI / 2) = 0 /\ sin (0 + PI / 2) = 1 /\
  cos (- 0) = 1 /\ sin (- 0) = 0.
Proof.
  rewrite Rplus_0_l, Ropp_0, cos_0, sin_0, cos_PI2, sin_PI2. repeat split.
Qed.

Ltac trig0 :=
  destruct trig_at_0 as (Ec0 & Es0 & Ec1 & Es1 & Ec2 & Es2);
  rewrite ?Ec0, ?Es0, ?Ec1, ?Es1, ?Ec2, ?Es2;
  clear Ec0 Es0 Ec1 Es1 Ec2 Es2.

Lemma wrapped_0 : wrapped 0.
Proof. unfold wrapped. pose proof PI_RGT_0. lra. Qed.

Lemma isclose_refl (a : R) : np.isclose a a.
Proof.
  unfold np.isclose, np.atol, np.rtol.
  replace (a - a) with 0 by ring. rewrite Rabs_R0.
  pose proof (Rabs_pos a). lra.
Qed.

Lemma allclose_refl (A : mat) : np.allclose A A.
Proof. intros i j. apply isclose_refl. Qed.

Lemma allclose_symmetric (A : mat) : np.transpose A = A -> np.allclose A (np.transpose A).
Proof. intros ->. apply allclose_refl. Qed.

(** The identity of size 3 has positive eigenvalues, the zero matrix
    non-negative ones. *)
Lemma eye3_gt0 : np.eigvals_all_gt0 (np.eye 3).
Proof.
  intros x Hx Hnz.
  destruct x as [|a [|b [|c [|? ?]]]]; try discriminate Hx.
  np_eval.
  assert (Hn : a <> 0 \/ b <> 0 \/ c <> 0).
  { destruct (Req_dec a 0) as [->|]; [|now left].
    destruct (Req_dec b 0) as [->|]; [|now right; left].
    destruct (Req_dec c 0) as [->|]; [|now right; right].
    exfalso. apply Hnz. reflexivity. }
  destruct Hn as [Hn|[Hn|Hn]]; nra.
Qed.

Lemma zeros33_ge0 : np.eigvals_all_ge0 (np.zeros2 3 3).
Proof.
  intros x Hx.
  destruct x as [|a [|b [|c [|? ?]]]]; try discriminate Hx.
  np_eval. lra.
Qed.

(** *** The first example scenario of the spec: robot at the origin, no
    landmark, odometry (1, 0, 0). *)

Lemma f_example : f slam0 [0; 0; 0] [1; 0; 0] = Ok [1; 0; 0].
Proof.
  np_eval. trig0. replace (0 + 0) with 0 by lra.
  rewrite (wrapToPi_id 0 wrapped_0).
  f_equal. list_eq; lra.
Qed.

Lemma Fx_example :
  Fx slam0 [0; 0; 0] [1; 0; 0] = Ok [[1; 0; 0]; [0; 1; 1]; [0; 0; 1]].
Proof.
  np_eval. trig0. f_equal. list_eq; lra.
Qed.

Lemma Fu_example : Fu slam0 [0; 0; 0] [1; 0; 0] = Ok (np.eye 3).
Proof.
  np_eval. trig0. f_equal. list_eq; lra.
Qed.

Lemma predict_cov_example :
  predict_cov slam0 [[1; 0; 0]; [0; 1; 1]; [0; 0; 1]] (np.eye 3) (np.zeros2 3 3)
  = np.eye 3.
Proof.
  unfold slam0. np_eval. list_eq; lra.
Qed.

Lemma predict_example :
  predict slam0 [0; 0; 0] (np.zeros2 3 3) [1; 0; 0] = Ok ([1; 0; 0], np.eye 3).
Proof.
  unfold predict.
  rewrite (assert_holds _ (allclose_symmetric (np.zeros2 3 3) eq_refl)).
  rewrite (assert_holds _ zeros33_ge0).
  cbn [firstn bind length].
  change (np.has_shape 3 3 (np.zeros2 3 3)) with true. cbn [assertb bind].
  rewrite f_example, Fx_example, Fu_example. cbn [bind].
  rewrite predict_cov_example.
  rewrite (assert_holds _ (allclose_symmetric (np.eye 3) eq_refl)).
  rewrite (assert_holds _ eye3_gt0).
  reflexivity.
Qed.

Lemma heading_wrap_invariant_witness :
  predict slam0 [0; 0; 0] (np.zeros2 3 3) [1; 0; 0] = Ok ([1; 0; 0], np.eye 3) /\
  - PI < np.vget [1; 0; 0] 2 <= PI.
Proof.
  split; [exact predict_example|].
  exact (proj1 (proj2 (heading_wrap_invariant slam0)) _ _ _ _ _ predict_example).
Defined.

(** ** The NEES diagnostic *)

Ltac nees_eval :=
  cbv [NEESes linalg_solve det float_div isnan pow]; np_eval.

Lemma NEESes_shapes (x : vec) (P : mat) (x_gt : vec) (r : list float64) :
  NEESes x P x_gt = Ok r ->
  length x = 3%nat /\ np.has_shape 3 3 P = true /\ length x_gt = 3%nat.
Proof.
  unfold NEESes. intro E. do 3 bind_inv E.
  apply assertb_Ok in Ea, Ea0, Ea1.
  apply Nat.eqb_eq in Ea, Ea1. auto.
Qed.

Lemma NEESes_rejects (x : vec) (P : mat) (x_gt : vec) :
  length x <> 3%nat \/ np.has_shape 3 3 P = false \/ length x_gt <> 3%nat ->
  NEESes x P x_gt = Raise AssertionError.
Proof.
  intro Hbad. unfold NEESes.
  destruct (length x =? 3)%nat eqn:E1; [|reflexivity].
  destruct (np.has_shape 3 3 P) eqn:E2; [|reflexivity].
  destruct (length x_gt =? 3)%nat eqn:E3; [|reflexivity].
  apply Nat.eqb_eq in E1, E3.
  destruct Hbad as [Hb|[Hb|Hb]]; [contradiction | discriminate | contradiction].
Qed.

Lemma has_shape_rows (r c : nat) (M : mat) : np.has_shape r c M = true -> length M = r.
Proof.
  unfold np.has_shape. intro E. apply andb_prop in E. destruct E as [E _].
  now apply Nat.eqb_eq in E.
Qed.

(** C10: [NEESes] accepts pose-sized inputs only: when it returns, [x] and
    [x_gt] have shape (3,) and [P] shape (3, 3); a full SLAM state, of
    length 3 + 2L with L > 0, passed as [x], [P] or [x_gt] fails an
    assertion. *)
Theorem NEESes_pose_only (x : vec) (P : mat) (x_gt : vec) :
  (forall r, NEESes x P x_gt = Ok r ->
             length x = 3%nat /\ np.has_shape 3 3 P = true /\ length x_gt = 3%nat) /\
  (forall L : nat, (0 < L)%nat ->
      length x = (3 + 2 * L)%nat \/
      np.has_shape (3 + 2 * L) (3 + 2 * L) P = true \/
      length x_gt = (3 + 2 * L)%nat ->
      NEESes x P x_gt = Raise AssertionError).
Proof.
  split; [apply NEESes_shapes|].
  intros L HL Hbig. apply NEESes_rejects.
  destruct Hbig as [Hb|[Hb|Hb]].
  - left. lia.
  - right; left. destruct (np.has_shape 3 3 P) eqn:E; [|reflexivity].
    apply has_shape_rows in Hb, E. lia.
  - right; right. lia.
Qed.

Lemma wrapped_1 : wrapped (1 - 0).
Proof. unfold wrapped. pose proof PI2_1. lra. Qed.

(** C9 at its failing input: a zero heading variance (a singular
    covariance) makes [NEESes] raise [LinAlgError] from [np.linalg.solve]. *)
Lemma NEESes_singular :
  NEESes [0; 0; 1] [[1; 0; 0]; [0; 1; 0]; [0; 0; 0]] [0; 0; 0] = Raise LinAlgError.
Proof.
  nees_eval.
  rewrite assert_holds.
  2:{ pose proof (wrapToPi_wrapped (1 - 0)) as Hw. unfold wrapped in Hw. lra. }
  destruct (Req_EM_T _ 0) as [_|Hn]; [reflexivity|].
  exfalso. apply Hn. lra.
Qed.

(** With a zero heading variance and an invertible [P], the heading NEES is
    an infinity and is returned as it is. *)
Lemma NEESes_inf :
  NEESes [0; 1; 1] [[1; 0; 0]; [0; 1; 1]; [0; 1; 0]] [0; 0; 0] = Ok [Fin 1; Fin 1; PInf].
Proof.
  nees_eval. rewrite (wrapToPi_id _ wrapped_1).
  rewrite assert_holds.
  2:{ pose proof wrapped_1 as Hw. unfold wrapped in Hw. lra. }
  destruct (Req_EM_T _ 0) as [Hn|_]; [exfalso; lra|].
  destruct (Req_EM_T _ 0) as [Hn|_]; [exfalso; lra|].
  destruct (Req_EM_T 0 0) as [_|Hn]; [|exfalso; lra].
  destruct (Req_EM_T _ 0) as [Hn|_]; [exfalso; lra|].
  destruct (Rlt_dec 0 _) as [_|Hn]; [|exfalso; lra].
  match goal with
  | |- context [[Fin ?a; Fin ?b; PInf]] =>
      replace a with 1 by (field; lra); replace b with 1 by (field; lra)
  end.
  rewrite assert_holds; [reflexivity|].
  repeat constructor; simpl; lra.
Qed.

(** NaN is what the clamp removes. *)
Lemma NEESes_no_nan (x : vec) (P : mat) (x_gt : vec) (r : list float64) :
  NEESes x P x_gt = Ok r -> Forall (fun a => isnan a = false) r.
Proof.
  unfold NEESes. intro E. do 8 bind_inv E. injection E as <-.
  repeat constructor; cbn [isnan].
  destruct (float_div _ _); reflexivity.
Qed.


Lemma wrapped_00 : wrapped (0 - 0).
Proof. unfold wrapped. pose proof PI_RGT_0. lra. Qed.

(** A 0 / 0 heading NEES is replaced by 1. *)
Lemma NEESes_nan_clamped :
  NEESes [0; 1; 0] [[1; 0; 0]; [0; 1; 1]; [0; 1; 0]] [0; 0; 0] = Ok [Fin 0; Fin 1; Fin 1].
Proof.
  nees_eval. rewrite (wrapToPi_id _ wrapped_00).
  rewrite assert_holds.
  2:{ pose proof wrapped_00 as Hw. unfold wrapped in Hw. lra. }
  destruct (Req_EM_T _ 0) as [Hn|_]; [exfalso; lra|].
  destruct (Req_EM_T _ 0) as [Hn|_]; [exfalso; lra|].
  destruct (Req_EM_T 0 0) as [_|Hn]; [|exfalso; lra].
  destruct (Req_EM_T _ 0) as [_|Hn]; [|exfalso; lra].
  match goal with
  | |- context [[Fin ?a; Fin ?b; Fin 1]] =>
      replace a with 0 by (field; lra); replace b with 1 by (field; lra)
  end.
  rewrite assert_holds; [reflexivity|].
  repeat constructor; simpl; lra.
Qed.

(** The heading error is wrapped before it is squared. *)
Lemma NEESes_heading_wrapped (x : vec) (P : mat) (x_gt : vec) (r : list float64) :
  NEESes x P x_gt = Ok r ->
  let d := wrapToPi (np.vget x 2 - np.vget x_gt 2) in
  nth 2 r NaN =
  if isnan (float_div (d ^ 2) (np.get P 2 2)) then Fin 1
  else float_div (d ^ 2) (np.get P 2 2).
Proof.
  intro E. destruct (NEESes_shapes _ _ _ _ E) as (Hx & _ & Hg).
  destruct x as [|x0 [|x1 [|x2 [|? ?]]]]; try discriminate Hx.
  destruct x_gt as [|g0 [|g1 [|g2 [|? ?]]]]; try discriminate Hg.
  unfold NEESes in E. do 8 bind_inv E. injection E as <-.
  reflexivity.
Qed.

Lemma NEESes_pose_only_witness :
  NEESes [0; 0; 0; 1; 1] (np.eye 5) [0; 0; 0; 1; 1] = Raise AssertionError.
Proof.
  apply (proj2 (NEESes_pose_only [0; 0; 0; 1; 1] (np.eye 5) [0; 0; 0; 1; 1]) 1%nat).
  - lia.
  - left. reflexivity.
Defined.

(** ** Update without association, and with an empty batch *)

Section UpdateProperties.

Variable JCBB : vec -> vec -> mat -> R -> R -> list Z.
Variable la_inv : mat -> mat.

(** With association disabled the adapter does nothing and returns [None]. *)
Lemma associate_disabled (self : EKFSLAM) (z zpred : vec) (H_ S : mat) :
  self_do_asso self = false -> associate JCBB self z zpred H_ S = Ok None.
Proof.
  intro Hoff. unfold associate. now rewrite Hoff.
Qed.

(** With association disabled and no landmark, [update] returns the state
    unchanged, reports every measurement as unmatched and adds no landmark. *)
Lemma update_disabled_no_landmark (self : EKFSLAM) (eta : vec) (P : mat) (z : mat) :
  self_do_asso self = false -> length eta = 3%nat ->
  np.allclose P (np.transpose P) -> np.eigvals_all_ge0 P ->
  update JCBB la_inv self eta P z = Ok (eta, P, 1, repeat (-1)%Z (length z)).
Proof.
  intros Hoff Hlen Hsym Hpsd.
  unfold update, update_correct. rewrite Hlen, Hoff.
  change ((Z.of_nat 3 - 3) mod 2 =? 0)%Z with true.
  change (0 <? (Z.of_nat 3 - 3) / 2)%Z with false.
  cbn [assertb bind].
  rewrite (assert_holds _ Hsym), (assert_holds _ Hpsd). reflexivity.
Qed.

(** With association disabled and at least one landmark in the state,
    [update] never returns: what [associate] returned cannot be unpacked. *)
Lemma update_disabled_landmarks (self : EKFSLAM) (eta : vec) (P : mat) (z : mat)
  (r : vec * mat * R * list Z) :
  self_do_asso self = false -> (3 < length eta)%nat ->
  update JCBB la_inv self eta P z <> Ok r.
Proof.
  intros Hoff Hlen E. unfold update in E. bind_inv E. clear E.
  unfold update_correct in Ea. bind_inv Ea.
  apply assertb_Ok in Ea0. apply Z.eqb_eq in Ea0.
  destruct (0 <? (Z.of_nat (length eta) - 3) / 2)%Z eqn:Hnum.
  - do 4 bind_inv Ea.
    rewrite (associate_disabled _ _ _ _ _ Hoff) in Ea4.
    injection Ea4 as <-. discriminate Ea.
  - apply Z.ltb_ge in Hnum.
    assert (Hz : (3 < Z.of_nat (length eta))%Z) by lia.
    pose proof (Z.div_mod (Z.of_nat (length eta) - 3) 2 ltac:(lia)) as Hdm.
    lia.
Qed.

(** C8 at its failing input: association disabled, one landmark in the
    state, one detection.  [update] raises [TypeError] where the spec has
    it treat the detection as unmatched. *)
Theorem update_disabled_raises :
  update JCBB la_inv slam_off [0; 0; 0; 2; 0] (np.eye 5) [[2; 0]] = Raise TypeError.
Proof.
  unfold update, update_correct.
  cbn [length].
  change ((Z.of_nat 5 - 3) mod 2 =? 0)%Z with true.
  change (0 <? (Z.of_nat 5 - 3) / 2)%Z with true.
  change (Z.to_nat ((Z.of_nat 5 - 3) / 2))%Z with 1%nat.
  cbn [assertb bind].
  unfold H, h, slam_off. np_eval.
  change (Z.of_nat 2 =? Z.of_nat 5 - 3)%Z with true. cbv iota.
  unfold H_step, update_R, associate. np_eval.
  reflexivity.
Qed.

(** C6 at its failing input: association disabled, one landmark in the
    state, an empty batch.  [update] raises [TypeError] where the spec has
    it return the state unchanged. *)
Theorem update_empty_batch_raises :
  update JCBB la_inv slam_off [0; 0; 0; 2; 0] (np.eye 5) [] = Raise TypeError.
Proof.
  unfold update, update_correct.
  cbn [length].
  change ((Z.of_nat 5 - 3) mod 2 =? 0)%Z with true.
  change (0 <? (Z.of_nat 5 - 3) / 2)%Z with true.
  change (Z.to_nat ((Z.of_nat 5 - 3) / 2))%Z with 1%nat.
  cbn [assertb bind].
  unfold H, h, slam_off. np_eval.
  change (Z.of_nat 2 =? Z.of_nat 5 - 3)%Z with true. cbv iota.
  unfold H_step, update_R, associate. np_eval.
  reflexivity.
Qed.

(** An empty batch and no landmark: the state is returned unchanged with
    the NIS sentinel 1, whether association is enabled or not. *)
Lemma update_empty_no_landmark (self : EKFSLAM) (eta : vec) (P : mat) :
  length eta = 3%nat ->
  np.allclose P (np.transpose P) -> np.eigvals_all_ge0 P ->
  update JCBB la_inv self eta P [] = Ok (eta, P, 1, []).
Proof.
  intros Hlen Hsym Hpsd.
  unfold update, update_correct. rewrite Hlen.
  change ((Z.of_nat 3 - 3) mod 2 =? 0)%Z with true.
  change (0 <? (Z.of_nat 3 - 3) / 2)%Z with false.
  destruct (self_do_asso self);
    cbn [assertb bind length repeat map existsb];
    rewrite (assert_holds _ Hsym), (assert_holds _ Hpsd); reflexivity.
Qed.

(** An empty batch, landmarks in the state and association enabled, the
    oracle answering with one entry per measurement: when [update] returns,
    it returns the state unchanged with the NIS sentinel 1. *)
Lemma update_empty_landmarks (self : EKFSLAM) (eta : vec) (P : mat)
  (eta' : vec) (P' : mat) (NIS : R) (a : list Z) :
  (forall z zpred S a1 a2, length (JCBB z zpred S a1 a2) = (length z / 2)%nat) ->
  self_do_asso self = true ->
  update JCBB la_inv self eta P [] = Ok (eta', P', NIS, a) ->
  eta' = eta /\ P' = P /\ NIS = 1 /\ a = [].
Proof.
  intros Hjcbb Hon E. unfold update in E. bind_inv E.
  destruct a0 as [[[[etaupd Pupd] NIS0] a0] zflat].
  assert (Hc : etaupd = eta /\ Pupd = P /\ NIS0 = 1 /\ a0 = []).
  { clear E. unfold update_correct in Ea. bind_inv Ea. clear Ea0.
    destruct (0 <? (Z.of_nat (length eta) - 3) / 2)%Z.
    - do 4 bind_inv Ea. clear Ea2.
      unfold associate in Ea3. rewrite Hon in Ea3. cbn [concat] in Ea3.
      set (aj := JCBB _ _ _ _ _) in Ea3.
      assert (Haj : aj = []).
      { apply length_zero_iff_nil. unfold aj. rewrite Hjcbb. reflexivity. }
      rewrite Haj in Ea3. cbn in Ea3. injection Ea3 as <-.
      cbn in Ea. injection Ea as <- <- <- <- _. auto.
    - cbn in Ea. injection Ea as <- <- <- <- _. auto. }
  destruct Hc as (-> & -> & -> & ->).
  rewrite Hon in E. cbn [map existsb] in E.
  bind_inv E. injection Ea0 as <-.
  do 2 bind_inv E. injection E as <- <- <- <-. auto.
Qed.

End UpdateProperties.

(** ** The measurement noise of all landmarks *)

Lemma update_R_corr : update_R slam_corr 1 = [[1; 0]; [0; 1]].
Proof. reflexivity. Qed.

Lemma block_diag_repeat_corr :
  block_diag_repeat (self_R slam_corr) 1 = [[1; 1 / 2]; [1 / 2; 1]].
Proof. reflexivity. Qed.

(** C3 at its failing input: for a per-landmark R that is not diagonal the
    big R of [update] is not the block-diagonal repetition of R; its
    off-diagonal entries are dropped. *)
Theorem update_R_drops_off_diagonal :
  update_R slam_corr 1 = [[1; 0]; [0; 1]] /\
  block_diag_repeat (self_R slam_corr) 1 = [[1; 1 / 2]; [1 / 2; 1]] /\
  update_R slam_corr 1 <> block_diag_repeat (self_R slam_corr) 1.
Proof.
  split; [exact update_R_corr | split; [exact block_diag_repeat_corr|]].
  rewrite update_R_corr, block_diag_repeat_corr. intro E.
  injection E as E _. lra.
Qed.

(** ** Entries of assigned blocks and of transposes *)

Lemma has_shape_spec (r c : nat) (M : mat) :
  np.has_shape r c M = true <-> shape r c M.
Proof.
  unfold np.has_shape, shape. rewrite andb_true_iff, Nat.eqb_eq, forallb_forall, Forall_forall.
  split; intros [Hr Hc]; (split; [exact Hr|]); intros row Hin.
  - apply Nat.eqb_eq. now apply Hc.
  - apply Nat.eqb_eq. now apply Hc.
Qed.

Lemma shape_row (r c : nat) (M : mat) (i : nat) :
  shape r c M -> (i < r)%nat -> length (nth i M []) = c.
Proof.
  intros [Hr Hc] Hi. rewrite Forall_forall in Hc. apply Hc. apply nth_In. lia.
Qed.

Lemma get_overflow_row (M : mat) (i j : nat) : (length M <= i)%nat -> np.get M i j = 0.
Proof.
  intro Hi. unfold np.get. rewrite (nth_overflow M) by exact Hi. now destruct j.
Qed.

Lemma length_slice_assign (r0 r1 c0 c1 : nat) (B P : mat) :
  length (np.slice_assign r0 r1 c0 c1 B P) = length P.
Proof. unfold np.slice_assign. apply length_mapi. Qed.

Lemma row_length_slice_assign (r0 r1 c0 c1 : nat) (B P : mat) (i : nat) :
  length (nth i (np.slice_assign r0 r1 c0 c1 B P) []) = length (nth i P []).
Proof.
  unfold np.slice_assign.
  destruct (Nat.lt_ge_cases i (length P)) as [Hi|Hi].
  - rewrite (nth_mapi _ P i [] []) by exact Hi.
    destruct (_ && _); [apply length_mapi | reflexivity].
  - rewrite !nth_overflow; [reflexivity | exact Hi | now rewrite length_mapi].
Qed.

Lemma shape_slice_assign (r c r0 r1 c0 c1 : nat) (B P : mat) :
  shape r c P -> shape r c (np.slice_assign r0 r1 c0 c1 B P).
Proof.
  intros [Hr Hc]. split; [now rewrite length_slice_assign|].
  apply Forall_forall. intros row Hin.
  destruct (In_nth _ _ [] Hin) as (i & Hi & <-).
  rewrite length_slice_assign in Hi.
  rewrite row_length_slice_assign.
  rewrite Forall_forall in Hc. apply Hc. now apply nth_In.
Qed.

(** An entry of [P] after [P[r0:r1, c0:c1] = B]. *)
Lemma get_slice_assign (r0 r1 c0 c1 : nat) (B P : mat) (i j : nat) :
  np.get (np.slice_assign r0 r1 c0 c1 B P) i j =
  if (r0 <=? i)%nat && (i <? r1)%nat && ((c0 <=? j)%nat && (j <? c1)%nat)
     && ((i <? length P)%nat && (j <? length (nth i P []))%nat)
  then np.get B (i - r0) (j - c0)
  else np.get P i j.
Proof.
  destruct (Nat.lt_ge_cases i (length P)) as [Hi|Hi].
  2:{ rewrite (get_overflow_row P) by exact Hi.
      rewrite get_overflow_row by (now rewrite length_slice_assign).
      apply Nat.ltb_ge in Hi. rewrite Hi. cbn [andb].
      rewrite !andb_false_r. reflexivity. }
  unfold np.get at 1 3. unfold np.slice_assign.
  rewrite (nth_mapi _ P i [] []) by exact Hi.
  apply Nat.ltb_lt in Hi. rewrite Hi. cbn [andb].
  destruct ((r0 <=? i)%nat && (i <? r1)%nat); cbn [andb]; [|reflexivity].
  destruct (Nat.lt_ge_cases j (length (nth i P []))) as [Hj|Hj].
  - rewrite (nth_mapi _ _ j 0 0) by exact Hj.
    apply Nat.ltb_lt in Hj. rewrite Hj, andb_true_r. reflexivity.
  - rewrite (nth_overflow (nth i P [])) by exact Hj.
    rewrite nth_overflow by (now rewrite length_mapi).
    apply Nat.ltb_ge in Hj. rewrite Hj, andb_false_r. reflexivity.
Qed.

Lemma length_transpose (M : mat) : length (np.transpose M) = np.ncols M.
Proof. unfold np.transpose. now rewrite length_map, length_seq. Qed.

(** An entry of [M.T]. *)
Lemma get_transpose (M : mat) (i j : nat) :
  (i < np.ncols M)%nat -> np.get (np.transpose M) i j = np.get M j i.
Proof.
  intro Hi. unfold np.get, np.transpose.
  rewrite (nth_indep _ [] (np.col M 0%nat)) by (now rewrite length_map, length_seq).
  rewrite (map_nth (np.col M) (seq 0 (np.ncols M)) 0%nat i).
  rewrite seq_nth by exact Hi. cbn [Nat.add]. unfold np.col.
  destruct (Nat.lt_ge_cases j (length M)) as [Hj|Hj].
  - rewrite (nth_indep _ 0 (nth i [] 0)) by (now rewrite length_map).
    now rewrite (map_nth (fun row => nth i row 0) M [] j).
  - rewrite nth_overflow by (now rewrite length_map).
    rewrite (nth_overflow M) by exact Hj. now destruct i.
Qed.

Lemma get_cols_from (a : nat) (M : mat) (i j : nat) :
  np.get (np.cols_from a M) i j = np.get M i (a + j).
Proof.
  unfold np.get, np.cols_from.
  destruct (Nat.lt_ge_cases i (length M)) as [Hi|Hi].
  - rewrite (nth_indep _ [] (skipn a [])) by (now rewrite length_map).
    rewrite (map_nth (skipn a) M [] i). apply nth_skipn.
  - rewrite (nth_overflow M) by exact Hi.
    rewrite (nth_overflow (map _ _)) by (now rewrite length_map).
    rewrite !(nth_overflow []) by (simpl; lia). reflexivity.
Qed.

(** *** What the big R of [update] is for any per-landmark R *)

Lemma mapi_from_ext {A B : Type} (g1 g2 : nat -> A -> B) (l : list A) (k : nat) :
  (forall i a, (k <= i)%nat -> g1 i a = g2 i a) ->
  np.mapi_from k g1 l = np.mapi_from k g2 l.
Proof.
  revert k. induction l as [|a l IH]; intros k Hg; [reflexivity|].
  cbn [np.mapi_from]. rewrite (Hg k a) by lia. f_equal.
  apply IH. intros i b Hi. apply Hg. lia.
Qed.

Lemma mapi_from_shift {A B : Type} (g : nat -> A -> B) (l : list A) (k s : nat) :
  np.mapi_from (k + s) g l = np.mapi_from k (fun i => g (i + s)%nat) l.
Proof.
  revert k. induction l as [|a l IH]; intro k; [reflexivity|].
  cbn [np.mapi_from]. f_equal. apply (IH (S k)).
Qed.

Lemma mapi_from_shift2 {A B : Type} (g : nat -> A -> B) (l : list A) :
  np.mapi_from 2 g l = np.mapi_from 0 (fun i => g (i + 2)%nat) l.
Proof. exact (mapi_from_shift g l 0 2). Qed.

Lemma mapi_from_map {A B : Type} (g : A -> B) (l : list A) (k : nat) :
  np.mapi_from k (fun _ a => g a) l = map g l.
Proof.
  revert k. induction l as [|a l IH]; intro k; [reflexivity|].
  cbn [np.mapi_from map]. now rewrite IH.
Qed.

Lemma map_const_zeros {A : Type} (l : list A) : map (fun _ => 0) l = np.zeros (length l).
Proof. induction l as [|a l IH]; [reflexivity|]. cbn. now rewrite IH. Qed.

(** The off-diagonal part of a row of [np.diag v]. *)
Lemma diag_row_tail (i k : nat) (x : R) (v : vec) :
  (i < k)%nat ->
  np.mapi_from k (fun j (_ : R) => if (i =? j)%nat then x else 0) v = np.zeros (length v).
Proof.
  intro Hik. rewrite <- map_const_zeros, <- (mapi_from_map (fun _ => 0) v k).
  apply mapi_from_ext. intros j a Hj.
  replace (i =? j)%nat with false by (symmetry; apply Nat.eqb_neq; lia). reflexivity.
Qed.

Lemma ncols_diag (v : vec) : np.ncols (np.diag v) = length v.
Proof.
  destruct v as [|a v]; [reflexivity|].
  unfold np.diag, np.mapi. cbn [np.mapi_from np.ncols].
  apply (length_mapi_from _ (a :: v) 0).
Qed.

(** [np.diag] of a vector that starts with two entries: a 2 x 2 diagonal
    block followed by [np.diag] of the rest. *)
Lemma diag_cons2 (a d : R) (v : vec) :
  np.diag (a :: d :: v) = np.block_diag [[a; 0]; [0; d]] (np.diag v).
Proof.
  unfold np.block_diag. rewrite ncols_diag.
  unfold np.diag at 1, np.mapi. cbn [np.mapi_from map app np.ncols length np.zeros repeat].
  rewrite !diag_row_tail by lia.
  change (0 =? 0)%nat with true. change (0 =? 1)%nat with false.
  change (1 =? 0)%nat with false. change (1 =? 1)%nat with true.
  cbv iota. f_equal. f_equal.
  rewrite (mapi_from_ext _
             (fun i x => 0 :: 0 :: np.mapi_from 2
                                     (fun j (_ : R) => if (i =? j)%nat then x else 0) v) v 2).
  2:{ intros i x Hi.
      replace (i =? 0)%nat with false by (symmetry; apply Nat.eqb_neq; lia).
      replace (i =? 1)%nat with false by (symmetry; apply Nat.eqb_neq; lia).
      reflexivity. }
  rewrite mapi_from_shift2. unfold np.diag, np.mapi.
  assert (Hgen : forall (w : vec) (k : nat),
             np.mapi_from k
               (fun i x =>
                  0 :: 0 :: np.mapi_from 2
                              (fun j (_ : R) => if (i + 2 =? j)%nat then x else 0) v)
               w
             = map (fun row => 0 :: 0 :: row)
                 (np.mapi_from k
                    (fun i x =>
                       np.mapi_from 0 (fun j (_ : R) => if (i =? j)%nat then x else 0) v)
                    w)).
  { induction w as [|x w IH]; intro k; [reflexivity|].
    cbn [np.mapi_from map]. rewrite IH. f_equal. f_equal. f_equal.
    rewrite mapi_from_shift2.
    apply mapi_from_ext. intros j b _.
    destruct (Nat.eqb_spec k j) as [->|Hne].
    - now rewrite Nat.eqb_refl.
    - replace (k + 2 =? j + 2)%nat with false by (symmetry; apply Nat.eqb_neq; lia).
      reflexivity. }
  exact (Hgen v 0%nat).
Qed.

Lemma diag_repeat (a d : R) (n : nat) :
  np.diag (concat (repeat [a; d] n)) = block_diag_repeat [[a; 0]; [0; d]] n.
Proof.
  induction n as [|n IH]; [reflexivity|].
  cbn [repeat concat app block_diag_repeat]. rewrite diag_cons2, IH. reflexivity.
Qed.

(** Entries of a list of [n] copies of a pair. *)
Lemma nth_concat_repeat2 {T : Type} (x y d0 : T) (n k : nat) :
  (k < n)%nat ->
  nth (2 * k) (concat (repeat [x; y] n)) d0 = x /\
  nth (2 * k + 1) (concat (repeat [x; y] n)) d0 = y.
Proof.
  revert k. induction n as [|n IH]; intros k Hk; [lia|].
  cbn [repeat concat app]. destruct k as [|k]; [split; reflexivity|].
  replace (2 * S k)%nat with (S (S (2 * k))) by lia.
  replace (S (S (2 * k)) + 1)%nat with (S (S (2 * k + 1))) by lia.
  cbn [nth]. apply IH. lia.
Qed.

Lemma length_concat_repeat2 {T : Type} (x y : T) (n : nat) :
  length (concat (repeat [x; y] n)) = (2 * n)%nat.
Proof. induction n as [|n IH]; [reflexivity|]. cbn [repeat concat app length]. lia. Qed.

(** The diagonal of the tiled per-landmark R. *)
Lemma diagonal_repmat (a b c d : R) (n : nat) :
  np.diagonal (np.repmat [[a; b]; [c; d]] n n) = concat (repeat [a; d] n).
Proof.
  unfold np.repmat. cbn [map].
  set (rowA := concat (repeat [a; b] n)). set (rowC := concat (repeat [c; d] n)).
  destruct n as [|n']; [reflexivity|]. set (n := S n') in *.
  assert (Hr : np.nrows (concat (repeat [rowA; rowC] n)) = (2 * n)%nat)
    by apply length_concat_repeat2.
  assert (Hc : np.ncols (concat (repeat [rowA; rowC] n)) = (2 * n)%nat).
  { unfold n at 1. cbn [repeat concat app np.ncols]. apply length_concat_repeat2. }
  unfold np.diagonal. rewrite Hr, Hc, Nat.min_id.
  apply (nth_ext _ _ 0 0).
  { now rewrite length_map, length_seq, length_concat_repeat2. }
  intros i Hi. rewrite length_map, length_seq in Hi.
  rewrite (nth_indep _ 0 ((fun i0 => np.get (concat (repeat [rowA; rowC] n)) i0 i0) 0%nat))
    by (now rewrite length_map, length_seq).
  rewrite (map_nth (fun i0 => np.get (concat (repeat [rowA; rowC] n)) i0 i0)).
  rewrite seq_nth by exact Hi. cbn [Nat.add]. unfold np.get.
  pose proof (Nat.div_mod_eq i 2) as Hdm.
  pose proof (Nat.mod_upper_bound i 2 ltac:(lia)) as Hm.
  assert (Hk : (i / 2 < n)%nat) by lia.
  destruct (nth_concat_repeat2 rowA rowC [] n (i / 2) Hk) as [EA EC].
  destruct (nth_concat_repeat2 a b 0 n (i / 2) Hk) as [Ea _].
  destruct (nth_concat_repeat2 c d 0 n (i / 2) Hk) as [_ Ed].
  destruct (nth_concat_repeat2 a d 0 n (i / 2) Hk) as [Fa Fd].
  destruct (Nat.eq_dec (i mod 2) 0) as [E0|E1].
  - replace i with (2 * (i / 2))%nat at 1 2 3 by lia.
    rewrite EA. unfold rowA. rewrite Ea, Fa. reflexivity.
  - replace i with (2 * (i / 2) + 1)%nat at 1 2 3 by lia.
    rewrite EC. unfold rowC. rewrite Ed, Fd. reflexivity.
Qed.

(** For any 2 x 2 per-landmark R, the big R of [update] is the
    block-diagonal repetition of the diagonal part of R. *)
Lemma update_R_diagonal_part (self : EKFSLAM) (n : nat) :
  shape 2 2 (self_R self) ->
  update_R self n = block_diag_repeat (np.diag (np.diagonal (self_R self))) n.
Proof.
  intros [Hr Hc]. unfold update_R.
  destruct (self_R self) as [|r0 [|r1 [|? ?]]]; try discriminate Hr.
  inversion Hc as [|? ? H0 Hc1]; subst. inversion Hc1 as [|? ? H1 _]; subst.
  destruct r0 as [|a [|b [|? ?]]]; try discriminate H0.
  destruct r1 as [|c [|d [|? ?]]]; try discriminate H1.
  rewrite diagonal_repmat, diag_repeat. reflexivity.
Qed.

(** When the per-landmark R is diagonal, the big R of [update] is its
    block-diagonal repetition. *)
Lemma update_R_diagonal (self : EKFSLAM) (a d : R) (n : nat) :
  self_R self = [[a; 0]; [0; d]] ->
  update_R self n = block_diag_repeat (self_R self) n.
Proof.
  intro ER. rewrite update_R_diagonal_part by (rewrite ER; apply has_shape_spec; reflexivity).
  rewrite ER. reflexivity.
Qed.

(** ** The frame of [predict] *)

Lemma predict_cov_shape (self : EKFSLAM) (Fx_ Fu_ P : mat) (r c : nat) :
  shape r c P -> shape r c (predict_cov self Fx_ Fu_ P).
Proof.
  intro HP. unfold predict_cov. now repeat apply shape_slice_assign.
Qed.

Lemma predict_cov_map_block (self : EKFSLAM) (Fx_ Fu_ P : mat) (i j : nat) :
  (3 <= i)%nat -> (3 <= j)%nat ->
  np.get (predict_cov self Fx_ Fu_ P) i j = np.get P i j.
Proof.
  intros Hi Hj. unfold predict_cov. cbv zeta.
  assert (Ei : (i <? 3)%nat = false) by (apply Nat.ltb_ge; lia).
  assert (Ej : (j <? 3)%nat = false) by (apply Nat.ltb_ge; lia).
  rewrite get_slice_assign. rewrite Ej. rewrite !andb_false_r. cbn [andb].
  rewrite get_slice_assign. rewrite Ei. rewrite !andb_false_r. cbn [andb].
  rewrite get_slice_assign. rewrite Ei. rewrite !andb_false_r. cbn [andb].
  reflexivity.
Qed.

Lemma predict_cov_cross (self : EKFSLAM) (Fx_ Fu_ P : mat) (n i j : nat) :
  shape n n P -> (i < 3)%nat -> (3 <= j)%nat ->
  np.get (predict_cov self Fx_ Fu_ P) j i = np.get (predict_cov self Fx_ Fu_ P) i j.
Proof.
  intros HP Hi Hj. unfold predict_cov. cbv zeta.
  set (P1 := np.slice_assign 0 3 0 3 _ P).
  set (P2 := np.slice_assign 0 3 3 (np.ncols P1) _ P1).
  assert (HP2 : shape n n P2) by (unfold P2, P1; now repeat apply shape_slice_assign).
  assert (Ei : (3 <=? i)%nat = false) by (apply Nat.leb_gt; lia).
  rewrite (get_slice_assign 3 _ 0 3 _ P2 i j). rewrite Ei. cbn [andb].
  rewrite (get_slice_assign 3 _ 0 3 _ P2 j i).
  destruct (Nat.lt_ge_cases j n) as [Hjn|Hjn].
  - assert (Hrow : forall k, (k < n)%nat -> length (nth k P2 []) = n).
    { intros k Hk. now apply (shape_row n n). }
    unfold np.nrows. rewrite (proj1 HP2), (Hrow j Hjn).
    replace ((3 <=? j)%nat && (j <? n)%nat && ((0 <=? i)%nat && (i <? 3)%nat)
             && ((j <? n)%nat && (i <? n)%nat)) with true.
    2:{ symmetry. rewrite !andb_true_iff. rewrite !Nat.leb_le, !Nat.ltb_lt. lia. }
    rewrite Nat.sub_0_r.
    rewrite get_transpose.
    + rewrite get_cols_from. replace (3 + (j - 3))%nat with j by lia.
      unfold np.get. rewrite nth_firstn. apply Nat.ltb_lt in Hi. now rewrite Hi.
    + unfold np.ncols, np.cols_from.
      destruct P2 as [|row0 P2'] eqn:EP2; [simpl in HP2; destruct HP2; simpl in *; lia|].
      cbn [firstn map]. rewrite length_skipn.
      specialize (Hrow 0%nat ltac:(lia)). cbn [nth] in Hrow. lia.
  - replace ((j <? length P2)%nat) with false
      by (symmetry; apply Nat.ltb_ge; now rewrite (proj1 HP2)).
    rewrite !andb_false_r.
    rewrite get_overflow_row by (now rewrite (proj1 HP2)).
    unfold np.get. destruct (Nat.lt_ge_cases i n) as [Hin|Hin].
    + rewrite nth_overflow; [reflexivity|]. rewrite (shape_row n n) by assumption. lia.
    + rewrite (nth_overflow P2) by (now rewrite (proj1 HP2)). now destruct j.
Qed.

(** [predict] keeps the dimensions of the state and of its covariance. *)
Lemma predict_dimensions (self : EKFSLAM) (eta : vec) (P : mat) (z_odo : vec)
  (eta' : vec) (P' : mat) :
  predict self eta P z_odo = Ok (eta', P') ->
  length eta' = length eta /\ shape (length eta) (length eta) P'.
Proof.
  unfold predict. intro E.
  do 2 bind_inv E.
  bind_named E u1 Hshape. bind_named E x_pred Ef.
  bind_named E Fx_ EFx. bind_named E Fu_ EFu.
  do 2 bind_inv E. bind_named E uu Hshape2. injection E as <- <-.
  apply assertb_Ok, has_shape_spec in Hshape.
  apply assertb_Ok, has_shape_spec in Hshape2.
  pose proof (predict_cov_shape self Fx_ Fu_ P _ _ Hshape) as Hs.
  split; [|exact Hs].
  destruct Hs as [Hs _]. destruct Hshape2 as [Hs' _].
  exact (eq_trans (eq_sym Hs') Hs).
Qed.

(** C4: [predict] leaves the landmark entries of eta and the map-map block
    of P unchanged; the map-pose block it writes is the exact transpose of
    the pose-map block, and the dimensions are kept.  What it may modify is
    the pose, the pose block and the two cross blocks. *)
Theorem predict_frame (self : EKFSLAM) (eta : vec) (P : mat) (z_odo : vec)
  (eta' : vec) (P' : mat) :
  predict self eta P z_odo = Ok (eta', P') ->
  skipn 3 eta' = skipn 3 eta /\
  (forall i j : nat, (3 <= i)%nat -> (3 <= j)%nat -> np.get P' i j = np.get P i j) /\
  (forall i j : nat, (i < 3)%nat -> (3 <= j)%nat -> np.get P' j i = np.get P' i j) /\
  length eta' = length eta /\
  shape (length eta) (length eta) P'.
Proof.
  intro E. destruct (predict_dimensions _ _ _ _ _ _ E) as [Hlen Hs].
  unfold predict in E.
  do 2 bind_inv E.
  bind_named E u1 Hshape. bind_named E x_pred Ef.
  bind_named E Fx_ EFx. bind_named E Fu_ EFu.
  do 3 bind_inv E. injection E as <- <-.
  apply assertb_Ok, has_shape_spec in Hshape.
  destruct (f_heading_wrapped _ _ _ _ Ef) as [_ Hl].
  split; [|split; [|split; [|split]]].
  - rewrite skipn_app, Hl. rewrite skipn_all2 by lia. reflexivity.
  - intros i j Hi Hj. now apply predict_cov_map_block.
  - intros i j Hi Hj. now apply (predict_cov_cross self Fx_ Fu_ P (length eta)).
  - exact Hlen.
  - exact Hs.
Qed.

(** *** An example with one landmark at (2, 0) *)

Lemma nonzero5 (a b c d e : R) :
  [a; b; c; d; e] <> np.zeros 5 -> 0 < a * a + b * b + c * c + d * d + e * e.
Proof.
  intro Hnz. destruct (Rlt_le_dec 0 (a * a + b * b + c * c + d * d + e * e)) as [|Hle];
    [assumption|].
  exfalso. apply Hnz.
  assert (a = 0) by nra. assert (b = 0) by nra. assert (c = 0) by nra.
  assert (d = 0) by nra. assert (e = 0) by nra. subst. reflexivity.
Qed.

Lemma eye5_ge0 : np.eigvals_all_ge0 (np.eye 5).
Proof.
  intros x Hx.
  destruct x as [|a [|b [|c [|d [|e [|? ?]]]]]]; try discriminate Hx.
  np_eval. nra.
Qed.

Lemma cov1_gt0 : np.eigvals_all_gt0 cov1.
Proof.
  intros x Hx Hnz.
  destruct x as [|a [|b [|c [|d [|e [|? ?]]]]]]; try discriminate Hx.
  apply nonzero5 in Hnz. unfold cov1. np_eval. nra.
Qed.

Lemma predict_cov_example1 :
  predict_cov slam0 [[1; 0; 0]; [0; 1; 1]; [0; 0; 1]] (np.eye 3) (np.eye 5) = cov1.
Proof.
  unfold slam0, cov1. np_eval. list_eq; lra.
Qed.

Lemma predict_example1 :
  predict slam0 [0; 0; 0; 2; 0] (np.eye 5) [1; 0; 0] = Ok ([1; 0; 0; 2; 0], cov1).
Proof.
  unfold predict.
  rewrite (assert_holds _ (allclose_symmetric (np.eye 5) eq_refl)).
  rewrite (assert_holds _ eye5_ge0).
  cbn [firstn skipn bind length].
  change (np.has_shape 5 5 (np.eye 5)) with true. cbn [assertb bind].
  rewrite f_example, Fx_example, Fu_example. cbn [bind].
  rewrite predict_cov_example1.
  rewrite (assert_holds _ (allclose_symmetric cov1 eq_refl)).
  rewrite (assert_holds _ cov1_gt0).
  reflexivity.
Qed.

Lemma predict_frame_witness :
  predict slam0 [0; 0; 0; 2; 0] (np.eye 5) [1; 0; 0] = Ok ([1; 0; 0; 2; 0], cov1) /\
  skipn 3 [1; 0; 0; 2; 0] = skipn 3 [0; 0; 0; 2; 0] /\
  (forall i j : nat, (3 <= i)%nat -> (3 <= j)%nat -> np.get cov1 i j = np.get (np.eye 5) i j).
Proof.
  split; [exact predict_example1|].
  destruct (predict_frame slam0 _ _ _ _ _ predict_example1) as (H1 & H2 & _).
  split; [exact H1 | exact H2].
Defined.

(** ** The covariance of the Kalman correction *)




Lemma length_vmmul (u : vec) (M : mat) : length (np.vmmul u M) = np.ncols M.
Proof. unfold np.vmmul. now rewrite length_map, length_transpose. Qed.

Lemma shape_mmul (A B : mat) : shape (length A) (np.ncols B) (np.mmul A B).
Proof.
  unfold np.mmul. split; [apply length_map|].
  apply Forall_forall. intros row Hin. apply in_map_iff in Hin.
  destruct Hin as (u & <- & _). apply length_vmmul.
Qed.

Lemma ncols_shape (r c : nat) (M : mat) : shape r c M -> (0 < r)%nat -> np.ncols M = c.
Proof.
  intros [Hr Hc] Hpos. destruct M as [|row M]; simpl in *; [lia|].
  now inversion Hc.
Qed.

Lemma shape_eye (n : nat) : shape n n (np.eye n).
Proof.
  unfold np.eye, np.eye2. split; [now rewrite length_map, length_seq|].
  apply Forall_forall. intros row Hin. apply in_map_iff in Hin.
  destruct Hin as (i & <- & _). now rewrite length_map, length_seq.
Qed.




(** *** A correction with one matched landmark at (2, 0), seen from the
    origin: [Ha] is the Jacobian of the measurement there, [Sa] is
    [Ha @ P @ Ha.T + R] for [P = I] and [R = I]. *)

Lemma Sa1_gt0 : np.eigvals_all_gt0 Sa1.
Proof.
  intros x Hx Hnz.
  destruct x as [|a [|b [|? ?]]]; try discriminate Hx.
  assert (Hn : 0 < a * a + b * b).
  { destruct (Rlt_le_dec 0 (a * a + b * b)) as [|Hle]; [assumption|].
    exfalso. apply Hnz. assert (a = 0) by nra. assert (b = 0) by nra.
    subst. reflexivity. }
  unfold Sa1. np_eval. nra.
Qed.

Lemma Pupd1_gt0 : np.eigvals_all_gt0 Pupd1.
Proof.
  intros x Hx Hnz.
  destruct x as [|a [|b [|c [|d [|e [|? ?]]]]]]; try discriminate Hx.
  apply nonzero5 in Hnz. unfold Pupd1. np_eval.
  pose proof (Rle_0_sqr (a + d)). pose proof (Rle_0_sqr (b + e)).
  pose proof (Rle_0_sqr (b - 2 * c)). pose proof (Rle_0_sqr (2 * c + e)).
  pose proof (Rle_0_sqr (b - c + e)).
  unfold Rsqr in *. nra.
Qed.

Lemma Pupd1_computed :
  np.mmul (np.add_one_on_diag (np.mmul (np.mopp (kalman_gain inv1 (np.eye 5) Ha1 Sa1)) Ha1))
          (np.eye 5) = Pupd1.
Proof.
  unfold kalman_gain, inv1, Ha1, Pupd1. np_eval. list_eq; lra.
Qed.


(** The first half of [update] either keeps the state or applies the Kalman
    correction to the measurements that [associate] matched, of which there
    is at least one. *)
Lemma update_correct_cases (JCBB : vec -> vec -> mat -> R -> R -> list Z)
  (la_inv : mat -> mat) (self : EKFSLAM) (eta : vec) (P : mat) (z : mat)
  (etaupd : vec) (Pupd : mat) (NIS : R) (a : list Z) (zflat : vec) :
  update_correct JCBB la_inv self eta P z = Ok (etaupd, Pupd, NIS, a, zflat) ->
  (etaupd = eta /\ Pupd = P /\ NIS = 1) \/
  (exists za zpred Ha Sa,
      kalman_correction la_inv eta P za zpred Ha Sa = Ok (etaupd, Pupd, NIS) /\
      length za <> 0%nat /\ np.nrows Ha = length za).
Proof.
  unfold update_correct. intro E. bind_inv E.
  destruct (0 <? _)%Z.
  - bind_named E zpred Eh. bind_named E H_ EH. bind_inv E.
    bind_named E r Eassoc.
    destruct r as [[[[[za zpreda] Ha] Sa] a']|]; [|discriminate E].
    unfold associate in Eassoc. destruct (self_do_asso self); [|discriminate Eassoc].
    bind_named Eassoc u1 Hlen. do 1 bind_inv Eassoc. bind_named Eassoc u3 Hrows.
    injection Eassoc as <- <- <- <- <-.
    apply assertb_Ok in Hlen. apply Nat.eqb_eq in Hlen.
    apply assertb_Ok in Hrows. apply Nat.eqb_eq in Hrows.
    destruct (length _ =? 0)%nat eqn:Hza.
    + injection E as <- <- <- _ _. left. auto.
    + apply Nat.eqb_neq in Hza.
      bind_named E r Ekal. destruct r as [[etaupd' Pupd'] NIS'].
      injection E as <- <- <- _ _.
      right. do 4 eexists. split; [exact Ekal|]. split; [exact Hza|].
      exact (eq_trans Hrows Hlen).
  - injection E as <- <- <- _ _. left. auto.
Qed.

(** ** Polar coordinates *)

Lemma atan_ratio (r s c a : R) :
  0 < r -> c <> 0 -> - (PI / 2) < a < PI / 2 -> sin a = s * (cos a / c) ->
  cos a <> 0 ->
  atan (r * s / (r * c)) = a.
Proof.
  intros Hr Hc Ha Hs Hca.
  replace (r * s / (r * c)) with (tan a).
  - now apply atan_tan.
  - unfold tan. rewrite Hs. field. repeat split; try assumption; lra.
Qed.

(** [arctan2] gives back the angle of a point given in polar coordinates. *)
Lemma arctan2_polar (r b : R) :
  0 < r -> wrapped b -> np.arctan2 (r * sin b) (r * cos b) = b.
Proof.
  intros Hr [Hlo Hhi]. pose proof PI_RGT_0 as Hpi.
  unfold np.arctan2.
  destruct (Rlt_le_dec b (- (PI / 2))) as [HE|HnE].
  { (* -pi < b < -pi/2 *)
    assert (Hc : cos b < 0).
    { rewrite <- cos_neg. apply cos_lt_0; lra. }
    assert (Hs : sin b < 0) by (apply sin_lt_0_var; lra).
    destruct (Rlt_dec 0 (r * cos b)) as [Hx|_]; [nra|].
    destruct (Rlt_dec (r * cos b) 0) as [_|Hx]; [|nra].
    destruct (Rle_dec 0 (r * sin b)) as [Hy|_]; [nra|].
    rewrite (atan_ratio r (sin b) (cos b) (b + PI)); try lra.
    - rewrite neg_sin, neg_cos. field. lra.
    - rewrite neg_cos. lra. }
  destruct (Req_dec b (- (PI / 2))) as [HD|HnD].
  { subst b. rewrite cos_neg, sin_neg, cos_PI2, sin_PI2.
    destruct (Rlt_dec 0 (r * 0)) as [Hx|_]; [lra|].
    destruct (Rlt_dec (r * 0) 0) as [Hx|_]; [lra|].
    destruct (Rlt_dec 0 (r * - (1))) as [Hy|_]; [lra|].
    destruct (Rlt_dec (r * - (1)) 0) as [_|Hy]; [reflexivity|lra]. }
  destruct (Rlt_le_dec b (PI / 2)) as [HA|HnA].
  { (* -pi/2 < b < pi/2 *)
    assert (Hc : 0 < cos b) by (apply cos_gt_0; lra).
    destruct (Rlt_dec 0 (r * cos b)) as [_|Hx]; [|nra].
    apply atan_ratio; try lra. field. lra. }
  destruct (Req_dec b (PI / 2)) as [HB|HnB].
  { subst b. rewrite cos_PI2, sin_PI2.
    destruct (Rlt_dec 0 (r * 0)) as [Hx|_]; [lra|].
    destruct (Rlt_dec (r * 0) 0) as [Hx|_]; [lra|].
    destruct (Rlt_dec 0 (r * 1)) as [_|Hy]; [reflexivity|lra]. }
  (* pi/2 < b <= pi *)
  assert (Hc : cos b < 0) by (apply cos_lt_0; lra).
  assert (Hs : 0 <= sin b) by (apply sin_ge_0; lra).
  destruct (Rlt_dec 0 (r * cos b)) as [Hx|_]; [nra|].
  destruct (Rlt_dec (r * cos b) 0) as [_|Hx]; [|nra].
  destruct (Rle_dec 0 (r * sin b)) as [_|Hy]; [|nra].
  assert (Es : sin (b - PI) = - sin b).
  { replace (sin b) with (sin (b - PI + PI)) by (f_equal; lra). rewrite neg_sin. lra. }
  assert (Ec : cos (b - PI) = - cos b).
  { replace (cos b) with (cos (b - PI + PI)) by (f_equal; lra). rewrite neg_cos. lra. }
  rewrite (atan_ratio r (sin b) (cos b) (b - PI)); try lra.
  all: rewrite ?Es, ?Ec; try lra; field; lra.
Qed.

Lemma norm_polar (r a : R) : 0 < r -> np.norm [r * cos a; r * sin a] = r.
Proof.
  intro Hr. unfold np.norm. cbn [np.dot].
  replace (r * cos a * (r * cos a) + (r * sin a * (r * sin a) + 0))
    with (Rsqr r * (Rsqr (sin a) + Rsqr (cos a))) by (unfold Rsqr; ring).
  rewrite sin2_cos2, Rmult_1_r. apply sqrt_Rsqr. lra.
Qed.

(** The measurement predicted for a landmark placed at range [r] and bearing
    [b] from the sensor. *)
Lemma range_bearing_polar (psi r b e0 e1 o0 o1 : R) :
  0 < r -> wrapped b ->
  range_bearing (rotmat2d (- psi))
    (np.vsub (np.vsub [e0 + r * cos (psi + b) + o0; e1 + r * sin (psi + b) + o1] [e0; e1])
             [o0; o1])
  = [r; b].
Proof.
  intros Hr Hb.
  assert (Hd : np.vsub (np.vsub [e0 + r * cos (psi + b) + o0; e1 + r * sin (psi + b) + o1]
                                [e0; e1]) [o0; o1]
               = [r * cos (psi + b); r * sin (psi + b)]).
  { np_eval. list_eq; ring. }
  rewrite Hd. unfold range_bearing.
  rewrite norm_polar by exact Hr.
  pose proof (sin2_cos2 psi) as Hcs. unfold Rsqr in Hcs.
  np_eval. rewrite cos_neg, sin_neg, cos_plus, sin_plus.
  f_equal. f_equal.
  etransitivity; [|apply (arctan2_polar r b Hr Hb)].
  f_equal.
  - replace (r * sin b) with (r * sin b * (sin psi * sin psi + cos psi * cos psi))
      by (rewrite Hcs; ring).
    ring.
  - replace (r * cos b) with (r * cos b * (sin psi * sin psi + cos psi * cos psi))
      by (rewrite Hcs; ring).
    ring.
Qed.

(** ** The landmarks written by [add_landmarks] *)

Lemma add_landmarks_step_lmnew (self : EKFSLAM) (eta z : vec) (st : vec * mat * mat) (j : nat) :
  fst (fst (add_landmarks_step self eta z st j)) =
  np.vslice_assign (2 * j) (2 * j + 2) (new_landmark self eta z j) (fst (fst st)).
Proof. destruct st as [[lm G] Rl]. reflexivity. Qed.

Lemma fold_lmnew (self : EKFSLAM) (eta z : vec) (js : list nat) (st : vec * mat * mat) :
  fst (fst (fold_left (add_landmarks_step self eta z) js st)) =
  fold_left (fun lm j => np.vslice_assign (2 * j) (2 * j + 2) (new_landmark self eta z j) lm)
            js (fst (fst st)).
Proof.
  revert st. induction js as [|j js IH]; intro st; [reflexivity|].
  cbn [fold_left]. rewrite IH, add_landmarks_step_lmnew. reflexivity.
Qed.

(** Writing [src] at the position where the prefix [A] ends. *)
Lemma vslice_assign_app (A src B : vec) (a : nat) :
  length A = a -> (length src <= length B)%nat ->
  np.vslice_assign a (a + length src) src (A ++ B) = A ++ src ++ skipn (length src) B.
Proof.
  intros HA Hsrc. unfold np.vslice_assign.
  apply (nth_ext _ _ 0 0).
  { rewrite length_mapi, !length_app, length_skipn. lia. }
  intros i Hi. rewrite length_mapi in Hi.
  rewrite (nth_mapi _ _ i 0 0) by exact Hi.
  rewrite length_app in Hi.
  destruct (Nat.lt_ge_cases i a) as [Hia|Hia].
  - replace (a <=? i)%nat with false by (symmetry; apply Nat.leb_gt; lia).
    cbn [andb]. rewrite !app_nth1 by lia. reflexivity.
  - replace (a <=? i)%nat with true by (symmetry; apply Nat.leb_le; lia).
    cbn [andb]. rewrite (app_nth2 A) by lia. rewrite (app_nth2 A (src ++ _)) by lia.
    rewrite HA.
    destruct (Nat.lt_ge_cases i (a + length src)) as [His|His].
    + replace (i <? a + length src)%nat with true by (symmetry; apply Nat.ltb_lt; lia).
      rewrite app_nth1 by lia. reflexivity.
    + replace (i <? a + length src)%nat with false by (symmetry; apply Nat.ltb_ge; lia).
      rewrite app_nth2 by lia. rewrite nth_skipn. f_equal. lia.
Qed.

Lemma length_new_landmark (self : EKFSLAM) (eta z : vec) (j : nat) :
  (2 <= length eta)%nat -> length (new_landmark self eta z j) = 2%nat.
Proof.
  intro He. unfold new_landmark. cbv zeta. unfold np.vadd.
  rewrite !length_map2. unfold np.vscale. rewrite length_map.
  rewrite length_firstn. unfold np.mvmul, np.col, rotmat2d. cbn [length map]. lia.
Qed.

Lemma length_flat_map_const {A B : Type} (g : A -> list B) (k : nat) (l : list A) :
  (forall x, length (g x) = k) -> length (flat_map g l) = (k * length l)%nat.
Proof.
  intro Hg. induction l as [|x l IH]; cbn [flat_map length]; [lia|].
  rewrite length_app, Hg, IH. lia.
Qed.

(** After the loop, [lmnew] holds the new landmarks in the order of the
    measurements. *)
Lemma fold_new_landmarks (self : EKFSLAM) (eta z : vec) (n m : nat) :
  (2 <= length eta)%nat ->
  fold_left (fun lm j => np.vslice_assign (2 * j) (2 * j + 2) (new_landmark self eta z j) lm)
            (seq 0 n) (np.zeros (2 * n + m))
  = flat_map (new_landmark self eta z) (seq 0 n) ++ np.zeros m.
Proof.
  intro He. revert m. induction n as [|n IH]; intro m; [reflexivity|].
  rewrite seq_S, fold_left_app, flat_map_app. cbn [fold_left flat_map Nat.add].
  replace (2 * S n + m)%nat with (2 * n + (2 + m))%nat by lia.
  rewrite IH. rewrite app_nil_r, <- app_assoc.
  pose proof (length_new_landmark self eta z n He) as Hl.
  assert (Hlen : length (flat_map (new_landmark self eta z) (seq 0 n)) = (2 * n)%nat).
  { rewrite (length_flat_map_const _ 2%nat) by (intro; now apply length_new_landmark).
    now rewrite length_seq. }
  replace (2 * n + 2)%nat with (2 * n + length (new_landmark self eta z n))%nat by lia.
  rewrite vslice_assign_app.
  - rewrite Hl. reflexivity.
  - exact Hlen.
  - rewrite Hl. unfold np.zeros. rewrite repeat_length. lia.
Qed.

Lemma add_landmarks_eta (self : EKFSLAM) (eta : vec) (P : mat) (z : vec)
  (eta' : vec) (P' : mat) :
  (2 <= length eta)%nat ->
  add_landmarks self eta P z = Ok (eta', P') ->
  eta' = eta ++ flat_map (new_landmark self eta z) (seq 0 (length z / 2)) /\
  length z = (2 * (length z / 2))%nat.
Proof.
  intros He E. unfold add_landmarks in E.
  destruct (fold_left _ _ _) as [[lmnew Gx] Rall] eqn:Efold.
  apply (f_equal (fun st => fst (fst st))) in Efold. cbn [fst] in Efold.
  rewrite fold_lmnew in Efold. cbn [fst] in Efold.
  pose proof (Nat.div_mod_eq (length z) 2) as Hdm.
  pose proof (Nat.mod_upper_bound (length z) 2 ltac:(lia)) as Hm.
  rewrite Hdm in Efold at 2.
  rewrite fold_new_landmarks in Efold by exact He.
  bind_named E u1 Heven. do 3 bind_inv E. injection E as <- _.
  apply assertb_Ok, Nat.eqb_eq in Heven.
  assert (Hlen : length lmnew = (2 * (length z / 2) + length z mod 2)%nat).
  { rewrite <- Efold, length_app.
    rewrite (length_flat_map_const _ 2%nat) by (intro; now apply length_new_landmark).
    unfold np.zeros. rewrite repeat_length, length_seq. reflexivity. }
  assert (Hz : (length z mod 2 = 0)%nat).
  { rewrite Hlen in Heven. rewrite Nat.add_comm, Nat.mul_comm, Nat.Div0.mod_add in Heven.
    rewrite Nat.Div0.mod_mod in Heven. exact Heven. }
  rewrite Hz in Efold. cbn [np.zeros repeat] in Efold. rewrite app_nil_r in Efold.
  split; [now rewrite Efold | lia].
Qed.

(** ** Reshaping to pairs *)

Lemma reshape_concat (ps : list vec) :
  Forall (fun p => length p = 2%nat) ps -> np.reshape_m1_2 (concat ps) = Ok ps.
Proof.
  induction 1 as [|p ps Hp _ IH]; [reflexivity|].
  destruct p as [|a [|b [|? ?]]]; try discriminate Hp.
  cbn [concat app np.reshape_m1_2]. now rewrite IH.
Qed.

Lemma reshape_Ok (v : vec) :
  (forall ps, np.reshape_m1_2 v = Ok ps ->
              v = concat ps /\ Forall (fun p => length p = 2%nat) ps) /\
  (forall a ps, np.reshape_m1_2 (a :: v) = Ok ps ->
                a :: v = concat ps /\ Forall (fun p => length p = 2%nat) ps).
Proof.
  induction v as [|b v [IH1 IH2]].
  - split.
    + intros ps E. injection E as <-. split; [reflexivity | constructor].
    + intros a ps E. discriminate E.
  - split.
    + exact (IH2 b).
    + intros a ps E. cbn [np.reshape_m1_2] in E.
      destruct (np.reshape_m1_2 v) as [r|e] eqn:Er; [|discriminate E].
      injection E as <-. destruct (IH1 r eq_refl) as [-> Hr].
      split; [reflexivity | constructor; [reflexivity | exact Hr]].
Qed.

Lemma reshape_app (v : vec) (ps qs : list vec) :
  np.reshape_m1_2 v = Ok ps -> Forall (fun p => length p = 2%nat) qs ->
  np.reshape_m1_2 (v ++ concat qs) = Ok (ps ++ qs).
Proof.
  intros Ev Hq. destruct (proj1 (reshape_Ok v) ps Ev) as [-> Hp].
  rewrite <- concat_app. apply reshape_concat. apply Forall_app. now split.
Qed.

Lemma flat_map_ext_seq {B : Type} (g1 g2 : nat -> list B) (s n : nat) :
  (forall j, (s <= j < s + n)%nat -> g1 j = g2 j) ->
  flat_map g1 (seq s n) = flat_map g2 (seq s n).
Proof.
  revert s. induction n as [|n IH]; intros s Hg; [reflexivity|].
  cbn [seq flat_map]. rewrite (Hg s) by lia. f_equal. apply IH. intros j Hj. apply Hg. lia.
Qed.

(** A flat array of even length is the concatenation of its pairs. *)
Lemma flat_pairs (z : vec) (n : nat) :
  length z = (2 * n)%nat ->
  flat_map (fun j => [np.vget z (2 * j); np.vget z (2 * j + 1)]) (seq 0 n) = z.
Proof.
  revert z. induction n as [|n IH]; intros z Hz.
  - destruct z; [reflexivity | discriminate Hz].
  - destruct z as [|a [|b z]]; try (simpl in Hz; lia).
    cbn [seq flat_map].
    change (np.vget (a :: b :: z) (2 * 0)) with a.
    change (np.vget (a :: b :: z) (2 * 0 + 1)) with b.
    cbn [app]. f_equal. f_equal.
    rewrite <- seq_shift, flat_map_concat_map, map_map, <- flat_map_concat_map.
    etransitivity; [|apply (IH z); simpl in Hz; lia].
    apply flat_map_ext. intro j.
    replace (2 * S j)%nat with (S (S (2 * j))) by lia.
    replace (S (S (2 * j)) + 1)%nat with (S (S (2 * j + 1))) by lia.
    reflexivity.
Qed.

(** ** Round trip: a landmark initialised from a measurement is predicted at
       that measurement *)

Lemma new_landmark_measured (self : EKFSLAM) (e0 e1 e2 : R) (rest z : vec) (j : nat) :
  (2 * j + 1 < length z)%nat ->
  0 < np.vget z (2 * j) -> wrapped (np.vget z (2 * j + 1)) ->
  range_bearing (rotmat2d (- e2))
    (np.vsub (np.vsub (new_landmark self (e0 :: e1 :: e2 :: rest) z j) [e0; e1])
             (np.mvmul (rotmat2d e2) (self_sensor_offset self)))
  = [np.vget z (2 * j); np.vget z (2 * j + 1)].
Proof.
  intros Hj Hr Hb.
  assert (E0 : np.vget (np.slice (2 * j) (2 * j + 2) z) 0 = np.vget z (2 * j)).
  { unfold np.vget, np.slice. rewrite nth_firstn.
    replace (0 <? 2 * j + 2 - 2 * j)%nat with true by (symmetry; apply Nat.ltb_lt; lia).
    rewrite nth_skipn. f_equal. lia. }
  assert (E1 : np.vget (np.slice (2 * j) (2 * j + 2) z) 1 = np.vget z (2 * j + 1)).
  { unfold np.vget, np.slice. rewrite nth_firstn.
    replace (1 <? 2 * j + 2 - 2 * j)%nat with true by (symmetry; apply Nat.ltb_lt; lia).
    rewrite nth_skipn. reflexivity. }
  unfold new_landmark. cbv zeta. rewrite E0, E1.
  change (np.vget (e0 :: e1 :: e2 :: rest) 2) with e2.
  set (r := np.vget z (2 * j)) in *. set (b := np.vget z (2 * j + 1)) in *.
  unfold np.mvmul, rotmat2d at 2 3. cbn [map].
  set (o0 := np.dot [cos e2; - sin e2] (self_sensor_offset self)).
  set (o1 := np.dot [sin e2; cos e2] (self_sensor_offset self)).
  exact (range_bearing_polar e2 r b e0 e1 o0 o1 Hr Hb).
Qed.

(** The measurements predicted once the new landmarks are appended. *)
Lemma h_new_landmarks (self : EKFSLAM) (eta z zpred : vec) (n : nat) :
  h self eta = Ok zpred ->
  length z = (2 * n)%nat ->
  (forall j : nat, (j < n)%nat ->
                   0 < np.vget z (2 * j) /\ wrapped (np.vget z (2 * j + 1))) ->
  h self (eta ++ flat_map (new_landmark self eta z) (seq 0 n)) = Ok (zpred ++ z).
Proof.
  intros Eh Heven Hz.
  unfold h in Eh. bind_named Eh ms Ems. bind_named Eh u1 Hlen. injection Eh as <-.
  apply assertb_Ok, Z.eqb_eq in Hlen.
  destruct eta as [|e0 [|e1 [|e2 rest]]]; try (simpl in Hlen; lia).
  unfold h.
  cbn [firstn skipn app] in *.
  rewrite flat_map_concat_map.
  rewrite (reshape_app rest ms _ Ems).
  2:{ apply Forall_forall. intros p Hp. apply in_map_iff in Hp.
      destruct Hp as (j & <- & _). apply length_new_landmark. simpl. lia. }
  cbn [bind]. rewrite map_app, flat_map_app.
  change (np.vget [e0; e1; e2] 2) with e2 in *.
  assert (Enew :
    flat_map (range_bearing (rotmat2d (- e2)))
      (map (fun mj => np.vsub (np.vsub mj [e0; e1])
                        (np.mvmul (rotmat2d e2) (self_sensor_offset self)))
           (map (new_landmark self (e0 :: e1 :: e2 :: rest) z) (seq 0 n)))
    = z).
  { rewrite map_map, flat_map_concat_map, map_map, <- flat_map_concat_map.
    etransitivity; [|apply (flat_pairs z n Heven)].
    apply flat_map_ext_seq. intros j Hj.
    destruct (Hz j ltac:(lia)) as [Hr Hb].
    apply new_landmark_measured; [lia | exact Hr | exact Hb]. }
  rewrite Enew.
  set (zp0 := flat_map (range_bearing _) (map _ ms)) in *.
  replace (Z.of_nat (length (zp0 ++ z)) =? _)%Z with true; [reflexivity|].
  symmetry. apply Z.eqb_eq.
  rewrite !length_app. cbn [length] in *. rewrite length_app.
  rewrite <- flat_map_concat_map.
  rewrite (length_flat_map_const _ 2%nat)
    by (intro; apply length_new_landmark; simpl; lia).
  rewrite length_seq. lia.
Qed.

Lemma h_Ok_length (self : EKFSLAM) (eta zpred : vec) :
  h self eta = Ok zpred -> (3 <= length eta)%nat.
Proof.
  unfold h. intro Eh. bind_named Eh ms Ems. bind_named Eh u1 Hlen.
  apply assertb_Ok, Z.eqb_eq in Hlen. lia.
Qed.


(** *** The third example scenario of the spec: the robot at the origin
    initialises a landmark from one measurement of range 1. *)

Ltac close_entries :=
  match goal with
  | |- np.isclose ?x ?y => replace x with y by lra; apply isclose_refl
  end.

Lemma add_landmarks_example (b : R) :
  cos (0 + b) = 1 -> sin (0 + b) = 0 ->
  add_landmarks slam0 [0; 0; 0] (np.zeros2 3 3) [1; b] = Ok ([0; 0; 0; 1; 0], Padded1).
Proof.
  intros Hc Hs.
  unfold add_landmarks, slam0. cbv [add_landmarks_step]. np_eval.
  rewrite Hc, Hs. trig0.
  rewrite assert_holds.
  2:{ intros i j.
      do 6 (destruct i as [|i]; [do 6 (destruct j as [|j]; [np_eval; close_entries|]);
                                 np_eval; close_entries|]).
      np_eval. destruct j; close_entries. }
  rewrite assert_holds.
  2:{ intros x Hx. destruct x as [|x0 [|x1 [|x2 [|x3 [|x4 [|? ?]]]]]]; try discriminate Hx.
      np_eval. nra. }
  f_equal. unfold Padded1. f_equal; list_eq; lra.
Qed.

Lemma h_no_landmark : h slam0 [0; 0; 0] = Ok [].
Proof.
  unfold h. np_eval. change (Z.of_nat 0 =? Z.of_nat 3 - 3)%Z with true. reflexivity.
Qed.

Lemma wrapped_0_1 : forall j : nat, (j < length [1%R; 0%R] / 2)%nat ->
  0 < np.vget [1; 0] (2 * j) /\ wrapped (np.vget [1; 0] (2 * j + 1)).
Proof.
  intros j Hj. cbn in Hj.
  assert (j = 0%nat) as -> by lia. split; [cbn; lra | exact wrapped_0].
Qed.

Lemma cos_sin_0_0 : cos (0 + 0) = 1 /\ sin (0 + 0) = 0.
Proof. rewrite Rplus_0_l, cos_0, sin_0. auto. Qed.


(** The landmark at (1, 0) is seen from the origin at range 1, bearing 0. *)
Lemma h_example : h slam0 [0; 0; 0; 1; 0] = Ok [1; 0].
Proof.
  pose proof (add_landmarks_example 0 (proj1 cos_sin_0_0) (proj2 cos_sin_0_0)) as Eadd.
  destruct (add_landmarks_eta slam0 [0; 0; 0] _ [1; 0] _ _ ltac:(simpl; lia) Eadd) as [E _].
  rewrite E.
  apply (h_new_landmarks slam0 [0; 0; 0] [1; 0] [] 1 h_no_landmark eq_refl wrapped_0_1).
Qed.



(** ** The covariance that is returned *)

Lemma dot_zeros_l (n : nat) (v : vec) : np.dot (np.zeros n) v = 0.
Proof.
  revert v. induction n as [|n IH]; intros [|b v]; simpl; try reflexivity.
  unfold np.zeros in IH. rewrite IH. lra.
Qed.

(** Positive eigenvalues are non-negative. *)
Lemma gt0_ge0 (M : mat) : np.eigvals_all_gt0 M -> np.eigvals_all_ge0 M.
Proof.
  intros Hpd x Hx.
  destruct (list_eq_dec Req_EM_T x (np.zeros (np.nrows M))) as [->|Hnz].
  - unfold np.quad. rewrite dot_zeros_l. lra.
  - left. now apply Hpd.
Qed.

Lemma predict_postcondition (self : EKFSLAM) (eta : vec) (P : mat) (z_odo : vec)
  (eta' : vec) (P' : mat) :
  predict self eta P z_odo = Ok (eta', P') ->
  np.allclose P' (np.transpose P') /\ np.eigvals_all_gt0 P'.
Proof.
  unfold predict. intro E. do 6 bind_inv E.
  bind_named E u1 Hsym. bind_named E u2 Hpd. bind_inv E. injection E as _ <-.
  apply assert_Ok in Hsym, Hpd. split; assumption.
Qed.


(** ** Exact arithmetic: [predict] keeps the covariance symmetric and
       positive semi-definite *)

Lemma fsum_ext (g1 g2 : nat -> R) (n : nat) :
  (forall i, (i < n)%nat -> g1 i = g2 i) -> fsum g1 n = fsum g2 n.
Proof.
  revert g1 g2. induction n as [|n IH]; intros g1 g2 Hg; [reflexivity|].
  cbn [fsum]. rewrite (Hg 0%nat) by lia. f_equal.
  apply IH. intros i Hi. apply Hg. lia.
Qed.

Lemma fsum_plus (g1 g2 : nat -> R) (n : nat) :
  fsum (fun i => g1 i + g2 i) n = fsum g1 n + fsum g2 n.
Proof.
  revert g1 g2. induction n as [|n IH]; intros g1 g2; cbn [fsum]; [lra|].
  rewrite IH. lra.
Qed.

Lemma fsum_scal (c : R) (g : nat -> R) (n : nat) :
  fsum (fun i => c * g i) n = c * fsum g n.
Proof.
  revert g. induction n as [|n IH]; intro g; cbn [fsum]; [lra|].
  rewrite IH. lra.
Qed.

Lemma fsum_0 (n : nat) : fsum (fun _ => 0) n = 0.
Proof. induction n as [|n IH]; cbn [fsum]; [reflexivity | rewrite IH; lra]. Qed.

Lemma dot_fsum (u v : vec) :
  length u = length v ->
  np.dot u v = fsum (fun i => nth i u 0 * nth i v 0) (length u).
Proof.
  revert v. induction u as [|a u IH]; intros [|b v] Hl; try discriminate Hl; [reflexivity|].
  cbn [np.dot length fsum nth]. f_equal. apply IH. now injection Hl.
Qed.

Lemma nth_mvmul (M : mat) (x : vec) (i : nat) :
  nth i (np.mvmul M x) 0 = np.dot (nth i M []) x.
Proof.
  unfold np.mvmul. destruct (Nat.lt_ge_cases i (length M)) as [Hi|Hi].
  - rewrite (nth_indep _ 0 (np.dot [] x)) by (now rewrite length_map).
    apply (map_nth (fun row => np.dot row x)).
  - rewrite nth_overflow by (now rewrite length_map).
    now rewrite (nth_overflow M) by exact Hi.
Qed.

(** The quadratic form of a square array as a double sum over its entries. *)
Lemma quad_fsum (n : nat) (M : mat) (x : vec) :
  shape n n M -> length x = n ->
  np.quad M x =
  fsum (fun i => nth i x 0 * fsum (fun j => np.get M i j * nth j x 0) n) n.
Proof.
  intros HM Hx. unfold np.quad.
  rewrite dot_fsum by (unfold np.mvmul; rewrite length_map; destruct HM; lia).
  rewrite Hx. apply fsum_ext. intros i Hi. f_equal.
  rewrite nth_mvmul.
  rewrite dot_fsum by (rewrite (shape_row n n M i HM Hi); lia).
  rewrite (shape_row n n M i HM Hi). reflexivity.
Qed.

Lemma get_mmul (A B : mat) (i k : nat) :
  (i < length A)%nat -> (k < np.ncols B)%nat ->
  np.get (np.mmul A B) i k = np.dot (nth i A []) (np.col B k).
Proof.
  intros Hi Hk. unfold np.get, np.mmul.
  rewrite (nth_indep _ [] (np.vmmul [] B)) by (now rewrite length_map).
  rewrite (map_nth (fun row => np.vmmul row B)).
  unfold np.vmmul, np.transpose. rewrite map_map.
  rewrite (nth_indep _ 0 (np.dot (nth i A []) (np.col B 0%nat)))
    by (now rewrite length_map, length_seq).
  rewrite (map_nth (fun j => np.dot (nth i A []) (np.col B j))).
  now rewrite seq_nth by exact Hk.
Qed.

Lemma firstn_3 {A : Type} (l : list A) (d : A) :
  (3 <= length l)%nat -> firstn 3 l = [nth 0 l d; nth 1 l d; nth 2 l d].
Proof.
  intro Hl. destruct l as [|a [|b [|c l]]]; simpl in Hl; try lia. reflexivity.
Qed.

Lemma lead3_spec (n : nat) (P : mat) :
  shape n n P -> (3 <= n)%nat -> np.cols 0 3 (np.rows 0 3 P) = lead3 P.
Proof.
  intros HP Hn.
  pose proof (shape_row n n P 0 HP ltac:(lia)) as H0.
  pose proof (shape_row n n P 1 HP ltac:(lia)) as H1.
  pose proof (shape_row n n P 2 HP ltac:(lia)) as H2.
  destruct HP as [Hr _].
  destruct P as [|r0 [|r1 [|r2 Pm]]]; simpl in Hr; try lia.
  cbn [nth] in H0, H1, H2.
  destruct r0 as [|? [|? [|? ?]]]; simpl in H0; try lia.
  destruct r1 as [|? [|? [|? ?]]]; simpl in H1; try lia.
  destruct r2 as [|? [|? [|? ?]]]; simpl in H2; try lia.
  reflexivity.
Qed.

Section PredictCov.

Variable self : EKFSLAM.
Variables f00 f01 f02 f10 f11 f12 f20 f21 f22 : R.
Variables g00 g01 g02 g10 g11 g12 g20 g21 g22 : R.
Variable P : mat.
Variable n : nat.
Hypothesis HP : shape n n P.
Hypothesis Hn : (3 <= n)%nat.

Let F : mat := [[f00; f01; f02]; [f10; f11; f12]; [f20; f21; f22]].
Let G : mat := [[g00; g01; g02]; [g10; g11; g12]; [g20; g21; g22]].

(** The pose block written by [predict]. *)
Lemma predict_cov_pose_entry (i j : nat) :
  (i < 3)%nat -> (j < 3)%nat ->
  np.get (predict_cov self F G P) i j =
  np.get (np.madd (np.mmul (np.mmul F (lead3 P)) (np.transpose F))
                  (np.mmul (np.mmul G (self_Q self)) (np.transpose G))) i j.
Proof.
  intros Hi Hj. unfold predict_cov. cbv zeta.
  assert (Ei : (3 <=? i)%nat = false) by (apply Nat.leb_gt; lia).
  assert (Ej : (3 <=? j)%nat = false) by (apply Nat.leb_gt; lia).
  rewrite get_slice_assign. rewrite Ei. cbn [andb].
  rewrite get_slice_assign. rewrite Ej. rewrite ?andb_false_r. cbn [andb].
  rewrite get_slice_assign.
  rewrite (proj1 HP), (shape_row n n P i HP ltac:(lia)).
  replace ((0 <=? i)%nat && (i <? 3)%nat && ((0 <=? j)%nat && (j <? 3)%nat)
           && ((i <? n)%nat && (j <? n)%nat)) with true.
  2:{ symmetry. rewrite !andb_true_iff, !Nat.leb_le, !Nat.ltb_lt. lia. }
  rewrite !Nat.sub_0_r. rewrite (lead3_spec n P HP Hn). reflexivity.
Qed.

(** The pose-map block written by [predict]. *)
Lemma predict_cov_cross_entry (i j : nat) :
  (i < 3)%nat -> (3 <= j < n)%nat ->
  np.get (predict_cov self F G P) i j =
  np.get F i 0 * np.get P 0 j + np.get F i 1 * np.get P 1 j + np.get F i 2 * np.get P 2 j.
Proof.
  intros Hi Hj. unfold predict_cov. cbv zeta.
  set (P1 := np.slice_assign 0 3 0 3 _ P).
  assert (HP1 : shape n n P1) by (unfold P1; now apply shape_slice_assign).
  assert (Ei : (3 <=? i)%nat = false) by (apply Nat.leb_gt; lia).
  rewrite get_slice_assign. rewrite Ei. cbn [andb].
  rewrite get_slice_assign.
  rewrite (ncols_shape n n P1 HP1 ltac:(lia)).
  rewrite (proj1 HP1), (shape_row n n P1 i HP1 ltac:(lia)).
  replace ((0 <=? i)%nat && (i <? 3)%nat && ((3 <=? j)%nat && (j <? n)%nat)
           && ((i <? n)%nat && (j <? n)%nat)) with true.
  2:{ symmetry. rewrite !andb_true_iff, !Nat.leb_le, !Nat.ltb_lt. lia. }
  rewrite Nat.sub_0_r.
  assert (Hcol : np.ncols (np.cols_from 3 (firstn 3 P1)) = (n - 3)%nat).
  { rewrite (firstn_3 P1 []) by (rewrite (proj1 HP1); lia).
    unfold np.cols_from, np.ncols. cbn [map]. rewrite length_skipn.
    now rewrite (shape_row n n P1 0 HP1 ltac:(lia)). }
  rewrite get_mmul by (rewrite ?Hcol; simpl; lia).
  rewrite (firstn_3 P1 []) by (rewrite (proj1 HP1); lia).
  unfold np.col, np.cols_from. cbn [map]. rewrite !nth_skipn.
  replace (3 + (j - 3))%nat with j by lia.
  assert (E1 : forall k, nth j (nth k P1 []) 0 = np.get P k j).
  { intro k. change (nth j (nth k P1 []) 0) with (np.get P1 k j).
    unfold P1. rewrite get_slice_assign.
    replace (j <? 3)%nat with false by (symmetry; apply Nat.ltb_ge; lia).
    rewrite ?andb_false_r. reflexivity. }
  rewrite !E1.
  destruct i as [|[|[|i]]]; try lia; unfold F, np.get; cbn [nth np.dot]; ring.
Qed.

End PredictCov.

Lemma fsum_lower (A B C D X : nat -> R) (x0 x1 x2 : R) (m : nat) :
  fsum (fun i => X i * (A i * x0 + (B i * x1 + (C i * x2 + D i)))) m
  = x0 * fsum (fun i => A i * X i) m + x1 * fsum (fun i => B i * X i) m
    + x2 * fsum (fun i => C i * X i) m + fsum (fun i => X i * D i) m.
Proof.
  rewrite <- !fsum_scal, <- !fsum_plus. apply fsum_ext. intros. ring.
Qed.

(** A double sum over 3 + m indices, split into its four blocks. *)
Lemma quad_blocks (M : nat -> nat -> R) (x0 x1 x2 : R) (X : vec) (m : nat) :
  fsum (fun i => nth i (x0 :: x1 :: x2 :: X) 0 *
                 fsum (fun j => M i j * nth j (x0 :: x1 :: x2 :: X) 0) (3 + m)) (3 + m)
  = (x0 * (M 0%nat 0%nat * x0 + M 0%nat 1%nat * x1 + M 0%nat 2%nat * x2)
     + x1 * (M 1%nat 0%nat * x0 + M 1%nat 1%nat * x1 + M 1%nat 2%nat * x2)
     + x2 * (M 2%nat 0%nat * x0 + M 2%nat 1%nat * x1 + M 2%nat 2%nat * x2))
    + (x0 * fsum (fun j => M 0%nat (3 + j)%nat * nth j X 0) m
       + x1 * fsum (fun j => M 1%nat (3 + j)%nat * nth j X 0) m
       + x2 * fsum (fun j => M 2%nat (3 + j)%nat * nth j X 0) m)
    + (x0 * fsum (fun i => M (3 + i)%nat 0%nat * nth i X 0) m
       + x1 * fsum (fun i => M (3 + i)%nat 1%nat * nth i X 0) m
       + x2 * fsum (fun i => M (3 + i)%nat 2%nat * nth i X 0) m)
    + fsum (fun i => nth i X 0 *
                     fsum (fun j => M (3 + i)%nat (3 + j)%nat * nth j X 0) m) m.
Proof.
  cbn [fsum Nat.add nth].
  rewrite (fsum_lower (fun i => M (S (S (S i))) 0%nat) (fun i => M (S (S (S i))) 1%nat)
             (fun i => M (S (S (S i))) 2%nat)
             (fun i => fsum (fun j => M (S (S (S i))) (S (S (S j))) * nth j X 0) m)
             (fun i => nth i X 0)).
  ring.
Qed.

Lemma fsum_lin3 (a b c : R) (u v w X : nat -> R) (m : nat) :
  fsum (fun j => (a * u j + b * v j + c * w j) * X j) m
  = a * fsum (fun j => u j * X j) m + b * fsum (fun j => v j * X j) m
    + c * fsum (fun j => w j * X j) m.
Proof.
  rewrite <- !fsum_scal, <- !fsum_plus. apply fsum_ext. intros. ring.
Qed.

Section PredictQuad.

Variable self : EKFSLAM.
Variables f00 f01 f02 f10 f11 f12 f20 f21 f22 : R.
Variables g00 g01 g02 g10 g11 g12 g20 g21 g22 : R.
Variables q00 q01 q02 q10 q11 q12 q20 q21 q22 : R.
Variable P : mat.
Variable m : nat.
Hypothesis HP : shape (3 + m) (3 + m) P.
Hypothesis HQ : self_Q self = [[q00; q01; q02]; [q10; q11; q12]; [q20; q21; q22]].
Hypothesis Hsym : symmetric P.

Let F : mat := [[f00; f01; f02]; [f10; f11; f12]; [f20; f21; f22]].
Let G : mat := [[g00; g01; g02]; [g10; g11; g12]; [g20; g21; g22]].
Let P' : mat := predict_cov self F G P.

(** The part of row [k] of the pose-map block of [P] seen by the landmark
    entries [X]. *)
Let c (X : vec) (k : nat) : R := fsum (fun j => np.get P k (3 + j) * nth j X 0) m.

Lemma cross_sum_upper (X : vec) (i : nat) :
  (i < 3)%nat ->
  fsum (fun j => np.get P' i (3 + j) * nth j X 0) m
  = np.get F i 0 * c X 0 + np.get F i 1 * c X 1 + np.get F i 2 * c X 2.
Proof.
  intro Hi. unfold c.
  rewrite <- (fsum_lin3 _ _ _ (fun j => np.get P 0 (3 + j)) (fun j => np.get P 1 (3 + j))
                (fun j => np.get P 2 (3 + j)) (fun j => nth j X 0)).
  apply fsum_ext. intros j Hj. f_equal.
  apply (predict_cov_cross_entry self f00 f01 f02 f10 f11 f12 f20 f21 f22
           g00 g01 g02 g10 g11 g12 g20 g21 g22 P (3 + m) HP); lia.
Qed.

Lemma cross_sum_lower (X : vec) (k : nat) :
  (k < 3)%nat ->
  fsum (fun i => np.get P' (3 + i) k * nth i X 0) m
  = np.get F k 0 * c X 0 + np.get F k 1 * c X 1 + np.get F k 2 * c X 2.
Proof.
  intro Hk. rewrite <- cross_sum_upper by exact Hk.
  apply fsum_ext. intros i Hi. f_equal.
  apply (predict_cov_cross self F G P (3 + m)); [exact HP | exact Hk | lia].
Qed.

Lemma cross_sum_sym (X : vec) (k : nat) :
  fsum (fun i => np.get P (3 + i) k * nth i X 0) m = c X k.
Proof.
  unfold c. apply fsum_ext. intros i Hi. f_equal. apply Hsym.
Qed.

Lemma map_sum (X : vec) :
  fsum (fun i => nth i X 0 * fsum (fun j => np.get P' (3 + i) (3 + j) * nth j X 0) m) m
  = fsum (fun i => nth i X 0 * fsum (fun j => np.get P (3 + i) (3 + j) * nth j X 0) m) m.
Proof.
  apply fsum_ext. intros i Hi. f_equal. apply fsum_ext. intros j Hj. f_equal.
  apply predict_cov_map_block; lia.
Qed.

(** The quadratic form of the predicted covariance: the form of [P] at
    [F.T @ x] (on the pose entries) plus the form of [Q] at [G.T @ x]. *)
Lemma predict_cov_quad (x0 x1 x2 : R) (X : vec) :
  length X = m ->
  np.quad P' (x0 :: x1 :: x2 :: X)
  = np.quad P ((f00 * x0 + f10 * x1 + f20 * x2) :: (f01 * x0 + f11 * x1 + f21 * x2)
               :: (f02 * x0 + f12 * x1 + f22 * x2) :: X)
    + np.quad (self_Q self)
        [g00 * x0 + g10 * x1 + g20 * x2; g01 * x0 + g11 * x1 + g21 * x2;
         g02 * x0 + g12 * x1 + g22 * x2].
Proof.
  intro HX.
  assert (HP' : shape (3 + m) (3 + m) P') by (now apply predict_cov_shape).
  rewrite (quad_fsum (3 + m) P') by (simpl; auto; simpl; lia).
  rewrite (quad_fsum (3 + m) P) by (simpl; auto; simpl; lia).
  rewrite (quad_blocks (np.get P')), (quad_blocks (np.get P)).
  rewrite !cross_sum_upper, !cross_sum_lower, !cross_sum_sym, map_sum by lia.
  fold (c X 0%nat) (c X 1%nat) (c X 2%nat).
  unfold P'.
  rewrite !(predict_cov_pose_entry self f00 f01 f02 f10 f11 f12 f20 f21 f22
              g00 g01 g02 g10 g11 g12 g20 g21 g22 P (3 + m) HP ltac:(lia)) by lia.
  rewrite HQ. unfold lead3, F, G. cbn [map].
  set (c0 := c X 0%nat). set (c1 := c X 1%nat). set (c2 := c X 2%nat).
  set (D := fsum _ m).
  set (p00 := np.get P 0 0). set (p01 := np.get P 0 1). set (p02 := np.get P 0 2).
  set (p10 := np.get P 1 0). set (p11 := np.get P 1 1). set (p12 := np.get P 1 2).
  set (p20 := np.get P 2 0). set (p21 := np.get P 2 1). set (p22 := np.get P 2 2).
  np_eval. ring.
Qed.

End PredictQuad.

Lemma shape_3_3 (M : mat) :
  shape 3 3 M ->
  exists a00 a01 a02 a10 a11 a12 a20 a21 a22 : R,
    M = [[a00; a01; a02]; [a10; a11; a12]; [a20; a21; a22]].
Proof.
  intros [Hr Hc].
  destruct M as [|r0 [|r1 [|r2 [|? ?]]]]; try discriminate Hr.
  inversion Hc as [|? ? H0 Hc1]; subst. inversion Hc1 as [|? ? H1 Hc2]; subst.
  inversion Hc2 as [|? ? H2 _]; subst.
  destruct r0 as [|? [|? [|? [|? ?]]]]; try discriminate H0.
  destruct r1 as [|? [|? [|? [|? ?]]]]; try discriminate H1.
  destruct r2 as [|? [|? [|? [|? ?]]]]; try discriminate H2.
  repeat eexists.
Qed.

(** What [Fx] and [Fu] return. *)
Lemma Fx_form (self : EKFSLAM) (x u : vec) :
  exists a b : R, Fx self x u = Ok [[1; 0; a]; [0; 1; b]; [0; 0; 1]].
Proof.
  unfold Fx. eexists. eexists.
  cbv [np.slice_assign np.eye np.eye2 np.mapi np.mapi_from map seq Nat.leb Nat.ltb
       Nat.eqb Nat.sub andb np.has_shape length forallb assertb bind].
  reflexivity.
Qed.

Lemma Fu_form (self : EKFSLAM) (x u : vec) : exists G : mat, Fu self x u = Ok G /\ shape 3 3 G.
Proof.
  unfold Fu. eexists.
  cbv [np.slice_assign np.eye np.eye2 np.mapi np.mapi_from map seq Nat.leb Nat.ltb
       Nat.eqb Nat.sub andb np.has_shape length forallb assertb bind].
  split; [reflexivity|]. apply has_shape_spec. reflexivity.
Qed.

Section PredictExact.

Variable self : EKFSLAM.
Variable P : mat.
Variable m : nat.
Hypothesis HP : shape (3 + m) (3 + m) P.
Hypothesis HQ : shape 3 3 (self_Q self).
Hypothesis Hsym : symmetric P.

(** [predict] keeps an exactly symmetric covariance exactly symmetric, when
    the process noise [Q] is symmetric. *)
Lemma predict_cov_symmetric (F G : mat) :
  shape 3 3 F -> shape 3 3 G -> symmetric (self_Q self) ->
  symmetric (predict_cov self F G P).
Proof.
  intros HF HG HsymQ.
  destruct (shape_3_3 F HF) as (f00 & f01 & f02 & f10 & f11 & f12 & f20 & f21 & f22 & ->).
  destruct (shape_3_3 G HG) as (g00 & g01 & g02 & g10 & g11 & g12 & g20 & g21 & g22 & ->).
  destruct (shape_3_3 _ HQ) as (q00 & q01 & q02 & q10 & q11 & q12 & q20 & q21 & q22 & EQ).
  intros i j.
  destruct (Nat.lt_ge_cases i 3) as [Hi|Hi]; destruct (Nat.lt_ge_cases j 3) as [Hj|Hj].
  - rewrite !(predict_cov_pose_entry self _ _ _ _ _ _ _ _ _ _ _ _ _ _ _ _ _ _ P (3 + m) HP
                ltac:(lia)) by lia.
    pose proof (HsymQ 0%nat 1%nat) as Q01. pose proof (HsymQ 0%nat 2%nat) as Q02.
    pose proof (HsymQ 1%nat 2%nat) as Q12. rewrite EQ in Q01, Q02, Q12 |- *.
    cbv [np.get nth] in Q01, Q02, Q12.
    pose proof (Hsym 0%nat 1%nat) as P01. pose proof (Hsym 0%nat 2%nat) as P02.
    pose proof (Hsym 1%nat 2%nat) as P12.
    unfold lead3. cbn [map].
    set (p00 := np.get P 0 0) in *. set (p01 := np.get P 0 1) in *.
    set (p02 := np.get P 0 2) in *. set (p10 := np.get P 1 0) in *.
    set (p11 := np.get P 1 1) in *. set (p12 := np.get P 1 2) in *.
    set (p20 := np.get P 2 0) in *. set (p21 := np.get P 2 1) in *.
    set (p22 := np.get P 2 2) in *.
    rewrite <- Q01, <- Q02, <- Q12.
    destruct i as [|[|[|i]]]; try lia; destruct j as [|[|[|j]]]; try lia;
      np_eval; rewrite <- ?P01, <- ?P02, <- ?P12; ring.
  - symmetry. now apply (predict_cov_cross self _ _ P (3 + m)).
  - now apply (predict_cov_cross self _ _ P (3 + m)).
  - rewrite !predict_cov_map_block by lia. apply Hsym.
Qed.

(** [predict] keeps the covariance positive semi-definite, when [Q] is. *)
Lemma predict_cov_ge0 (F G : mat) :
  shape 3 3 F -> shape 3 3 G ->
  np.eigvals_all_ge0 P -> np.eigvals_all_ge0 (self_Q self) ->
  np.eigvals_all_ge0 (predict_cov self F G P).
Proof.
  intros HF HG HPpsd HQpsd.
  destruct (shape_3_3 F HF) as (f00 & f01 & f02 & f10 & f11 & f12 & f20 & f21 & f22 & ->).
  destruct (shape_3_3 G HG) as (g00 & g01 & g02 & g10 & g11 & g12 & g20 & g21 & g22 & ->).
  destruct (shape_3_3 _ HQ) as (q00 & q01 & q02 & q10 & q11 & q12 & q20 & q21 & q22 & EQ).
  intros x Hx. unfold np.nrows in Hx.
  rewrite (proj1 (predict_cov_shape self _ _ P _ _ HP)) in Hx.
  destruct x as [|x0 [|x1 [|x2 X]]]; try (simpl in Hx; lia).
  rewrite (predict_cov_quad self _ _ _ _ _ _ _ _ _ _ _ _ _ _ _ _ _ _ _ _ _ _ _ _ _ _ _
             P m HP EQ Hsym) by (simpl in Hx; lia).
  apply Rplus_le_le_0_compat.
  - apply HPpsd. unfold np.nrows. rewrite (proj1 HP). simpl in *. lia.
  - apply HQpsd. rewrite EQ. reflexivity.
Qed.

(** [predict] makes a positive definite covariance positive definite again:
    the Jacobian [Fx] is invertible. *)
Lemma predict_cov_gt0 (a b : R) (G : mat) :
  shape 3 3 G ->
  np.eigvals_all_gt0 P -> np.eigvals_all_ge0 (self_Q self) ->
  np.eigvals_all_gt0 (predict_cov self [[1; 0; a]; [0; 1; b]; [0; 0; 1]] G P).
Proof.
  intros HG HPpd HQpsd.
  destruct (shape_3_3 G HG) as (g00 & g01 & g02 & g10 & g11 & g12 & g20 & g21 & g22 & ->).
  destruct (shape_3_3 _ HQ) as (q00 & q01 & q02 & q10 & q11 & q12 & q20 & q21 & q22 & EQ).
  intros x Hx Hnz. unfold np.nrows in Hx, Hnz.
  rewrite (proj1 (predict_cov_shape self _ _ P _ _ HP)) in Hx, Hnz.
  destruct x as [|x0 [|x1 [|x2 X]]]; try (simpl in Hx; lia).
  rewrite (predict_cov_quad self _ _ _ _ _ _ _ _ _ _ _ _ _ _ _ _ _ _ _ _ _ _ _ _ _ _ _
             P m HP EQ Hsym) by (simpl in Hx; lia).
  apply Rplus_lt_le_0_compat.
  - apply HPpd.
    + unfold np.nrows. rewrite (proj1 HP). simpl in *. lia.
    + unfold np.nrows. rewrite (proj1 HP). intro Ey. apply Hnz.
      cbn [np.zeros repeat Nat.add] in Ey |- *.
      injection Ey as E0 E1 E2 EX.
      assert (x0 = 0) by lra. assert (x1 = 0) by lra. subst x0 x1.
      assert (x2 = 0) by lra. subst x2. now rewrite EX.
  - apply HQpsd. rewrite EQ. reflexivity.
Qed.

End PredictExact.

(** An exactly symmetric square array passes the symmetry test of the
    source. *)
Lemma symmetric_allclose (n : nat) (M : mat) :
  shape n n M -> symmetric M -> np.allclose M (np.transpose M).
Proof.
  intros HM Hsym i j.
  destruct (Nat.lt_ge_cases i (np.ncols M)) as [Hi|Hi].
  - rewrite get_transpose by exact Hi. rewrite (Hsym i j). apply isclose_refl.
  - rewrite (get_overflow_row (np.transpose M)) by (now rewrite length_transpose).
    rewrite get_overflow_row; [apply isclose_refl|].
    destruct HM as [Hr Hc]. destruct M as [|row M]; [simpl; lia|].
    simpl in Hi, Hr |- *. inversion Hc; subst. lia.
Qed.

Lemma f_returns (self : EKFSLAM) (x u : vec) :
  (2 <= length x)%nat -> exists x_pred, f self x u = Ok x_pred.
Proof.
  intro Hx. unfold f.
  set (x_pred := _ ++ _).
  assert (Hl : length x_pred = 3%nat).
  { unfold x_pred. rewrite length_app. unfold np.vadd. rewrite length_map2.
    unfold np.slice, np.mvmul, rotmat2d. rewrite length_firstn, length_skipn.
    cbn [length map]. lia. }
  rewrite Hl. cbn [Nat.eqb assertb bind]. now exists x_pred.
Qed.

(** [predict] in exact arithmetic, on a state with [m] landmarks whose
    covariance is exactly symmetric and positive definite, for a symmetric
    positive semi-definite process noise: the call returns. *)
Lemma predict_returns (self : EKFSLAM) (eta : vec) (P : mat) (z_odo : vec) (m : nat) :
  length eta = (3 + m)%nat -> shape (3 + m) (3 + m) P ->
  symmetric P -> np.eigvals_all_gt0 P ->
  shape 3 3 (self_Q self) -> symmetric (self_Q self) -> np.eigvals_all_ge0 (self_Q self) ->
  exists eta' P', predict self eta P z_odo = Ok (eta', P').
Proof.
  intros Heta HP Hsym Hpd HQ HsymQ HpsdQ.
  unfold predict.
  rewrite (assert_holds _ (symmetric_allclose _ P HP Hsym)).
  rewrite (assert_holds _ (gt0_ge0 P Hpd)).
  rewrite Heta. rewrite (proj2 (has_shape_spec _ _ P) HP). cbn [assertb bind].
  destruct (f_returns self (firstn 3 eta) z_odo) as [x_pred Ef].
  { rewrite length_firstn. lia. }
  destruct (f_heading_wrapped _ _ _ _ Ef) as [_ Hl].
  destruct (Fx_form self (firstn 3 eta) z_odo) as (a & b & EFx).
  destruct (Fu_form self (firstn 3 eta) z_odo) as (G & EFu & HG).
  rewrite Ef, EFx, EFu. cbn [bind].
  assert (HF : shape 3 3 [[1; 0; a]; [0; 1; b]; [0; 0; 1]])
    by (apply has_shape_spec; reflexivity).
  pose proof (predict_cov_shape self [[1; 0; a]; [0; 1; b]; [0; 0; 1]] G P _ _ HP) as HP'.
  rewrite (assert_holds _ (symmetric_allclose _ _ HP'
             (predict_cov_symmetric self P m HP HQ Hsym _ G HF HG HsymQ))).
  rewrite (assert_holds _ (predict_cov_gt0 self P m HP HQ Hsym a b G HG Hpd HpsdQ)).
  replace (length (x_pred ++ skipn 3 eta)) with (3 + m)%nat
    by (rewrite length_app, length_skipn; lia).
  rewrite (proj2 (has_shape_spec _ _ _) HP'). cbn [assertb bind].
  eexists. eexists. reflexivity.
Qed.

(** What [predict] returns is exactly symmetric when its input and the
    process noise are. *)
Lemma predict_symmetric (self : EKFSLAM) (eta : vec) (P : mat) (z_odo : vec)
  (eta' : vec) (P' : mat) :
  predict self eta P z_odo = Ok (eta', P') ->
  symmetric P -> shape 3 3 (self_Q self) -> symmetric (self_Q self) ->
  symmetric P'.
Proof.
  intros E Hsym HQ HsymQ.
  destruct (predict_dimensions self eta P z_odo eta' P' E) as [Hlen _].
  unfold predict in E.
  do 2 bind_inv E. bind_named E u1 Hshape. bind_named E x_pred Ef.
  bind_named E Fx_ EFx. bind_named E Fu_ EFu.
  do 3 bind_inv E. injection E as E1 <-.
  apply assertb_Ok, has_shape_spec in Hshape.
  destruct (f_heading_wrapped _ _ _ _ Ef) as [_ Hl].
  assert (H3 : (3 <= length eta)%nat).
  { rewrite <- Hlen, <- E1, length_app. lia. }
  destruct (Fx_form self (firstn 3 eta) z_odo) as (fa & fb & EFx').
  destruct (Fu_form self (firstn 3 eta) z_odo) as (G & EFu' & HG).
  rewrite EFx in EFx'. injection EFx' as ->.
  rewrite EFu in EFu'. injection EFu' as ->.
  replace (length eta) with (3 + (length eta - 3))%nat in Hshape by lia.
  apply (predict_cov_symmetric self P (length eta - 3) Hshape HQ Hsym); try assumption.
  apply has_shape_spec. reflexivity.
Qed.

(** ** The covariance invariant *)


(** *** The third example scenario of the spec as a call of [update]: no
    landmark yet, one detection at range 1 and bearing 0. *)




(** A positive semi-definite covariance that is singular on the map is a
    valid input, but the prediction is then not positive definite and the
    assertion before the return fails: [predict] raises. *)
Lemma predict_singular_raises :
  predict slam0 [0; 0; 0; 2; 0] (np.zeros2 5 5) [1; 0; 0] = Raise AssertionError.
Proof.
  unfold predict.
  rewrite (assert_holds _ (allclose_symmetric (np.zeros2 5 5) eq_refl)).
  rewrite assert_holds.
  2:{ intros x Hx.
      destruct x as [|a [|b [|c [|d [|e [|? ?]]]]]]; try discriminate Hx.
      np_eval. lra. }
  cbn [firstn skipn bind length].
  change (np.has_shape 5 5 (np.zeros2 5 5)) with true. cbn [assertb bind].
  rewrite f_example, Fx_example, Fu_example. cbn [bind].
  assert (Ecov : predict_cov slam0 [[1; 0; 0]; [0; 1; 1]; [0; 0; 1]] (np.eye 3) (np.zeros2 5 5)
                 = [[1; 0; 0; 0; 0]; [0; 1; 0; 0; 0]; [0; 0; 1; 0; 0];
                    [0; 0; 0; 0; 0]; [0; 0; 0; 0; 0]]).
  { unfold slam0. np_eval. list_eq; lra. }
  rewrite Ecov.
  rewrite (assert_holds _ (allclose_symmetric _ eq_refl)).
  rewrite assert_fails; [reflexivity|].
  intro Hpd. specialize (Hpd [0; 0; 0; 1; 0] eq_refl).
  assert (Hnz : [0; 0; 0; 1; 0] <> np.zeros 5).
  { intro E. injection E as E. lra. }
  specialize (Hpd Hnz). revert Hpd. np_eval. lra.
Qed.

(** * Further properties of the estimator *)

(** ** Angles modulo a full turn *)

Lemma wrapToPi_form (a : R) : exists k : Z, wrapToPi a = a + 2 * PI * IZR k.
Proof.
  exists (- (1 - up (- ((a - PI) / (2 * PI)))))%Z.
  unfold wrapToPi. rewrite opp_IZR. ring.
Qed.

Lemma wrapped_unique (a b : R) (k : Z) :
  wrapped a -> wrapped b -> a = b + 2 * PI * IZR k -> a = b.
Proof.
  unfold wrapped. intros Ha Hb E.
  assert (Hpi : 0 < PI) by apply PI_RGT_0.
  assert (Hk : (k = 0)%Z).
  { assert (H1 : (-1 < k)%Z) by (apply lt_IZR; simpl; nra).
    assert (H2 : (k < 1)%Z) by (apply lt_IZR; simpl; nra).
    lia. }
  subst k. simpl in E. lra.
Qed.

Lemma wrapToPi_shift (a : R) (k : Z) : wrapToPi (a + 2 * PI * IZR k) = wrapToPi a.
Proof.
  destruct (wrapToPi_form (a + 2 * PI * IZR k)) as [k1 E1].
  destruct (wrapToPi_form a) as [k2 E2].
  apply (wrapped_unique _ _ (k + k1 - k2)); try apply wrapToPi_wrapped.
  rewrite E1, E2, minus_IZR, plus_IZR. ring.
Qed.

Lemma wrapToPi_add (a b : R) : wrapToPi (wrapToPi a + b) = wrapToPi (a + b).
Proof.
  destruct (wrapToPi_form a) as [k E]. rewrite E.
  replace (a + 2 * PI * IZR k + b) with (a + b + 2 * PI * IZR k) by ring.
  apply wrapToPi_shift.
Qed.

Lemma cos_sin_turns (a : R) (k : Z) :
  cos (a + 2 * PI * IZR k) = cos a /\ sin (a + 2 * PI * IZR k) = sin a.
Proof.
  destruct (Z_le_gt_dec 0 k) as [Hk|Hk].
  - rewrite <- (Z2Nat.id k Hk), <- INR_IZR_INZ.
    replace (a + 2 * PI * INR (Z.to_nat k)) with (a + 2 * INR (Z.to_nat k) * PI) by ring.
    split; [apply cos_period | apply sin_period].
  - set (n := Z.to_nat (- k)).
    assert (En : IZR k = - INR n).
    { unfold n. rewrite INR_IZR_INZ, Z2Nat.id by lia. rewrite opp_IZR. ring. }
    rewrite En.
    rewrite <- (cos_period (a + 2 * PI * - INR n) n), <- (sin_period (a + 2 * PI * - INR n) n).
    replace (a + 2 * PI * - INR n + 2 * INR n * PI) with a by ring.
    split; reflexivity.
Qed.

Lemma cos_wrapToPi (a : R) : cos (wrapToPi a) = cos a.
Proof. destruct (wrapToPi_form a) as [k ->]. apply cos_sin_turns. Qed.

Lemma sin_wrapToPi (a : R) : sin (wrapToPi a) = sin a.
Proof. destruct (wrapToPi_form a) as [k ->]. apply cos_sin_turns. Qed.

(** ** The motion model *)

Lemma f_pose (self : EKFSLAM) (x0 x1 x2 u0 u1 u2 : R) :
  f self [x0; x1; x2] [u0; u1; u2]
  = Ok [x0 + (cos x2 * u0 + (- sin x2 * u1 + 0));
        x1 + (sin x2 * u0 + (cos x2 * u1 + 0));
        wrapToPi (x2 + u2)].
Proof. reflexivity. Qed.

Ltac three x Hx :=
  let a := fresh x "0" in let b := fresh x "1" in let c := fresh x "2" in
  destruct x as [|a [|b [|c [|? ?]]]]; try discriminate Hx; clear Hx.

(** X1: two odometry steps applied one after the other give the pose of a
    single step with the composed odometry. *)
Theorem f_compose (self : EKFSLAM) (x u v x1 x2 : vec) :
  length x = 3%nat -> length u = 3%nat -> length v = 3%nat ->
  f self x u = Ok x1 -> f self x1 v = Ok x2 ->
  f self x (compose_odometry u v) = Ok x2.
Proof.
  intros Hx Hu Hv E1 E2. three x Hx. three u Hu. three v Hv.
  rewrite f_pose in E1. injection E1 as <-.
  rewrite f_pose in E2. injection E2 as <-.
  unfold compose_odometry. np_eval.
  rewrite cos_wrapToPi, sin_wrapToPi, wrapToPi_add, cos_plus, sin_plus.
  f_equal. list_eq; try ring. f_equal. ring.
Qed.

Lemma f_compose_witness :
  f slam0 [0; 0; 0] (compose_odometry [1; 0; 0] [0; 0; 0]) = Ok [1; 0; 0].
Proof.
  apply (f_compose slam0 [0; 0; 0] [1; 0; 0] [0; 0; 0] [1; 0; 0] [1; 0; 0]);
    try reflexivity.
  - exact f_example.
  - np_eval. trig0. replace (0 + 0) with 0 by lra.
    rewrite (wrapToPi_id 0 wrapped_0). f_equal. list_eq; lra.
Defined.

(** X2: the robot moves by the length of the odometry translation: the
    distance between the predicted and the previous position is the norm
    of [u[:2]], whatever the heading. *)
Theorem f_displacement (self : EKFSLAM) (x u x' : vec) :
  length x = 3%nat -> length u = 3%nat ->
  f self x u = Ok x' ->
  np.norm (np.vsub (firstn 2 x') (firstn 2 x)) = np.norm (firstn 2 u).
Proof.
  intros Hx Hu E. three x Hx. three u Hu.
  rewrite f_pose in E. injection E as <-.
  unfold np.norm. f_equal. np_eval.
  pose proof (sin2_cos2 x2) as Hsc. unfold Rsqr in Hsc.
  replace (u0 * u0 + (u1 * u1 + 0)) with ((sin x2 * sin x2 + cos x2 * cos x2) * (u0 * u0 + u1 * u1))
    by (rewrite Hsc; ring).
  ring.
Qed.

Lemma f_displacement_witness :
  np.norm (np.vsub (firstn 2 [1; 0; 0]) (firstn 2 [0; 0; 0])) = np.norm (firstn 2 [1; 0; 0]).
Proof.
  apply (f_displacement slam0 [0; 0; 0] [1; 0; 0] [1; 0; 0]); try reflexivity.
  exact f_example.
Defined.

(** ** The Jacobians of the motion model *)

Lemma dlim_ext (g1 g2 : R -> R) (x l : R) :
  (forall t, g1 t = g2 t) -> derivable_pt_lim g1 x l -> derivable_pt_lim g2 x l.
Proof.
  intros Hg Hd eps Heps. destruct (Hd eps Heps) as [delta Hdelta].
  exists delta. intros h Hh Hlt. rewrite <- !Hg. now apply Hdelta.
Qed.

Lemma dlim_const (c x : R) : derivable_pt_lim (fun _ => c) x 0.
Proof. apply (derivable_pt_lim_const c x). Qed.

Lemma dlim_affine (a b x : R) : derivable_pt_lim (fun t => a + b * t) x b.
Proof.
  pose proof (derivable_pt_lim_plus (fct_cte a) (mult_real_fct b id) x 0 (b * 1)
                (derivable_pt_lim_const a x)
                (derivable_pt_lim_scal id b x 1 (derivable_pt_lim_id x))) as Hd.
  replace (0 + b * 1) with b in Hd by ring. exact Hd.
Qed.

Lemma dlim_trig (a b c x : R) :
  derivable_pt_lim (fun t => a + (cos t * b + sin t * c)) x (- sin x * b + cos x * c).
Proof.
  pose proof (derivable_pt_lim_plus (fct_cte a)
                (fun t => cos t * b + sin t * c) x 0 (- sin x * b + cos x * c)
                (derivable_pt_lim_const a x)
                (derivable_pt_lim_plus (fun t => cos t * b) (fun t => sin t * c) x _ _
                   (derivable_pt_lim_scal_right cos x _ b (derivable_pt_lim_cos x))
                   (derivable_pt_lim_scal_right sin x _ c (derivable_pt_lim_sin x)))) as Hd.
  replace (0 + (- sin x * b + cos x * c)) with (- sin x * b + cos x * c) in Hd by ring.
  exact Hd.
Qed.

Lemma cos_sin_quarter (a : R) : cos (a + PI / 2) = - sin a /\ sin (a + PI / 2) = cos a.
Proof. rewrite cos_plus, sin_plus, cos_PI2, sin_PI2. split; ring. Qed.

Lemma Fx_matrix (self : EKFSLAM) (x0 x1 x2 u0 u1 u2 : R) :
  Fx self [x0; x1; x2] [u0; u1; u2]
  = Ok [[1; 0; cos (x2 + PI / 2) * u0 + (- sin (x2 + PI / 2) * u1 + 0)];
        [0; 1; sin (x2 + PI / 2) * u0 + (cos (x2 + PI / 2) * u1 + 0)];
        [0; 0; 1]].
Proof. reflexivity. Qed.

Lemma Fu_matrix (self : EKFSLAM) (x0 x1 x2 u0 u1 u2 : R) :
  Fu self [x0; x1; x2] [u0; u1; u2]
  = Ok [[cos x2; - sin x2; 0]; [sin x2; cos x2; 0]; [0; 0; 1]].
Proof. reflexivity. Qed.

(** X3: [Fx] is the Jacobian of [f] with respect to the pose, on the two
    position rows: entry (i, j) is the derivative of component [i] of the
    predicted pose with respect to component [j] of the pose. *)
Theorem Fx_jacobian (self : EKFSLAM) (x u : vec) (J : mat) (i j : nat) :
  length x = 3%nat -> length u = 3%nat -> (i < 2)%nat -> (j < 3)%nat ->
  Fx self x u = Ok J ->
  derivable_pt_lim (fun t => f_component self i (with_entry j t x) u)
                   (np.vget x j) (np.get J i j).
Proof.
  intros Hx Hu Hi Hj E. three x Hx. three u Hu.
  rewrite Fx_matrix in E. injection E as <-.
  destruct (cos_sin_quarter x2) as [-> ->].
  destruct i as [|[|i]]; [| |lia]; destruct j as [|[|[|j]]]; try lia;
    unfold f_component, with_entry; cbn [np.vslice_assign np.mapi np.mapi_from
      Nat.leb Nat.ltb andb np.vget nth Nat.sub np.get]; cbv beta iota;
    simpl Nat.leb; cbv iota.
  all: rewrite ?f_pose; cbn [np.vget nth].
  - eapply dlim_ext; [|apply (dlim_affine (cos x2 * u0 + (- sin x2 * u1 + 0)) 1)].
    intro t. rewrite f_pose. cbn [np.vget nth]. ring.
  - eapply dlim_ext; [|apply (dlim_const (x0 + (cos x2 * u0 + (- sin x2 * u1 + 0))))].
    intro t. rewrite f_pose. reflexivity.
  - eapply dlim_ext; [|replace (- sin x2 * u0 + (- cos x2 * u1 + 0))
                         with (- sin x2 * u0 + cos x2 * (- u1)) by ring;
                       apply (dlim_trig x0 u0 (- u1))].
    intro t. rewrite f_pose. cbn [np.vget nth]. ring.
  - eapply dlim_ext; [|apply (dlim_const (x1 + (sin x2 * u0 + (cos x2 * u1 + 0))))].
    intro t. rewrite f_pose. reflexivity.
  - eapply dlim_ext; [|apply (dlim_affine (sin x2 * u0 + (cos x2 * u1 + 0)) 1)].
    intro t. rewrite f_pose. cbn [np.vget nth]. ring.
  - eapply dlim_ext; [|replace (cos x2 * u0 + (- sin x2 * u1 + 0))
                         with (- sin x2 * u1 + cos x2 * u0) by ring;
                       apply (dlim_trig x1 u1 u0)].
    intro t. rewrite f_pose. cbn [np.vget nth]. ring.
Qed.

Lemma Fx_jacobian_witness :
  derivable_pt_lim (fun t => f_component slam0 1 (with_entry 2 t [0; 0; 0]) [1; 0; 0])
                   (np.vget [0; 0; 0] 2)
                   (np.get [[1; 0; 0]; [0; 1; 1]; [0; 0; 1]] 1 2).
Proof.
  apply (Fx_jacobian slam0 [0; 0; 0] [1; 0; 0]); try reflexivity; try lia.
  exact Fx_example.
Defined.

(** X4: [Fu] is the Jacobian of [f] with respect to the odometry, on the
    two position rows. *)
Theorem Fu_jacobian (self : EKFSLAM) (x u : vec) (J : mat) (i j : nat) :
  length x = 3%nat -> length u = 3%nat -> (i < 2)%nat -> (j < 3)%nat ->
  Fu self x u = Ok J ->
  derivable_pt_lim (fun t => f_component self i x (with_entry j t u))
                   (np.vget u j) (np.get J i j).
Proof.
  intros Hx Hu Hi Hj E. three x Hx. three u Hu.
  rewrite Fu_matrix in E. injection E as <-.
  destruct i as [|[|i]]; [| |lia]; destruct j as [|[|[|j]]]; try lia;
    unfold f_component, with_entry; cbn [np.vslice_assign np.mapi np.mapi_from
      Nat.leb Nat.ltb andb np.vget nth Nat.sub np.get]; cbv beta iota;
    simpl Nat.leb; cbv iota.
  - eapply dlim_ext; [|apply (dlim_affine (x0 + (- sin x2 * u1 + 0)) (cos x2))].
    intro t. rewrite f_pose. cbn [np.vget nth]. ring.
  - eapply dlim_ext; [|apply (dlim_affine (x0 + cos x2 * u0) (- sin x2))].
    intro t. rewrite f_pose. cbn [np.vget nth]. ring.
  - eapply dlim_ext; [|apply (dlim_const (x0 + (cos x2 * u0 + (- sin x2 * u1 + 0))))].
    intro t. rewrite f_pose. reflexivity.
  - eapply dlim_ext; [|apply (dlim_affine (x1 + (cos x2 * u1 + 0)) (sin x2))].
    intro t. rewrite f_pose. cbn [np.vget nth]. ring.
  - eapply dlim_ext; [|apply (dlim_affine (x1 + sin x2 * u0) (cos x2))].
    intro t. rewrite f_pose. cbn [np.vget nth]. ring.
  - eapply dlim_ext; [|apply (dlim_const (x1 + (sin x2 * u0 + (cos x2 * u1 + 0))))].
    intro t. rewrite f_pose. reflexivity.
Qed.

Lemma Fu_jacobian_witness :
  derivable_pt_lim (fun t => f_component slam0 0 [0; 0; 0] (with_entry 0 t [1; 0; 0]))
                   (np.vget [1; 0; 0] 0)
                   (np.get (np.eye 3) 0 0).
Proof.
  apply (Fu_jacobian slam0 [0; 0; 0] [1; 0; 0]); try reflexivity; try lia.
  exact Fu_example.
Defined.

(** X5: [Fu] is a rotation about the heading axis: [Fu @ Fu.T] is the
    identity, so the odometry noise [Fu @ Q @ Fu.T] that [predict] adds is
    [Q] rotated into the world frame. *)
Theorem Fu_orthogonal (self : EKFSLAM) (x u : vec) (G : mat) :
  length x = 3%nat -> length u = 3%nat ->
  Fu self x u = Ok G ->
  np.mmul G (np.transpose G) = np.eye 3.
Proof.
  intros Hx Hu E. three x Hx. three u Hu.
  rewrite Fu_matrix in E. injection E as <-.
  pose proof (sin2_cos2 x2) as Hsc. unfold Rsqr in Hsc.
  np_eval. list_eq; try ring.
  - rewrite <- Hsc. ring.
  - rewrite <- Hsc. ring.
Qed.

Lemma Fu_orthogonal_witness :
  np.mmul (np.eye 3) (np.transpose (np.eye 3)) = np.eye 3.
Proof.
  apply (Fu_orthogonal slam0 [0; 0; 0] [1; 0; 0]); try reflexivity.
  exact Fu_example.
Defined.

(** ** What [predict] accepts, and what it writes *)

Lemma symmetric_transpose_eq (M : mat) : np.transpose M = M -> symmetric M.
Proof.
  intros E i j.
  destruct (Nat.lt_ge_cases i (np.ncols M)) as [Hi|Hi].
  - rewrite <- (get_transpose M i j Hi). now rewrite E.
  - destruct (Nat.lt_ge_cases j (np.ncols M)) as [Hj|Hj].
    + rewrite <- (get_transpose M j i Hj). now rewrite E.
    + rewrite <- (length_transpose M), E in Hi, Hj.
      now rewrite !get_overflow_row.
Qed.

Lemma eye5_gt0 : np.eigvals_all_gt0 (np.eye 5).
Proof.
  intros x Hx Hnz.
  destruct x as [|a [|b [|c [|d [|e [|? ?]]]]]]; try discriminate Hx.
  apply nonzero5 in Hnz. np_eval. nra.
Qed.

Lemma eye3_ge0 : np.eigvals_all_ge0 (np.eye 3).
Proof. apply gt0_ge0, eye3_gt0. Qed.

(** X6: in exact arithmetic [predict] returns, with none of its
    assertions failing, whenever the covariance is symmetric positive
    definite of the size of the state and the process noise is a symmetric
    positive semi-definite 3 x 3 array; what it returns is again symmetric
    positive definite. *)
Theorem predict_accepts_positive_definite (self : EKFSLAM) (eta : vec) (P : mat)
  (z_odo : vec) (m : nat) :
  length eta = (3 + m)%nat -> length z_odo = 3%nat ->
  shape (3 + m) (3 + m) P -> symmetric P -> np.eigvals_all_gt0 P ->
  shape 3 3 (self_Q self) -> symmetric (self_Q self) -> np.eigvals_all_ge0 (self_Q self) ->
  exists (eta' : vec) (P' : mat),
    predict self eta P z_odo = Ok (eta', P') /\ symmetric P' /\ np.eigvals_all_gt0 P'.
Proof.
  intros Heta Hz HP Hsym Hpd HQ HsymQ HpsdQ.
  destruct (predict_returns self eta P z_odo m Heta HP Hsym Hpd HQ HsymQ HpsdQ)
    as (eta' & P' & E).
  exists eta', P'. split; [exact E|]. split.
  - now apply (predict_symmetric self eta P z_odo eta' P').
  - now destruct (predict_postcondition _ _ _ _ _ _ E).
Qed.

Lemma predict_accepts_positive_definite_witness :
  exists (eta' : vec) (P' : mat),
    predict slam0 [0; 0; 0; 2; 0] (np.eye 5) [1; 0; 0] = Ok (eta', P') /\
    symmetric P' /\ np.eigvals_all_gt0 P'.
Proof.
  apply (predict_accepts_positive_definite slam0 [0; 0; 0; 2; 0] (np.eye 5) [1; 0; 0] 2).
  - reflexivity.
  - reflexivity.
  - apply (shape_eye 5).
  - apply symmetric_transpose_eq. reflexivity.
  - exact eye5_gt0.
  - apply (shape_eye 3).
  - apply symmetric_transpose_eq. reflexivity.
  - exact eye3_ge0.
Defined.

Lemma quad_zeros3 (M : mat) : np.quad M [0; 0; 0] = 0.
Proof. unfold np.quad. apply (dot_zeros_l 3). Qed.

(** X7: [predict] accepts a positive semi-definite covariance on input but
    asserts a positive definite one before it returns, and it does not
    touch the map block: when the covariance has a direction of zero
    variance inside the map (a non-zero [X] on the landmark entries with
    [x @ P @ x = 0]), [predict] raises [AssertionError]. *)
Theorem predict_rejects_singular_map (self : EKFSLAM) (eta : vec) (P : mat)
  (z_odo : vec) (m : nat) (X : vec) :
  length eta = (3 + m)%nat -> length z_odo = 3%nat ->
  shape (3 + m) (3 + m) P -> symmetric P -> shape 3 3 (self_Q self) ->
  length X = m -> X <> np.zeros m -> np.quad P (0 :: 0 :: 0 :: X) = 0 ->
  predict self eta P z_odo = Raise AssertionError.
Proof.
  intros Heta Hz HP Hsym HQ HX Hnz Hquad.
  unfold predict.
  rewrite (assert_holds _ (symmetric_allclose _ P HP Hsym)). cbn [bind].
  unfold assert_ at 1.
  destruct (excluded_middle_informative (np.eigvals_all_ge0 P)) as [_|_]; [|reflexivity].
  cbn [bind].
  rewrite Heta. rewrite (proj2 (has_shape_spec _ _ P) HP). cbn [assertb bind].
  destruct (f_returns self (firstn 3 eta) z_odo) as [x_pred Ef].
  { rewrite length_firstn. lia. }
  destruct (Fx_form self (firstn 3 eta) z_odo) as (a & b & EFx).
  destruct (Fu_form self (firstn 3 eta) z_odo) as (G & EFu & HG).
  rewrite Ef, EFx, EFu. cbn [bind].
  unfold assert_ at 1.
  destruct (excluded_middle_informative _) as [_|_]; [|reflexivity].
  cbn [bind].
  rewrite assert_fails; [reflexivity|].
  intro Hpd.
  destruct (shape_3_3 G HG) as (g00 & g01 & g02 & g10 & g11 & g12 & g20 & g21 & g22 & ->).
  destruct (shape_3_3 _ HQ) as (q00 & q01 & q02 & q10 & q11 & q12 & q20 & q21 & q22 & EQ).
  pose proof (predict_cov_shape self [[1; 0; a]; [0; 1; b]; [0; 0; 1]]
                [[g00; g01; g02]; [g10; g11; g12]; [g20; g21; g22]] P _ _ HP) as HP'.
  specialize (Hpd (0 :: 0 :: 0 :: X)).
  unfold np.nrows in Hpd. rewrite (proj1 HP') in Hpd.
  assert (Hlen : length (0 :: 0 :: 0 :: X) = (3 + m)%nat) by (simpl; now rewrite HX).
  assert (Hne : 0 :: 0 :: 0 :: X <> np.zeros (3 + m)).
  { intro E. apply Hnz. cbn [np.zeros repeat Nat.add] in E. now injection E. }
  specialize (Hpd Hlen Hne).
  rewrite (predict_cov_quad self _ _ _ _ _ _ _ _ _ _ _ _ _ _ _ _ _ _ _ _ _ _ _ _ _ _ _
             P m HP EQ Hsym) in Hpd by exact HX.
  replace (1 * 0 + 0 * 0 + 0 * 0) with 0 in Hpd by ring.
  replace (0 * 0 + 1 * 0 + 0 * 0) with 0 in Hpd by ring.
  replace (a * 0 + b * 0 + 1 * 0) with 0 in Hpd by ring.
  replace (g00 * 0 + g10 * 0 + g20 * 0) with 0 in Hpd by ring.
  replace (g01 * 0 + g11 * 0 + g21 * 0) with 0 in Hpd by ring.
  replace (g02 * 0 + g12 * 0 + g22 * 0) with 0 in Hpd by ring.
  rewrite Hquad, EQ, quad_zeros3 in Hpd. lra.
Qed.

Lemma predict_rejects_singular_map_witness :
  predict slam0 [0; 0; 0; 2; 0] (np.zeros2 5 5) [1; 0; 0] = Raise AssertionError.
Proof.
  apply (predict_rejects_singular_map slam0 [0; 0; 0; 2; 0] (np.zeros2 5 5) [1; 0; 0]
           2 [1; 0]).
  - reflexivity.
  - reflexivity.
  - apply has_shape_spec. reflexivity.
  - apply symmetric_transpose_eq. reflexivity.
  - apply (shape_eye 3).
  - reflexivity.
  - intro E. injection E as E. lra.
  - np_eval. lra.
Defined.

(** X8: the blocks that [predict] writes: the pose block becomes
    [Fx @ P[0:3, 0:3] @ Fx.T + Fu @ Q @ Fu.T] and the pose-map block
    [Fx @ P[:3, 3:]]; the later slice assignments leave the earlier ones
    in place. *)
Theorem predict_blocks (self : EKFSLAM) (eta : vec) (P : mat) (z_odo : vec)
  (eta' : vec) (P' F G : mat) :
  predict self eta P z_odo = Ok (eta', P') ->
  Fx self (firstn 3 eta) z_odo = Ok F ->
  Fu self (firstn 3 eta) z_odo = Ok G ->
  (forall i j : nat, (i < 3)%nat -> (j < 3)%nat ->
     np.get P' i j =
     np.get (np.madd (np.mmul (np.mmul F (np.cols 0 3 (np.rows 0 3 P))) (np.transpose F))
                     (np.mmul (np.mmul G (self_Q self)) (np.transpose G))) i j) /\
  (forall i j : nat, (i < 3)%nat -> (3 <= j < length eta)%nat ->
     np.get P' i j = np.get (np.mmul F (np.cols_from 3 (firstn 3 P))) i (j - 3)).
Proof.
  intros E EF EG.
  destruct (predict_dimensions _ _ _ _ _ _ E) as [Hlen Hs].
  unfold predict in E.
  do 2 bind_inv E. bind_named E u1 Hshape. bind_named E x_pred Ef.
  bind_named E Fx_ EFx. bind_named E Fu_ EFu.
  do 3 bind_inv E. injection E as E1 <-.
  apply assertb_Ok, has_shape_spec in Hshape.
  destruct (f_heading_wrapped _ _ _ _ Ef) as [_ Hl].
  assert (H3 : (3 <= length eta)%nat).
  { rewrite <- Hlen, <- E1, length_app. lia. }
  rewrite EF in EFx. injection EFx as <-.
  rewrite EG in EFu. injection EFu as <-.
  destruct (Fx_form self (firstn 3 eta) z_odo) as (fa & fb & EFx').
  destruct (Fu_form self (firstn 3 eta) z_odo) as (G' & EFu' & HG).
  rewrite EF in EFx'. injection EFx' as ->.
  rewrite EG in EFu'. injection EFu' as ->.
  destruct (shape_3_3 G' HG) as (g00 & g01 & g02 & g10 & g11 & g12 & g20 & g21 & g22 & ->).
  split.
  - intros i j Hi Hj.
    rewrite (predict_cov_pose_entry self _ _ _ _ _ _ _ _ _ _ _ _ _ _ _ _ _ _ P
               (length eta) Hshape H3) by assumption.
    now rewrite (lead3_spec (length eta) P Hshape H3).
  - intros i j Hi Hj.
    rewrite (predict_cov_cross_entry self _ _ _ _ _ _ _ _ _ _ _ _ _ _ _ _ _ _ P
               (length eta) Hshape H3) by assumption.
    assert (Hcol : np.ncols (np.cols_from 3 (firstn 3 P)) = (length eta - 3)%nat).
    { rewrite (firstn_3 P []) by (rewrite (proj1 Hshape); lia).
      unfold np.cols_from, np.ncols. cbn [map]. rewrite length_skipn.
      now rewrite (shape_row _ _ P 0 Hshape ltac:(lia)). }
    rewrite get_mmul by (rewrite ?Hcol; simpl; lia).
    rewrite (firstn_3 P []) by (rewrite (proj1 Hshape); lia).
    unfold np.col, np.cols_from. cbn [map]. rewrite !nth_skipn.
    replace (3 + (j - 3))%nat with j by lia.
    destruct i as [|[|[|i]]]; try lia; unfold np.get; cbn [nth np.dot]; ring.
Qed.

Lemma predict_blocks_witness :
  (forall i j : nat, (i < 3)%nat -> (j < 3)%nat ->
     np.get cov1 i j =
     np.get (np.madd (np.mmul (np.mmul [[1; 0; 0]; [0; 1; 1]; [0; 0; 1]]
                                 (np.cols 0 3 (np.rows 0 3 (np.eye 5))))
                        (np.transpose [[1; 0; 0]; [0; 1; 1]; [0; 0; 1]]))
                     (np.mmul (np.mmul (np.eye 3) (self_Q slam0)) (np.transpose (np.eye 3))))
            i j) /\
  (forall i j : nat, (i < 3)%nat -> (3 <= j < length [0; 0; 0; 2; 0])%nat ->
     np.get cov1 i j =
     np.get (np.mmul [[1; 0; 0]; [0; 1; 1]; [0; 0; 1]]
               (np.cols_from 3 (firstn 3 (np.eye 5)))) i (j - 3)).
Proof.
  apply (predict_blocks slam0 [0; 0; 0; 2; 0] (np.eye 5) [1; 0; 0] [1; 0; 0; 2; 0]).
  - exact predict_example1.
  - exact Fx_example.
  - exact Fu_example.
Defined.

(** ** The measurement model *)

Lemma reshape_odd (v : vec) :
  (Nat.odd (length v) = true -> np.reshape_m1_2 v = Raise ValueError) /\
  (forall a, Nat.odd (length (a :: v)) = true -> np.reshape_m1_2 (a :: v) = Raise ValueError).
Proof.
  induction v as [|b v [IH1 IH2]].
  - split; [discriminate | reflexivity].
  - split; [exact (IH2 b)|].
    intros a Hodd. cbn [np.reshape_m1_2].
    change (Nat.odd (length (a :: b :: v))) with (Nat.odd (length v)) in Hodd.
    now rewrite (IH1 Hodd).
Qed.

(** X9: [h] raises [ValueError] (from [reshape((-1, 2))]) when the
    landmark part of the state has odd length. *)
Theorem h_odd_map_raises (self : EKFSLAM) (eta : vec) :
  (3 <= length eta)%nat -> Nat.odd (length eta - 3) = true ->
  h self eta = Raise ValueError.
Proof.
  intros Hlen Hodd. unfold h.
  rewrite (proj1 (reshape_odd (skipn 3 eta))); [reflexivity|].
  now rewrite length_skipn.
Qed.

Lemma h_odd_map_raises_witness : h slam0 [0; 0; 0; 1] = Raise ValueError.
Proof.
  apply (h_odd_map_raises slam0 [0; 0; 0; 1]); [simpl; lia | reflexivity].
Defined.

Lemma arctan2_wrapped (y x : R) : wrapped (np.arctan2 y x).
Proof.
  unfold wrapped, np.arctan2. pose proof PI_RGT_0 as Hpi.
  pose proof (atan_bound (y / x)) as Hb.
  destruct (Rlt_dec 0 x) as [Hx|Hx]; [lra|].
  destruct (Rlt_dec x 0) as [Hx'|Hx'].
  - destruct (Rle_dec 0 y) as [Hy|Hy].
    + assert (Hle : atan (y / x) <= 0).
      { destruct (Req_dec y 0) as [->|Hy0].
        - unfold Rdiv. rewrite Rmult_0_l, atan_0. lra.
        - left. rewrite <- atan_0. apply atan_increasing.
          apply Ropp_lt_cancel. rewrite Ropp_0.
          replace (- (y / x)) with (y * / - x) by (field; lra).
          apply Rmult_lt_0_compat; [lra|]. apply Rinv_0_lt_compat. lra. }
      lra.
    + assert (Hlt : 0 < atan (y / x)).
      { rewrite <- atan_0. apply atan_increasing.
        replace (y / x) with (- y * / - x) by (field; lra).
        apply Rmult_lt_0_compat; [lra|]. apply Rinv_0_lt_compat. lra. }
      lra.
  - destruct (Rlt_dec 0 y); [lra|]. destruct (Rlt_dec y 0); lra.
Qed.

Lemma nth_flat_map_pair {A : Type} (g1 g2 : A -> R) (l : list A) (j : nat) (d : A) :
  (j < length l)%nat ->
  nth (2 * j) (flat_map (fun a => [g1 a; g2 a]) l) 0 = g1 (nth j l d) /\
  nth (2 * j + 1) (flat_map (fun a => [g1 a; g2 a]) l) 0 = g2 (nth j l d).
Proof.
  revert j. induction l as [|a l IH]; intros j Hj; simpl in Hj; [lia|].
  destruct j as [|j]; [split; reflexivity|].
  replace (2 * S j)%nat with (S (S (2 * j))) by lia.
  replace (S (S (2 * j)) + 1)%nat with (S (S (2 * j + 1))) by lia.
  cbn [flat_map app nth]. apply IH. lia.
Qed.

Lemma length_flat_map_pair {A : Type} (g1 g2 : A -> R) (l : list A) :
  length (flat_map (fun a => [g1 a; g2 a]) l) = (2 * length l)%nat.
Proof. induction l as [|a l IH]; [reflexivity|]. cbn [flat_map app length]. lia. Qed.

Lemma h_form (self : EKFSLAM) (eta zpred : vec) :
  h self eta = Ok zpred ->
  exists (Rot : mat) (ds : list vec), zpred = flat_map (range_bearing Rot) ds.
Proof.
  unfold h. intro E. bind_named E ms Ems.
  set (Rot := rotmat2d _) in E. set (ds := map _ ms) in E.
  bind_inv E. exists Rot, ds. congruence.
Qed.

(** X10: every range that [h] predicts is non-negative and every bearing
    lies between -pi and pi. *)
Theorem h_ranges_bearings (self : EKFSLAM) (eta zpred : vec) (j : nat) :
  h self eta = Ok zpred -> (2 * j + 1 < length zpred)%nat ->
  0 <= np.vget zpred (2 * j) /\ - PI <= np.vget zpred (2 * j + 1) <= PI.
Proof.
  intros E Hj. destruct (h_form self eta zpred E) as (Rot & ds & ->).
  unfold range_bearing in *. cbv zeta in *.
  rewrite length_flat_map_pair in Hj.
  destruct (nth_flat_map_pair np.norm
              (fun d => np.arctan2 (np.vget (np.mvmul Rot d) 1) (np.vget (np.mvmul Rot d) 0))
              ds j [] ltac:(lia)) as [E1 E2].
  split.
  - unfold np.vget at 1. rewrite E1. unfold np.norm. apply sqrt_pos.
  - unfold np.vget at 1 4. rewrite E2.
    match goal with
    | |- - PI <= np.arctan2 ?y ?x <= PI =>
        pose proof (arctan2_wrapped y x) as Hw
    end.
    unfold wrapped in Hw. lra.
Qed.

Lemma h_ranges_bearings_witness :
  0 <= np.vget [1; 0] (2 * 0) /\ - PI <= np.vget [1; 0] (2 * 0 + 1) <= PI.
Proof.
  apply (h_ranges_bearings slam0 [0; 0; 0; 1; 0] [1; 0] 0).
  - exact h_example.
  - simpl. lia.
Defined.

Lemma length_shift_pairs (t0 t1 : R) (v : vec) :
  length (shift_pairs t0 t1 v) = length v /\
  (forall a, length (shift_pairs t0 t1 (a :: v)) = length (a :: v)).
Proof.
  induction v as [|b v [IH1 IH2]]; [split; reflexivity|].
  split; [exact (IH2 b)|]. intro a. cbn [shift_pairs length]. now rewrite IH1.
Qed.

Lemma reshape_shift_pairs (t0 t1 : R) (v : vec) :
  (np.reshape_m1_2 (shift_pairs t0 t1 v)
   = match np.reshape_m1_2 v with
     | Ok ps => Ok (map (fun p => np.vadd p [t0; t1]) ps)
     | Raise e => Raise e
     end) /\
  (forall a,
      np.reshape_m1_2 (shift_pairs t0 t1 (a :: v))
      = match np.reshape_m1_2 (a :: v) with
        | Ok ps => Ok (map (fun p => np.vadd p [t0; t1]) ps)
        | Raise e => Raise e
        end).
Proof.
  induction v as [|b v [IH1 IH2]]; [split; reflexivity|].
  split; [exact (IH2 b)|]. intro a.
  cbn [shift_pairs np.reshape_m1_2]. rewrite IH1.
  destruct (np.reshape_m1_2 v); reflexivity.
Qed.

(** X11: the predicted measurements do not depend on where the world
    origin is: moving the robot position and every landmark by the same
    translation leaves the result of [h] unchanged. *)
Theorem h_translation_invariant (self : EKFSLAM) (t0 t1 : R) (eta : vec) :
  (3 <= length eta)%nat ->
  h self (translate t0 t1 eta) = h self eta.
Proof.
  intro Hlen. destruct eta as [|e0 [|e1 [|e2 rest]]]; try (simpl in Hlen; lia).
  unfold translate. cbn [firstn skipn shift_pairs app].
  unfold h. cbn [firstn skipn np.vget nth length].
  rewrite (proj1 (reshape_shift_pairs t0 t1 rest)).
  rewrite (proj1 (length_shift_pairs t0 t1 rest)).
  destruct (np.reshape_m1_2 rest) as [ps|e] eqn:Eps; [|reflexivity].
  cbn [bind]. rewrite map_map.
  destruct (proj1 (reshape_Ok rest) ps Eps) as [_ Hps].
  set (off := np.mvmul (rotmat2d e2) (self_sensor_offset self)).
  assert (Hoff : exists o0 o1, off = [o0; o1]).
  { unfold off, np.mvmul, rotmat2d. cbn [map]. eauto. }
  destruct Hoff as (o0 & o1 & ->).
  assert (Emap :
    map (fun x => np.vsub (np.vsub (np.vadd x [t0; t1]) [e0 + t0; e1 + t1]) [o0; o1]) ps
    = map (fun mj => np.vsub (np.vsub mj [e0; e1]) [o0; o1]) ps).
  { apply map_ext_in. intros p Hin. rewrite Forall_forall in Hps.
    specialize (Hps p Hin). destruct p as [|a [|b [|? ?]]]; try discriminate Hps.
    cbn. f_equal; [ring|]. f_equal. ring. }
  rewrite Emap. reflexivity.
Qed.

Lemma h_translation_invariant_witness :
  h slam0 (translate 1 1 [0; 0; 0; 1; 0]) = h slam0 [0; 0; 0; 1; 0].
Proof.
  apply (h_translation_invariant slam0 1 1 [0; 0; 0; 1; 0]). simpl. lia.
Defined.

(** ** The measurement Jacobian *)

Lemma shape_zeros2 (r c : nat) : shape r c (np.zeros2 r c).
Proof.
  unfold np.zeros2, np.zeros. split; [apply repeat_length|].
  apply Forall_forall. intros row Hin. apply repeat_spec in Hin. subst row.
  apply repeat_length.
Qed.

Lemma get_zeros2 (r c i j : nat) : np.get (np.zeros2 r c) i j = 0.
Proof.
  unfold np.get, np.zeros2, np.zeros.
  destruct (Nat.lt_ge_cases i r) as [Hi|Hi].
  - rewrite nth_repeat_lt by exact Hi.
    destruct (Nat.lt_ge_cases j c) as [Hj|Hj].
    + now rewrite nth_repeat_lt.
    + apply nth_overflow. now rewrite repeat_length.
  - rewrite (nth_overflow (repeat _ r)) by (now rewrite repeat_length). now destruct j.
Qed.

Lemma get_slice_assign_shape (r c r0 r1 c0 c1 : nat) (B P : mat) (i j : nat) :
  shape r c P ->
  np.get (np.slice_assign r0 r1 c0 c1 B P) i j =
  if (r0 <=? i)%nat && (i <? r1)%nat && ((c0 <=? j)%nat && (j <? c1)%nat)
     && ((i <? r)%nat && (j <? c)%nat)
  then np.get B (i - r0) (j - c0)
  else np.get P i j.
Proof.
  intro HP. rewrite get_slice_assign. rewrite (proj1 HP).
  destruct (Nat.lt_ge_cases i r) as [Hi|Hi].
  - now rewrite (shape_row r c P i HP Hi).
  - replace (i <? r)%nat with false by (symmetry; now apply Nat.ltb_ge).
    now rewrite !andb_false_r.
Qed.

Lemma get_mopp (A : mat) (i j : nat) : np.get (np.mopp A) i j = - np.get A i j.
Proof.
  unfold np.get, np.mopp.
  destruct (Nat.lt_ge_cases i (length A)) as [Hi|Hi].
  - rewrite (nth_indep _ [] (np.vopp [])) by (now rewrite length_map).
    rewrite (map_nth np.vopp A [] i). unfold np.vopp.
    destruct (Nat.lt_ge_cases j (length (nth i A []))) as [Hj|Hj].
    + rewrite (nth_indep _ 0 (- 0)) by (now rewrite length_map). apply map_nth.
    + rewrite !nth_overflow; [lra | exact Hj | now rewrite length_map].
  - rewrite (nth_overflow (map _ A)) by (now rewrite length_map).
    rewrite (nth_overflow A) by exact Hi. destruct j; cbn; lra.
Qed.

Lemma get_cols_to (b : nat) (A : mat) (i j : nat) :
  (j < b)%nat -> np.get (np.cols_to b A) i j = np.get A i j.
Proof.
  intro Hj. unfold np.get, np.cols_to.
  destruct (Nat.lt_ge_cases i (length A)) as [Hi|Hi].
  - rewrite (nth_indep _ [] (firstn b [])) by (now rewrite length_map).
    rewrite (map_nth (firstn b) A [] i). rewrite nth_firstn.
    apply Nat.ltb_lt in Hj. now rewrite Hj.
  - rewrite (nth_overflow (map _ A)) by (now rewrite length_map).
    now rewrite (nth_overflow A) by exact Hi.
Qed.

Lemma get_rows (a b : nat) (A : mat) (i j : nat) :
  (i < b - a)%nat -> np.get (np.rows a b A) i j = np.get A (a + i) j.
Proof.
  intro Hi. unfold np.get, np.rows, np.slice.
  rewrite nth_firstn. apply Nat.ltb_lt in Hi. rewrite Hi.
  now rewrite nth_skipn.
Qed.

Section HStructure.

Variables x offset_world : vec.
Variable ms : list vec.
Variable zr : vec.
Variable N : nat.

Lemma H_rows_written_0 : H_rows_written N 0 (np.zeros2 (2 * N) (3 + 2 * N)).
Proof.
  split; [apply shape_zeros2|]. split.
  - intros. apply get_zeros2.
  - intros. lia.
Qed.

Lemma H_step_rows_written (n : nat) (M : mat) :
  (n < N)%nat -> H_rows_written N n M ->
  H_rows_written N (S n) (H_step x offset_world ms zr M n).
Proof.
  intros Hn (HM & Hzero & Hdone). unfold H_step. cbv zeta.
  set (B := [_; _]).
  set (H1 := np.slice_assign (2 * n) (2 * n + 2) 0 3 B M).
  assert (HH1 : shape (2 * N) (3 + 2 * N) H1) by (now apply shape_slice_assign).
  set (C := np.mopp _).
  split; [now apply shape_slice_assign|]. split.
  - intros i j Hi.
    rewrite (get_slice_assign_shape _ _ _ _ _ _ _ _ _ _ HH1).
    replace (i <? 2 * n + 2)%nat with false by (symmetry; apply Nat.ltb_ge; lia).
    rewrite andb_false_r. cbn [andb]. unfold H1.
    rewrite (get_slice_assign_shape _ _ _ _ _ _ _ _ _ _ HM).
    replace (i <? 2 * n + 2)%nat with false by (symmetry; apply Nat.ltb_ge; lia).
    rewrite andb_false_r. cbn [andb]. apply Hzero. lia.
  - intros i r k c Hi Hr Hk Hc.
    assert (Hlow : forall c', (c' < 3)%nat ->
              np.get (np.slice_assign (2 * n) (2 * n + 2) (3 + 2 * n) (3 + 2 * n + 2) C H1)
                     (2 * i + r) c' = np.get H1 (2 * i + r) c').
    { intros c' Hc'. rewrite (get_slice_assign_shape _ _ _ _ _ _ _ _ _ _ HH1).
      replace (3 + 2 * n <=? c')%nat with false by (symmetry; apply Nat.leb_gt; lia).
      now rewrite ?andb_false_r. }
    rewrite (Hlow c) by lia.
    rewrite (get_slice_assign_shape _ _ _ _ _ _ _ _ _ _ HH1).
    destruct (Nat.eq_dec i n) as [->|Hin].
    + (* the rows written by this step *)
      destruct (Nat.eqb_spec k n) as [->|Hkn].
      * replace ((2 * n <=? 2 * n + r)%nat && (2 * n + r <? 2 * n + 2)%nat
                 && ((3 + 2 * n <=? 3 + 2 * n + c)%nat && (3 + 2 * n + c <? 3 + 2 * n + 2)%nat)
                 && ((2 * n + r <? 2 * N)%nat && (3 + 2 * n + c <? 3 + 2 * N)%nat))
          with true.
        2:{ symmetry. rewrite !andb_true_iff, !Nat.leb_le, !Nat.ltb_lt. lia. }
        unfold C. rewrite get_mopp.
        replace (3 + 2 * n + c - (3 + 2 * n))%nat with c by lia.
        replace (2 * n + r - 2 * n)%nat with r by lia.
        rewrite get_cols_to by lia. rewrite get_rows by lia. reflexivity.
      * replace ((3 + 2 * n <=? 3 + 2 * k + c)%nat && (3 + 2 * k + c <? 3 + 2 * n + 2)%nat)
          with false.
        2:{ symmetry. apply andb_false_iff.
            destruct (Nat.lt_ge_cases k n); [left; apply Nat.leb_gt | right; apply Nat.ltb_ge]; lia. }
        rewrite ?andb_false_r. cbn [andb]. unfold H1.
        rewrite (get_slice_assign_shape _ _ _ _ _ _ _ _ _ _ HM).
        replace (3 + 2 * k + c <? 3)%nat with false by (symmetry; apply Nat.ltb_ge; lia).
        rewrite ?andb_false_r. cbn [andb]. apply Hzero. lia.
    + (* the rows of an earlier landmark are not touched *)
      assert (Hi' : (i < n)%nat) by lia.
      replace ((2 * n <=? 2 * i + r)%nat) with false by (symmetry; apply Nat.leb_gt; lia).
      cbn [andb]. unfold H1.
      rewrite !(get_slice_assign_shape _ _ _ _ _ _ _ _ _ _ HM).
      replace ((2 * n <=? 2 * i + r)%nat) with false by (symmetry; apply Nat.leb_gt; lia).
      cbn [andb]. now apply Hdone.
Qed.

Lemma H_fold_rows_written (n : nat) :
  (n <= N)%nat ->
  H_rows_written N n
    (fold_left (H_step x offset_world ms zr) (seq 0 n) (np.zeros2 (2 * N) (3 + 2 * N))).
Proof.
  induction n as [|n IH]; intro Hn; [apply H_rows_written_0|].
  rewrite seq_S, fold_left_app. cbn [fold_left Nat.add].
  apply H_step_rows_written; [lia|]. apply IH. lia.
Qed.

End HStructure.

Lemma H_Ok (self : EKFSLAM) (eta : vec) (Hm : mat) :
  H self eta = Ok Hm ->
  exists (xo off : vec) (ms : list vec) (zr : vec),
    length eta = (3 + 2 * length ms)%nat /\
    Hm = fold_left (H_step xo off ms zr) (seq 0 (length ms))
           (np.zeros2 (2 * length ms) (3 + 2 * length ms)).
Proof.
  unfold H. intro E. bind_named E ms Ems. bind_named E zpred Eh.
  pose proof (h_Ok_length _ _ _ Eh) as H3.
  destruct (proj1 (reshape_Ok _) ms Ems) as [Ecat Hps].
  assert (Hl : length (skipn 3 eta) = (2 * length ms)%nat).
  { rewrite Ecat. clear - Hps. induction Hps as [|p ps Hp _ IH]; [reflexivity|].
    cbn [concat length]. rewrite length_app, IH, Hp. lia. }
  rewrite length_skipn in Hl.
  set (xo := firstn 3 eta) in E. set (off := np.mvmul _ _) in E.
  set (zr := map _ _) in E.
  exists xo, off, ms, zr. split; [lia | congruence].
Qed.

Lemma arctan2_0_pos (x : R) : 0 < x -> np.arctan2 0 x = 0.
Proof.
  intro Hx. unfold np.arctan2. destruct (Rlt_dec 0 x) as [_|Hn]; [|contradiction].
  unfold Rdiv. now rewrite Rmult_0_l, atan_0.
Qed.

Lemma h_example2 : h slam0 [0; 0; 0; 2; 0] = Ok [2; 0].
Proof.
  unfold h, slam0. np_eval. unfold np.norm. np_eval. trig0.
  change (Z.of_nat 2 =? Z.of_nat 5 - 3)%Z with true. cbv iota.
  match goal with
  | |- Ok [sqrt ?s; np.arctan2 ?y ?x] = _ =>
      replace s with (2 * 2) by ring; replace y with 0 by ring; replace x with 2 by ring
  end.
  rewrite sqrt_square by lra. rewrite arctan2_0_pos by lra. reflexivity.
Qed.

Lemma H_example : H slam0 [0; 0; 0; 2; 0] = Ok Ha1.
Proof.
  unfold H. rewrite h_example2. unfold slam0. cbv [H_step]. np_eval.
  unfold np.norm. np_eval. trig0. rewrite cos_PI2, sin_PI2.
  repeat match goal with
  | |- context [sqrt ?e] =>
      lazymatch e with
      | 2 * 2 => fail
      | _ => replace e with (2 * 2) by ring
      end
  end.
  rewrite sqrt_square by lra.
  unfold Ha1. f_equal. list_eq; field.
Qed.

Lemma H_Ok_shape (self : EKFSLAM) (eta : vec) (Hm : mat) :
  H self eta = Ok Hm -> shape (length eta - 3) (length eta) Hm.
Proof.
  intro E. destruct (H_Ok self eta Hm E) as (xo & off & ms & zr & Hl & ->).
  rewrite Hl. replace (3 + 2 * length ms - 3)%nat with (2 * length ms)%nat by lia.
  apply (H_fold_rows_written xo off ms zr (length ms) (length ms)). lia.
Qed.

(** X12: [H] returns an array of shape (2 L, 3 + 2 L) for a state with L
    landmarks: one row per predicted measurement entry, one column per
    state entry. *)
Theorem H_shape (self : EKFSLAM) (eta : vec) (Hm : mat) :
  H self eta = Ok Hm -> shape (length eta - 3) (length eta) Hm.
Proof.
  intro E. destruct (H_Ok self eta Hm E) as (xo & off & ms & zr & Hl & ->).
  destruct (H_fold_rows_written xo off ms zr (length ms) (length ms) (le_n _))
    as (Hshape & _ & _).
  rewrite Hl. replace (3 + 2 * length ms - 3)%nat with (2 * length ms)%nat by lia.
  exact Hshape.
Qed.

Lemma H_shape_witness : shape (length [0; 0; 0; 2; 0] - 3) (length [0; 0; 0; 2; 0]) Ha1.
Proof. apply (H_shape slam0 [0; 0; 0; 2; 0] Ha1). exact H_example. Defined.

(** X13: the sparsity of the measurement Jacobian, for a landmark [i] at
    a positive range from the sensor: in the two rows of landmark [i] the
    columns of any other landmark are zero, and the two columns of landmark
    [i] itself are the opposite of the two position columns
    ([Hm[inds, inds] = -Hx[inds, :2]]). *)
Theorem H_sparsity (self : EKFSLAM) (eta zpred : vec) (Hm : mat) (i r k c : nat) :
  H self eta = Ok Hm -> h self eta = Ok zpred ->
  (3 + 2 * i + 1 < length eta)%nat -> (3 + 2 * k + 1 < length eta)%nat ->
  0 < np.vget zpred (2 * i) ->
  (r < 2)%nat -> (c < 2)%nat ->
  np.get Hm (2 * i + r) (3 + 2 * k + c) =
  if (k =? i)%nat then - np.get Hm (2 * i + r) c else 0.
Proof.
  intros E _ Hi Hk _ Hr Hc.
  destruct (H_Ok self eta Hm E) as (xo & off & ms & zr & Hl & ->).
  destruct (H_fold_rows_written xo off ms zr (length ms) (length ms) (le_n _))
    as (_ & _ & Hdone).
  apply Hdone; lia.
Qed.

Lemma H_sparsity_witness :
  np.get Ha1 (2 * 0 + 1) (3 + 2 * 0 + 1) =
  if (0 =? 0)%nat then - np.get Ha1 (2 * 0 + 1) 1 else 0.
Proof.
  apply (H_sparsity slam0 [0; 0; 0; 2; 0] [2; 0] Ha1 0 1 0 1); try (simpl; lia).
  - exact H_example.
  - exact h_example2.
  - cbn. lra.
Defined.

(** ** The landmark initializer *)

(** Two arrays of the same shape with the same entries are equal. *)
Lemma mat_ext (r c : nat) (A B : mat) :
  shape r c A -> shape r c B ->
  (forall i j : nat, (i < r)%nat -> (j < c)%nat -> np.get A i j = np.get B i j) ->
  A = B.
Proof.
  intros HA HB Hget.
  apply (nth_ext _ _ [] []); [destruct HA, HB; congruence|].
  intros i Hi. rewrite (proj1 HA) in Hi.
  apply (nth_ext _ _ 0 0).
  - now rewrite (shape_row r c A i HA Hi), (shape_row r c B i HB Hi).
  - intros j Hj. rewrite (shape_row r c A i HA Hi) in Hj. now apply Hget.
Qed.

Lemma length_vslice_assign (a b : nat) (src v : vec) :
  length (np.vslice_assign a b src v) = length v.
Proof. unfold np.vslice_assign. apply length_mapi. Qed.

Lemma length_fold_lmnew (self : EKFSLAM) (eta z : vec) (js : list nat) (st : vec * mat * mat) :
  length (fst (fst (fold_left (add_landmarks_step self eta z) js st)))
  = length (fst (fst st)).
Proof.
  rewrite fold_lmnew. generalize (fst (fst st)) as lm.
  induction js as [|j js IH]; intro lm; [reflexivity|].
  cbn [fold_left]. rewrite IH. apply length_vslice_assign.
Qed.

(** X14: [add_landmarks] raises [AssertionError] on a measurement array
    of odd length (a range without its bearing). *)
Theorem add_landmarks_odd_raises (self : EKFSLAM) (eta : vec) (P : mat) (z : vec) :
  (3 <= length eta)%nat -> length (self_sensor_offset self) = 2%nat ->
  shape 2 2 (self_R self) ->
  Nat.odd (length z) = true ->
  add_landmarks self eta P z = Raise AssertionError.
Proof.
  intros _ _ _ Hodd. unfold add_landmarks.
  pose proof (length_fold_lmnew self eta z (seq 0 (length z / 2))
                (np.zeros (length z), np.zeros2 (length z / 2 * 2) 3,
                 np.zeros2 (length z / 2 * 2) (length z / 2 * 2))) as Hl.
  destruct (fold_left _ _ _) as [[lmnew Gx] Rall].
  cbn [fst] in Hl. unfold np.zeros in Hl. rewrite repeat_length in Hl.
  rewrite Hl.
  replace (length z mod 2 =? 0)%nat with false; [reflexivity|].
  symmetry. apply Nat.eqb_neq. intro Hm.
  apply Nat.Div0.mod_divides in Hm. destruct Hm as [k Hk].
  rewrite Hk, Nat.odd_mul in Hodd. discriminate Hodd.
Qed.

Lemma add_landmarks_odd_raises_witness :
  add_landmarks slam0 [0; 0; 0] (np.zeros2 3 3) [1] = Raise AssertionError.
Proof.
  apply add_landmarks_odd_raises.
  - simpl. lia.
  - reflexivity.
  - apply (shape_eye 2).
  - reflexivity.
Defined.

Lemma block_diag_nil_r (P : mat) : np.block_diag P [] = P.
Proof.
  unfold np.block_diag. cbn [np.ncols np.zeros repeat map]. rewrite app_nil_r.
  rewrite <- (map_id P) at 2. apply map_ext. intro row. apply app_nil_r.
Qed.

(** X15: with no measurement, [add_landmarks] returns the state and the
    covariance unchanged (when the covariance has the size of the state
    and passes the symmetry and eigenvalue checks). *)
Theorem add_landmarks_nothing (self : EKFSLAM) (eta : vec) (P : mat) :
  (3 <= length eta)%nat -> length (self_sensor_offset self) = 2%nat ->
  shape (length eta) (length eta) P ->
  np.allclose P (np.transpose P) -> np.eigvals_all_ge0 P ->
  add_landmarks self eta P [] = Ok (eta, P).
Proof.
  intros H3 _ HP Hsym Hpsd. unfold add_landmarks.
  cbn [length Nat.div Nat.divmod fst seq fold_left].
  change (0 / 2)%nat with 0%nat. cbn [seq fold_left Nat.mul np.zeros np.zeros2 repeat length].
  change (0 mod 2 =? 0)%nat with true. cbn [assertb bind].
  change (np.mmul (np.mmul [] (np.cols 0 3 (np.rows 0 3 P))) (np.transpose [])) with (@nil (list R)).
  change (np.madd [] []) with (@nil (list R)).
  rewrite block_diag_nil_r, app_nil_r.
  set (P1 := np.slice_assign 0 _ _ _ _ P).
  set (P2 := np.slice_assign _ _ 0 _ _ P1).
  assert (HP1 : shape (length eta) (length eta) P1) by (now apply shape_slice_assign).
  assert (HP2 : shape (length eta) (length eta) P2) by (now apply shape_slice_assign).
  assert (E : P2 = P).
  { apply (mat_ext (length eta) (length eta)); try assumption.
    intros i j Hi Hj. unfold P2.
    rewrite (get_slice_assign_shape _ _ _ _ _ _ _ _ _ _ HP1).
    unfold np.nrows at 1 2. rewrite (proj1 HP1), (proj1 HP).
    replace ((length eta <=? i)%nat) with false by (symmetry; apply Nat.leb_gt; lia).
    cbn [andb]. unfold P1.
    rewrite (get_slice_assign_shape _ _ _ _ _ _ _ _ _ _ HP).
    unfold np.nrows. rewrite (proj1 HP).
    replace ((length eta <=? j)%nat) with false by (symmetry; apply Nat.leb_gt; lia).
    now rewrite ?andb_false_r. }
  rewrite E.
  rewrite (proj2 (has_shape_spec _ _ P) HP). cbn [assertb bind].
  rewrite (assert_holds _ Hsym), (assert_holds _ Hpsd). reflexivity.
Qed.

Lemma add_landmarks_nothing_witness :
  add_landmarks slam0 [0; 0; 0] (np.zeros2 3 3) [] = Ok ([0; 0; 0], np.zeros2 3 3).
Proof.
  apply add_landmarks_nothing.
  - simpl. lia.
  - reflexivity.
  - apply has_shape_spec. reflexivity.
  - apply allclose_symmetric. reflexivity.
  - exact zeros33_ge0.
Defined.

Lemma get_block_diag_top (A B : mat) (r c i j : nat) :
  shape r c A -> (i < r)%nat -> (j < c)%nat ->
  np.get (np.block_diag A B) i j = np.get A i j.
Proof.
  intros HA Hi Hj. unfold np.get, np.block_diag.
  rewrite app_nth1 by (rewrite length_map, (proj1 HA); exact Hi).
  rewrite (nth_indep _ [] ((fun row => row ++ np.zeros (np.ncols B)) []))
    by (rewrite length_map, (proj1 HA); exact Hi).
  rewrite (map_nth (fun row => row ++ np.zeros (np.ncols B)) A [] i).
  rewrite app_nth1; [reflexivity|]. now rewrite (shape_row r c A i HA Hi).
Qed.

(** X16: the frame of [add_landmarks]: the state is extended at its end
    by one entry per measurement entry, the covariance of the previous
    state is kept as the leading block of the new covariance, and the two
    new cross blocks are exact transposes of each other. *)
Theorem add_landmarks_frame (self : EKFSLAM) (eta : vec) (P : mat) (z : vec)
  (eta' : vec) (P' : mat) :
  shape (length eta) (length eta) P ->
  add_landmarks self eta P z = Ok (eta', P') ->
  firstn (length eta) eta' = eta /\
  length eta' = (length eta + length z)%nat /\
  shape (length eta') (length eta') P' /\
  (forall i j : nat, (i < length eta)%nat -> (j < length eta)%nat ->
     np.get P' i j = np.get P i j) /\
  (forall i j : nat, (i < length eta)%nat -> (length eta <= j < length eta')%nat ->
     np.get P' j i = np.get P' i j).
Proof.
  intros HP E. unfold add_landmarks in E.
  pose proof (length_fold_lmnew self eta z (seq 0 (length z / 2))
                (np.zeros (length z), np.zeros2 (length z / 2 * 2) 3,
                 np.zeros2 (length z / 2 * 2) (length z / 2 * 2))) as Hl.
  destruct (fold_left _ _ _) as [[lmnew Gx] Rall].
  cbn [fst] in Hl. unfold np.zeros in Hl. rewrite repeat_length in Hl.
  bind_inv E.
  set (B := np.madd _ Rall) in E.
  set (P0 := np.block_diag P B) in E.
  change (np.nrows P) with (length P) in E. rewrite (proj1 HP) in E.
  set (P1 := np.slice_assign 0 (length eta) (length eta) (np.ncols P0) _ P0) in E.
  set (P2 := np.slice_assign (length eta) (np.nrows P1) 0 (length eta) _ P1) in E.
  bind_named E u1 Hshape. do 2 bind_inv E.
  assert (Eeta : eta' = eta ++ lmnew) by congruence.
  assert (EP : P' = P2) by congruence.
  clear E. subst eta' P'.
  apply assertb_Ok, has_shape_spec in Hshape.
  set (N := length (eta ++ lmnew)) in *.
  assert (HN : N = (length eta + length z)%nat) by (unfold N; rewrite length_app; lia).
  assert (HP1 : shape N N P1).
  { split.
    - rewrite <- (proj1 Hshape). unfold P2. now rewrite length_slice_assign.
    - apply Forall_forall. intros row Hin.
      destruct (In_nth _ _ [] Hin) as (i & Hi & <-).
      rewrite <- (row_length_slice_assign (length eta) (np.nrows P1) 0 (length eta)
                    (np.transpose (np.cols_from (length eta) (firstn (length eta) P1))) P1 i).
      fold P2. apply (shape_row N N P2 i Hshape).
      rewrite <- (proj1 Hshape). unfold P2. now rewrite length_slice_assign. }
  assert (HP0 : shape N N P0).
  { split.
    - rewrite <- (proj1 HP1). unfold P1. now rewrite length_slice_assign.
    - apply Forall_forall. intros row Hin.
      destruct (In_nth _ _ [] Hin) as (i & Hi & <-).
      rewrite <- (row_length_slice_assign 0 (length eta) (length eta) (np.ncols P0)
                    (np.mmul (np.cols_to 3 P) (np.transpose Gx)) P0 i).
      fold P1. apply (shape_row N N P1 i HP1).
      rewrite <- (proj1 HP1). unfold P1. now rewrite length_slice_assign. }
  split; [|split; [|split; [|split]]].
  - rewrite firstn_app, Nat.sub_diag, firstn_all. cbn [firstn]. apply app_nil_r.
  - exact HN.
  - exact Hshape.
  - intros i j Hi Hj. unfold P2.
    rewrite (get_slice_assign_shape _ _ _ _ _ _ _ _ _ _ HP1).
    replace ((length eta <=? i)%nat) with false by (symmetry; apply Nat.leb_gt; lia).
    cbn [andb]. unfold P1.
    rewrite (get_slice_assign_shape _ _ _ _ _ _ _ _ _ _ HP0).
    replace ((length eta <=? j)%nat) with false by (symmetry; apply Nat.leb_gt; lia).
    rewrite ?andb_false_r. cbn [andb]. unfold P0.
    now apply (get_block_diag_top P B (length eta) (length eta)).
  - intros i j Hi Hj. unfold P2.
    rewrite !(get_slice_assign_shape _ _ _ _ _ _ _ _ _ _ HP1).
    unfold np.nrows. rewrite (proj1 HP1).
    replace ((length eta <=? i)%nat) with false by (symmetry; apply Nat.leb_gt; lia).
    cbn [andb].
    replace ((length eta <=? j)%nat && (j <? N)%nat && ((0 <=? i)%nat && (i <? length eta)%nat)
             && ((j <? N)%nat && (i <? N)%nat)) with true.
    2:{ symmetry. rewrite !andb_true_iff, !Nat.leb_le, !Nat.ltb_lt. lia. }
    rewrite Nat.sub_0_r.
    rewrite get_transpose.
    + rewrite get_cols_from. replace (length eta + (j - length eta))%nat with j by lia.
      unfold np.get. rewrite nth_firstn. apply Nat.ltb_lt in Hi. now rewrite Hi.
    + unfold np.ncols, np.cols_from.
      pose proof (shape_row N N P1 0 HP1 ltac:(lia)) as Hrow0.
      destruct P1 as [|row0 P1'] eqn:EP1; [destruct HP1 as [Hr _]; simpl in Hr; lia|].
      destruct (length eta) as [|n'] eqn:En; [lia|].
      cbn [firstn map]. rewrite length_skipn. cbn [nth] in Hrow0. lia.
Qed.

Lemma add_landmarks_frame_witness :
  firstn (length [0; 0; 0]) [0; 0; 0; 1; 0] = [0; 0; 0] /\
  length [0; 0; 0; 1; 0] = (length [0; 0; 0] + length [1; 0])%nat /\
  shape (length [0; 0; 0; 1; 0]) (length [0; 0; 0; 1; 0]) Padded1 /\
  (forall i j : nat, (i < length [0; 0; 0])%nat -> (j < length [0; 0; 0])%nat ->
     np.get Padded1 i j = np.get (np.zeros2 3 3) i j) /\
  (forall i j : nat, (i < length [0; 0; 0])%nat ->
     (length [0; 0; 0] <= j < length [0; 0; 0; 1; 0])%nat ->
     np.get Padded1 j i = np.get Padded1 i j).
Proof.
  apply (add_landmarks_frame slam0 [0; 0; 0] (np.zeros2 3 3) [1; 0]).
  - apply has_shape_spec. reflexivity.
  - exact (add_landmarks_example 0 (proj1 cos_sin_0_0) (proj2 cos_sin_0_0)).
Defined.

(** ** The update step *)

Lemma add_landmarks_postcondition (self : EKFSLAM) (eta : vec) (P : mat) (z : vec)
  (eta' : vec) (P' : mat) :
  add_landmarks self eta P z = Ok (eta', P') ->
  np.allclose P' (np.transpose P') /\ np.eigvals_all_ge0 P'.
Proof.
  unfold add_landmarks. intro E.
  destruct (fold_left _ _ _) as [[lmnew Gx] Rall].
  do 2 bind_inv E. bind_named E u1 Hsym. bind_named E u2 Hpsd.
  apply assert_Ok in Hsym, Hpsd.
  set (Padded := np.slice_assign _ _ _ _ _ _) in *.
  assert (EP : P' = Padded) by congruence.
  rewrite EP. split; assumption.
Qed.

Lemma mask_select_all {A : Type} (l : list A) :
  np.mask_select (repeat true (length l)) l = l.
Proof. induction l as [|a l IH]; [reflexivity|]. cbn. now rewrite IH. Qed.

Lemma mask_select_none {A : Type} (n : nat) (l : list A) :
  np.mask_select (repeat false n) l = [].
Proof.
  revert l. induction n as [|n IH]; intro l; [reflexivity|].
  destruct l as [|a l]; [reflexivity|]. cbn. apply IH.
Qed.

Lemma length_concat_pairs (z : mat) :
  Forall (fun row => length row = 2%nat) z -> length (concat z) = (2 * length z)%nat.
Proof.
  induction 1 as [|row z Hrow _ IH]; [reflexivity|].
  cbn [concat length]. rewrite length_app, IH, Hrow. lia.
Qed.

Lemma new_mask_all (n : nat) :
  flat_map (fun b : bool => [b; b]) (map (fun ai => (ai =? -1)%Z) (repeat (-1)%Z n))
  = repeat true (2 * n).
Proof.
  induction n as [|n IH]; [reflexivity|].
  replace (2 * S n)%nat with (S (S (2 * n))) by lia.
  cbn [repeat map flat_map app]. now rewrite IH.
Qed.

Lemma existsb_new_all (n : nat) :
  (0 < n)%nat ->
  existsb (fun b : bool => b) (map (fun ai => (ai =? -1)%Z) (repeat (-1)%Z n)) = true.
Proof. intro Hn. destruct n as [|n]; [lia | reflexivity]. Qed.

Section UpdateSteps.

Variable JCBB : vec -> vec -> mat -> R -> R -> list Z.
Variable la_inv : mat -> mat.

(** The second half of [update] when every measurement is new: the
    landmarks are initialised from the whole batch. *)
Lemma update_all_new (self : EKFSLAM) (eta : vec) (P : mat) (z : mat)
  (eta' : vec) (P' : mat) :
  self_do_asso self = true ->
  z <> [] -> Forall (fun row => length row = 2%nat) z ->
  update_correct JCBB la_inv self eta P z
  = Ok (eta, P, 1, repeat (-1)%Z (length z), concat z) ->
  add_landmarks self eta P (concat z) = Ok (eta', P') ->
  update JCBB la_inv self eta P z = Ok (eta', P', 1, repeat (-1)%Z (length z)).
Proof.
  intros Hon Hz Hrows Ecorr Eadd. unfold update. rewrite Ecorr. cbn [bind].
  rewrite Hon. rewrite existsb_new_all by (destruct z; [contradiction | simpl; lia]).
  rewrite new_mask_all, <- (length_concat_pairs z Hrows), mask_select_all.
  rewrite Eadd. cbn [bind].
  destruct (add_landmarks_postcondition _ _ _ _ _ _ Eadd) as [Hsym Hpsd].
  rewrite (assert_holds _ Hsym), (assert_holds _ Hpsd). reflexivity.
Qed.

(** X17: the first detections: on a state without landmarks and with
    association enabled, [update] initialises one landmark per detection
    with [add_landmarks], reports every detection as new (-1) and returns
    the NIS 1. *)
Theorem update_first_detections (self : EKFSLAM) (eta : vec) (P : mat) (z : mat)
  (eta' : vec) (P' : mat) :
  length eta = 3%nat -> self_do_asso self = true ->
  z <> [] -> Forall (fun row => length row = 2%nat) z ->
  add_landmarks self eta P (concat z) = Ok (eta', P') ->
  update JCBB la_inv self eta P z = Ok (eta', P', 1, repeat (-1)%Z (length z)).
Proof.
  intros Hlen Hon Hz Hrows Eadd.
  apply update_all_new; try assumption.
  unfold update_correct. rewrite Hlen. reflexivity.
Qed.

(** X18: with association disabled (the default), a call of [update]
    that returns gives back the state and the covariance unchanged, the NIS
    1 and -1 for every detection: nothing is corrected and no landmark is
    ever added. *)
Theorem update_disabled_is_identity (self : EKFSLAM) (eta : vec) (P : mat) (z : mat)
  (eta' : vec) (P' : mat) (NIS : R) (a : list Z) :
  self_do_asso self = false ->
  update JCBB la_inv self eta P z = Ok (eta', P', NIS, a) ->
  eta' = eta /\ P' = P /\ NIS = 1 /\ a = repeat (-1)%Z (length z).
Proof.
  intros Hoff E. unfold update in E. bind_inv E.
  destruct a0 as [[[[etaupd Pupd] NIS0] a0] zflat].
  rewrite Hoff in E. cbn [bind] in E. do 2 bind_inv E.
  injection E as <- <- <- <-.
  unfold update_correct in Ea. bind_inv Ea.
  destruct (0 <? _)%Z.
  - do 4 bind_inv Ea.
    rewrite (associate_disabled JCBB _ _ _ _ _ Hoff) in Ea6.
    injection Ea6 as <-. discriminate Ea.
  - injection Ea as <- <- <- <- _. auto.
Qed.

End UpdateSteps.

Lemma update_first_detections_witness :
  update (fun _ _ _ _ _ => []) inv1 slam0 [0; 0; 0] (np.zeros2 3 3) [[1; 0]]
  = Ok ([0; 0; 0; 1; 0], Padded1, 1, repeat (-1)%Z (length [[1; 0]])).
Proof.
  apply update_first_detections.
  - reflexivity.
  - reflexivity.
  - discriminate.
  - repeat constructor.
  - exact (add_landmarks_example 0 (proj1 cos_sin_0_0) (proj2 cos_sin_0_0)).
Defined.

Lemma update_disabled_is_identity_witness :
  [0; 0; 0] = [0; 0; 0] /\ np.zeros2 3 3 = np.zeros2 3 3 /\ 1 = 1 /\
  [(-1)%Z] = repeat (-1)%Z (length [[1; 0]]).
Proof.
  apply (update_disabled_is_identity (fun _ _ _ _ _ => []) inv1 slam_off
           [0; 0; 0] (np.zeros2 3 3) [[1; 0]]).
  - reflexivity.
  - apply update_disabled_no_landmark.
    + reflexivity.
    + reflexivity.
    + apply allclose_symmetric. reflexivity.
    + exact zeros33_ge0.
Defined.

(** *** When no detection is associated *)

Lemma shape_madd (r c : nat) (A B : mat) :
  shape r c A -> shape r c B -> shape r c (np.madd A B).
Proof.
  intros HA HB. unfold np.madd. split.
  - rewrite length_map2, (proj1 HA), (proj1 HB). apply Nat.min_id.
  - apply Forall_forall. intros row Hin.
    destruct (In_nth _ _ [] Hin) as (i & Hi & <-).
    rewrite length_map2, (proj1 HA), (proj1 HB), Nat.min_id in Hi.
    rewrite (nth_map2 _ A B i [] [] []) by (rewrite ?(proj1 HA), ?(proj1 HB); exact Hi).
    unfold np.vadd. rewrite length_map2.
    rewrite (shape_row r c A i HA Hi), (shape_row r c B i HB Hi). apply Nat.min_id.
Qed.

Lemma ncols_transpose (M : mat) : (0 < np.ncols M)%nat -> np.ncols (np.transpose M) = length M.
Proof.
  intro Hc. unfold np.transpose.
  destruct (np.ncols M) as [|c]; [lia|].
  cbn [seq map np.ncols]. unfold np.col. apply length_map.
Qed.

Lemma shape_diag (v : vec) : shape (length v) (length v) (np.diag v).
Proof.
  unfold np.diag. split; [apply length_mapi|].
  apply Forall_forall. intros row Hin.
  destruct (In_nth _ _ [] Hin) as (i & Hi & <-). rewrite length_mapi in Hi.
  rewrite (nth_mapi _ v i [] 0) by exact Hi. apply length_mapi.
Qed.

Lemma shape_update_R (self : EKFSLAM) (n : nat) :
  shape 2 2 (self_R self) -> shape (2 * n) (2 * n) (update_R self n).
Proof.
  intros [Hr Hc]. unfold update_R.
  destruct (self_R self) as [|r0 [|r1 [|? ?]]]; try discriminate Hr.
  inversion Hc as [|? ? H0 Hc1]; subst. inversion Hc1 as [|? ? H1 _]; subst.
  destruct r0 as [|a [|b [|? ?]]]; try discriminate H0.
  destruct r1 as [|c [|d [|? ?]]]; try discriminate H1.
  rewrite diagonal_repmat.
  rewrite <- (length_concat_repeat2 a d n) at 1 2. apply shape_diag.
Qed.

Lemma filter_matched_none (n : nat) :
  filter (fun ai => (-1 <? ai)%Z) (repeat (-1)%Z n) = [].
Proof. induction n as [|n IH]; [reflexivity | exact IH]. Qed.

Lemma matched_mask_none (n : nat) :
  flat_map (fun ai => [(-1 <? ai)%Z; (-1 <? ai)%Z]) (repeat (-1)%Z n)
  = repeat false (2 * n).
Proof.
  induction n as [|n IH]; [reflexivity|].
  replace (2 * S n)%nat with (S (S (2 * n))) by lia.
  cbn [repeat flat_map app]. now rewrite IH.
Qed.

Section UpdateNoMatch.

Variable JCBB : vec -> vec -> mat -> R -> R -> list Z.
Variable la_inv : mat -> mat.

(** When the association search matches nothing, [associate] returns
    empty selections. *)
Lemma associate_none (self : EKFSLAM) (z zpred : vec) (H_ S : mat) (n : nat) :
  self_do_asso self = true ->
  JCBB z zpred S (np.vget (self_alphas self) 0) (np.vget (self_alphas self) 1)
  = repeat (-1)%Z n ->
  associate JCBB self z zpred H_ S = Ok (Some ([], [], [], [], repeat (-1)%Z n)).
Proof.
  intros Hon Ha. unfold associate. rewrite Hon, Ha.
  rewrite matched_mask_none, mask_select_none, filter_matched_none.
  reflexivity.
Qed.

(** X19: when the association search matches none of the detections,
    [update] skips the Kalman correction: the estimate is not corrected,
    the NIS is the sentinel 1, and every detection is initialised as a new
    landmark by [add_landmarks]. *)
Theorem update_no_match (self : EKFSLAM) (eta : vec) (P : mat) (z : mat)
  (zpred : vec) (Hm : mat) (eta' : vec) (P' : mat) :
  self_do_asso self = true -> shape 2 2 (self_R self) ->
  (3 < length eta)%nat -> shape (length eta) (length eta) P ->
  h self eta = Ok zpred -> H self eta = Ok Hm ->
  z <> [] -> Forall (fun row => length row = 2%nat) z ->
  (forall S a1 a2, JCBB (concat z) zpred S a1 a2 = repeat (-1)%Z (length z)) ->
  add_landmarks self eta P (concat z) = Ok (eta', P') ->
  update JCBB la_inv self eta P z = Ok (eta', P', 1, repeat (-1)%Z (length z)).
Proof.
  intros Hon HR Hlen HP Eh EH Hz Hrows Hjcbb Eadd.
  apply update_all_new; try assumption.
  unfold update_correct. rewrite Eh, EH. cbn [bind].
  destruct (H_Ok self eta Hm EH) as (xo & off & ms & zr & Hl & _).
  pose proof (H_Ok_shape self eta Hm EH) as HHm.
  assert (Hzp : length zpred = (2 * length ms)%nat).
  { unfold h in Eh. bind_inv Eh. set (zp := flat_map _ _) in Eh.
    bind_named Eh u1 Hzl. apply assertb_Ok, Z.eqb_eq in Hzl.
    assert (Ezp : zpred = zp) by congruence. rewrite Ezp. lia. }
  assert (HL : (0 < length ms)%nat) by lia.
  replace (Z.of_nat (length eta) - 3)%Z with (2 * Z.of_nat (length ms))%Z by lia.
  replace ((2 * Z.of_nat (length ms)) mod 2 =? 0)%Z with true.
  2:{ symmetry. apply Z.eqb_eq. rewrite Z.mul_comm. apply Z.mod_mul. lia. }
  replace (2 * Z.of_nat (length ms) / 2)%Z with (Z.of_nat (length ms)).
  2:{ rewrite Z.mul_comm. symmetry. apply Z.div_mul. lia. }
  replace (0 <? Z.of_nat (length ms))%Z with true by (symmetry; apply Z.ltb_lt; lia).
  cbn [assertb bind]. rewrite Nat2Z.id.
  replace (length eta - 3)%nat with (2 * length ms)%nat in HHm by lia.
  assert (HS : shape (2 * length ms) (2 * length ms)
                 (np.madd (np.mmul (np.mmul Hm P) (np.transpose Hm))
                          (update_R self (length ms)))).
  { apply shape_madd; [|now apply shape_update_R].
    pose proof (shape_mmul (np.mmul Hm P) (np.transpose Hm)) as Hs.
    replace (length (np.mmul Hm P)) with (length Hm) in Hs
      by (unfold np.mmul; now rewrite length_map).
    rewrite ncols_transpose in Hs
      by (rewrite (ncols_shape _ _ Hm HHm) by lia; lia).
    now rewrite (proj1 HHm) in Hs. }
  rewrite Hzp. rewrite (proj2 (has_shape_spec _ _ _) HS). cbn [assertb bind].
  rewrite (associate_none self _ _ _ _ (length z) Hon (Hjcbb _ _ _)).
  reflexivity.
Qed.

End UpdateNoMatch.

Lemma add_landmarks_example2 :
  add_landmarks slam0 [0; 0; 0; 2; 0] (np.zeros2 5 5) [1; 0]
  = Ok ([0; 0; 0; 2; 0; 1; 0], Padded2).
Proof.
  unfold add_landmarks, slam0. cbv [add_landmarks_step]. np_eval.
  destruct cos_sin_0_0 as [-> ->]. trig0.
  rewrite assert_holds.
  2:{ intros i j.
      do 8 (destruct i as [|i]; [do 8 (destruct j as [|j]; [np_eval; close_entries|]);
                                 np_eval; close_entries|]).
      np_eval. destruct j; close_entries. }
  rewrite assert_holds.
  2:{ intros x Hx.
      destruct x as [|x0 [|x1 [|x2 [|x3 [|x4 [|x5 [|x6 [|? ?]]]]]]]]; try discriminate Hx.
      np_eval. nra. }
  f_equal. unfold Padded2. f_equal; list_eq; lra.
Qed.

Lemma update_no_match_witness :
  update (fun _ _ _ _ _ => [(-1)%Z]) inv1 slam0 [0; 0; 0; 2; 0] (np.zeros2 5 5) [[1; 0]]
  = Ok ([0; 0; 0; 2; 0; 1; 0], Padded2, 1, repeat (-1)%Z (length [[1; 0]])).
Proof.
  apply (update_no_match (fun _ _ _ _ _ => [(-1)%Z]) inv1 slam0 [0; 0; 0; 2; 0]
           (np.zeros2 5 5) [[1; 0]] [2; 0] Ha1).
  - reflexivity.
  - apply (shape_eye 2).
  - simpl. lia.
  - apply has_shape_spec. reflexivity.
  - exact h_example2.
  - exact H_example.
  - discriminate.
  - repeat constructor.
  - reflexivity.
  - exact add_landmarks_example2.
Defined.

(** *** A measurement that equals its prediction *)

Lemma wrapToPi_0 : wrapToPi 0 = 0.
Proof. apply wrapToPi_id, wrapped_0. Qed.

Lemma innovation_self (z : vec) : innovation z z = np.zeros (length z).
Proof.
  unfold innovation, np.vsub, np.zeros.
  apply (nth_ext _ _ 0 0).
  { now rewrite length_mapi, length_map2, Nat.min_id, repeat_length. }
  intros k Hk. rewrite length_mapi, length_map2, Nat.min_id in Hk.
  rewrite (nth_mapi _ _ k 0 0) by (now rewrite length_map2, Nat.min_id).
  rewrite (nth_map2 _ z z k 0 0 0) by assumption.
  rewrite nth_repeat_lt by exact Hk.
  replace (nth k z 0 - nth k z 0) with 0 by ring.
  destruct (Nat.odd k); [apply wrapToPi_0 | reflexivity].
Qed.

Lemma dot_zeros_r (v : vec) (n : nat) : np.dot v (np.zeros n) = 0.
Proof.
  revert n. induction v as [|a v IH]; intro n; [reflexivity|].
  destruct n as [|n]; [reflexivity|].
  change (np.zeros (S n)) with (0 :: np.zeros n). cbn [np.dot]. rewrite IH. ring.
Qed.

Lemma mvmul_zeros (M : mat) (n : nat) : np.mvmul M (np.zeros n) = np.zeros (length M).
Proof.
  unfold np.mvmul. induction M as [|row M IH]; [reflexivity|].
  cbn [map length]. rewrite IH, dot_zeros_r. reflexivity.
Qed.

Lemma vadd_zeros_r (v : vec) : np.vadd v (np.zeros (length v)) = v.
Proof.
  unfold np.vadd. induction v as [|a v IH]; [reflexivity|].
  cbn [length]. change (np.zeros (S (length v))) with (0 :: np.zeros (length v)).
  cbn [np.map2]. rewrite IH. f_equal. ring.
Qed.

(** X20: when the matched measurements equal their predictions, the
    Kalman correction leaves the state estimate where it is and the NIS is
    0 (the covariance is still reduced). *)
Theorem kalman_correction_zero_innovation (la_inv : mat -> mat) (eta : vec) (P : mat)
  (z : vec) (Ha Sa : mat) (etaupd : vec) (Pupd : mat) (NIS : R) :
  shape (length eta) (length eta) P ->
  kalman_correction la_inv eta P z z Ha Sa = Ok (etaupd, Pupd, NIS) ->
  etaupd = eta /\ NIS = 0.
Proof.
  intros HP E. unfold kalman_correction in E.
  rewrite innovation_self in E. do 3 bind_inv E.
  rewrite !mvmul_zeros in E. rewrite dot_zeros_l in E.
  replace (length (kalman_gain la_inv P Ha Sa)) with (length eta) in E.
  2:{ unfold kalman_gain, np.mmul. rewrite !length_map. symmetry. apply (proj1 HP). }
  rewrite vadd_zeros_r in E. injection E as <- _ <-. auto.
Qed.

Lemma kalman_correction_example :
  exists (etaupd : vec) (NIS : R),
    kalman_correction inv1 [0; 0; 0; 2; 0] (np.eye 5) [2; 0] [2; 0] Ha1 Sa1
    = Ok (etaupd, Pupd1, NIS).
Proof.
  unfold kalman_correction.
  destruct (excluded_middle_informative (np.eigvals_all_gt0 Sa1)) as [_|Hn];
    [|exfalso; apply Hn; exact Sa1_gt0].
  cbn [bind]. rewrite Pupd1_computed.
  rewrite (assert_holds _ (allclose_symmetric Pupd1 eq_refl)).
  rewrite (assert_holds _ Pupd1_gt0). cbn [bind].
  eexists. eexists. reflexivity.
Qed.

Lemma kalman_correction_zero_innovation_witness :
  exists (etaupd : vec) (NIS : R),
    kalman_correction inv1 [0; 0; 0; 2; 0] (np.eye 5) [2; 0] [2; 0] Ha1 Sa1
    = Ok (etaupd, Pupd1, NIS) /\ etaupd = [0; 0; 0; 2; 0] /\ NIS = 0.
Proof.
  destruct kalman_correction_example as (etaupd & NIS & E).
  exists etaupd, NIS. split; [exact E|].
  apply (kalman_correction_zero_innovation inv1 [0; 0; 0; 2; 0] (np.eye 5) [2; 0]
           Ha1 Sa1 etaupd Pupd1 NIS).
  - apply (shape_eye 5).
  - exact E.
Defined.

(** ** More on the NEES diagnostic *)

(** X21: the heading error is taken modulo a full turn: adding a
    multiple of 2 pi to the estimated heading does not change what
    [NEESes] returns or raises. *)
Theorem NEESes_heading_periodic (x0 x1 x2 : R) (k : Z) (P : mat) (x_gt : vec) :
  NEESes [x0; x1; x2 + 2 * PI * IZR k] P x_gt = NEESes [x0; x1; x2] P x_gt.
Proof.
  unfold NEESes. cbn [length Nat.eqb assertb bind].
  destruct (np.has_shape 3 3 P); [|reflexivity]. cbn [assertb bind].
  destruct (length x_gt =? 3)%nat eqn:Hg; [|reflexivity]. cbn [assertb bind].
  apply Nat.eqb_eq in Hg.
  destruct x_gt as [|g0 [|g1 [|g2 [|? ?]]]]; try discriminate Hg.
  replace (np.vslice_assign 2 3
             [wrapToPi (np.vget (np.vsub [x0; x1; x2 + 2 * PI * IZR k] [g0; g1; g2]) 2)]
             (np.vsub [x0; x1; x2 + 2 * PI * IZR k] [g0; g1; g2]))
    with (np.vslice_assign 2 3
            [wrapToPi (np.vget (np.vsub [x0; x1; x2] [g0; g1; g2]) 2)]
            (np.vsub [x0; x1; x2] [g0; g1; g2])); [reflexivity|].
  np_eval. f_equal. f_equal. f_equal.
  replace (x2 + 2 * PI * IZR k - g2) with (x2 - g2 + 2 * PI * IZR k) by ring.
  symmetry. apply wrapToPi_shift.
Qed.

(** X22: a perfect estimate has zero total and position NEES, whatever
    the (invertible) covariance; its heading NEES is 0 as well, except for a
    zero heading variance, where 0 / 0 is replaced by 1. *)
Theorem NEESes_perfect_estimate (x : vec) (P : mat) :
  length x = 3%nat -> shape 3 3 P ->
  det 3 P <> 0 -> det 2 (np.cols 0 2 (np.rows 0 2 P)) <> 0 ->
  NEESes x P x
  = Ok [Fin 0; Fin 0; if Req_EM_T (np.get P 2 2) 0 then Fin 1 else Fin 0].
Proof.
  intros Hx HP Hd3 Hd2. three x Hx.
  destruct (shape_3_3 P HP) as (p00 & p01 & p02 & p10 & p11 & p12 & p20 & p21 & p22 & ->).
  cbv [np.cols np.rows np.slice map firstn skipn Nat.sub] in Hd2.
  unfold NEESes. np_eval.
  replace (x0 - x0) with 0 by ring. replace (x1 - x1) with 0 by ring.
  replace (x2 - x2) with 0 by ring. rewrite wrapToPi_0.
  rewrite assert_holds by (pose proof PI_RGT_0; lra).
  cbv beta iota.
  unfold linalg_solve. cbn [np.nrows length].
  destruct (Req_EM_T (det 3 _) 0) as [E|_]; [contradiction|].
  destruct (Req_EM_T (det 2 _) 0) as [E|_]; [contradiction|].
  cbn [map seq]. cbv beta iota.
  set (s0 := _ / _). set (s1 := _ / _). set (s2 := _ / _).
  set (t0 := _ / _). set (t1 := _ / _).
  replace (0 * s0 + (0 * s1 + (0 * s2 + 0))) with 0 by ring.
  replace (0 * t0 + (0 * t1 + 0)) with 0 by ring.
  unfold float_div. cbn [pow].
  replace (0 * (0 * 1)) with 0 by ring.
  destruct (Req_EM_T p22 0) as [E|E].
  - destruct (Req_EM_T 0 0) as [_|Hn]; [|exfalso; lra].
    cbn [isnan]. rewrite assert_holds; [reflexivity|].
    repeat constructor; simpl; lra.
  - cbn [isnan]. replace (0 / p22) with 0 by (field; exact E).
    rewrite assert_holds; [reflexivity|].
    repeat constructor; simpl; lra.
Qed.

Lemma det_eye3 : det 3 (np.eye 3) <> 0.
Proof. cbv [det]. np_eval. cbn [pow]. lra. Qed.

Lemma det_eye2 : det 2 (np.cols 0 2 (np.rows 0 2 (np.eye 3))) <> 0.
Proof. cbv [det]. np_eval. cbn [pow]. lra. Qed.

Lemma NEESes_perfect_estimate_witness :
  NEESes [0; 0; 0] (np.eye 3) [0; 0; 0]
  = Ok [Fin 0; Fin 0; if Req_EM_T (np.get (np.eye 3) 2 2) 0 then Fin 1 else Fin 0].
Proof.
  apply NEESes_perfect_estimate.
  - reflexivity.
  - apply (shape_eye 3).
  - exact det_eye3.
  - exact det_eye2.
Defined.

Lemma sq_div_ge0 (d a : R) : 0 < a -> 0 <= d ^ 2 / a.
Proof.
  intro Ha. apply Rmult_le_pos; [apply pow2_ge_0|].
  left. now apply Rinv_0_lt_compat.
Qed.

(** X23: for an uncorrelated covariance [diag(a, b, c)] with positive
    variances the NEES values are the squared errors weighted by the
    inverse variances, and the total NEES is the sum of the position NEES and
    the heading NEES. *)
Theorem NEESes_diagonal (x x_gt : vec) (a b c : R) :
  length x = 3%nat -> length x_gt = 3%nat -> 0 < a -> 0 < b -> 0 < c ->
  NEESes x (np.diag [a; b; c]) x_gt
  = Ok [Fin ((np.vget x 0 - np.vget x_gt 0) ^ 2 / a
             + (np.vget x 1 - np.vget x_gt 1) ^ 2 / b
             + wrapToPi (np.vget x 2 - np.vget x_gt 2) ^ 2 / c);
        Fin ((np.vget x 0 - np.vget x_gt 0) ^ 2 / a
             + (np.vget x 1 - np.vget x_gt 1) ^ 2 / b);
        Fin (wrapToPi (np.vget x 2 - np.vget x_gt 2) ^ 2 / c)].
Proof.
  intros Hx Hg Ha Hb Hc. three x Hx. three x_gt Hg.
  unfold NEESes. np_eval.
  set (w := wrapToPi (x2 - x_gt2)).
  rewrite assert_holds by (pose proof (wrapToPi_wrapped (x2 - x_gt2)) as Hw;
                           unfold wrapped in Hw; fold w in Hw; lra).
  cbv beta iota.
  unfold linalg_solve. cbn [np.nrows length].
  cbv [det]. np_eval. cbn [pow].
  assert (Habc : a * b * c <> 0) by (apply Rgt_not_eq; repeat apply Rmult_lt_0_compat; lra).
  assert (Hab : a * b <> 0) by (apply Rgt_not_eq; apply Rmult_lt_0_compat; lra).
  destruct (Req_EM_T _ 0) as [E|_]; [exfalso; apply Habc; rewrite <- E; ring|].
  destruct (Req_EM_T _ 0) as [E|_]; [exfalso; apply Hab; rewrite <- E; ring|].
  cbv beta iota. unfold float_div.
  destruct (Req_EM_T c 0) as [E|_]; [exfalso; lra|].
  cbn [isnan].
  match goal with
  | |- context [Forall float_ge0 [Fin ?e1; Fin ?e2; Fin ?e3]] =>
      replace e1 with ((x0 - x_gt0) ^ 2 / a + (x1 - x_gt1) ^ 2 / b + w ^ 2 / c)
        by (field; lra);
      replace e2 with ((x0 - x_gt0) ^ 2 / a + (x1 - x_gt1) ^ 2 / b) by (field; lra);
      replace e3 with (w ^ 2 / c) by (field; lra)
  end.
  pose proof (sq_div_ge0 (x0 - x_gt0) a Ha). pose proof (sq_div_ge0 (x1 - x_gt1) b Hb).
  pose proof (sq_div_ge0 w c Hc).
  rewrite assert_holds; [reflexivity|].
  repeat (apply Forall_cons; [simpl float_ge0; lra|]). apply Forall_nil.
Qed.

Lemma NEESes_diagonal_witness :
  NEESes [1; 0; 0] (np.diag [1; 1; 1]) [0; 0; 0]
  = Ok [Fin ((np.vget [1; 0; 0] 0 - np.vget [0; 0; 0] 0) ^ 2 / 1
             + (np.vget [1; 0; 0] 1 - np.vget [0; 0; 0] 1) ^ 2 / 1
             + wrapToPi (np.vget [1; 0; 0] 2 - np.vget [0; 0; 0] 2) ^ 2 / 1);
        Fin ((np.vget [1; 0; 0] 0 - np.vget [0; 0; 0] 0) ^ 2 / 1
             + (np.vget [1; 0; 0] 1 - np.vget [0; 0; 0] 1) ^ 2 / 1);
        Fin (wrapToPi (np.vget [1; 0; 0] 2 - np.vget [0; 0; 0] 2) ^ 2 / 1)].
Proof.
  apply NEESes_diagonal; try reflexivity; lra.
Defined.

(** ** What [associate] selects *)

Lemma flat_map_ext_in {A B : Type} (g1 g2 : A -> list B) (l : list A) :
  (forall x, In x l -> g1 x = g2 x) -> flat_map g1 l = flat_map g2 l.
Proof.
  intro Hg. rewrite !flat_map_concat_map. f_equal. now apply map_ext_in.
Qed.

Lemma matched_from_index (s : nat) (a : list Z) (p : nat * Z) :
  In p (matched_from s a) -> (s <= fst p)%nat.
Proof.
  unfold matched_from. intro Hin. apply filter_In in Hin. destruct Hin as [Hin _].
  destruct p as [i l]. apply in_combine_l in Hin. apply in_seq in Hin. cbn. lia.
Qed.

Lemma matched_from_cons (s : nat) (ai : Z) (a : list Z) :
  matched_from s (ai :: a)
  = if (-1 <? ai)%Z then (s, ai) :: matched_from (S s) a else matched_from (S s) a.
Proof. reflexivity. Qed.

Lemma mask_select_matched (a : list Z) (z : vec) (s : nat) :
  length z = (2 * length a)%nat ->
  np.mask_select (flat_map (fun ai => [(-1 <? ai)%Z; (-1 <? ai)%Z]) a) z
  = flat_map (fun p => [nth (2 * (fst p - s)) z 0; nth (2 * (fst p - s) + 1) z 0])
             (matched_from s a).
Proof.
  revert z s. induction a as [|ai a IH]; intros z s Hl.
  - destruct z; [reflexivity | discriminate Hl].
  - destruct z as [|z0 [|z1 z]]; try (simpl in Hl; lia).
    assert (Hl' : length z = (2 * length a)%nat) by (simpl in Hl; lia).
    rewrite matched_from_cons. cbn [flat_map app].
    assert (Hrest :
      flat_map (fun p => [nth (2 * (fst p - s)) (z0 :: z1 :: z) 0;
                          nth (2 * (fst p - s) + 1) (z0 :: z1 :: z) 0])
               (matched_from (S s) a)
      = flat_map (fun p => [nth (2 * (fst p - S s)) z 0; nth (2 * (fst p - S s) + 1) z 0])
                 (matched_from (S s) a)).
    { apply flat_map_ext_in. intros p Hin. apply matched_from_index in Hin.
      replace (2 * (fst p - s))%nat with (S (S (2 * (fst p - S s)))) by lia.
      replace (S (S (2 * (fst p - S s))) + 1)%nat with (S (S (2 * (fst p - S s) + 1))) by lia.
      reflexivity. }
    destruct (-1 <? ai)%Z; cbn [np.mask_select flat_map app fst].
    + rewrite (IH z (S s) Hl'), Hrest.
      replace (2 * (s - s))%nat with 0%nat by lia. reflexivity.
    + rewrite (IH z (S s) Hl'), Hrest. reflexivity.
Qed.

Lemma matched_landmarks (s : nat) (a : list Z) :
  filter (fun ai => (-1 <? ai)%Z) a = map snd (matched_from s a).
Proof.
  revert s. induction a as [|ai a IH]; intro s; [reflexivity|].
  rewrite matched_from_cons. cbn [filter].
  destruct (-1 <? ai)%Z; cbn [map snd]; now rewrite (IH (S s)).
Qed.

Section AssociatePairs.

Variable JCBB : vec -> vec -> mat -> R -> R -> list Z.

(** X24: what [associate] selects is aligned: its k-th pair of
    measurement entries is the measurement of the k-th association found,
    and its k-th pair of predictions and the k-th pair of rows of the
    Jacobian belong to the landmark of that same association. *)
Theorem associate_pairs (self : EKFSLAM) (z zpred : vec) (H_ S : mat)
  (za zp : vec) (Ha Sa : mat) (a : list Z) :
  associate JCBB self z zpred H_ S = Ok (Some (za, zp, Ha, Sa, a)) ->
  length z = (2 * length a)%nat ->
  za = flat_map (fun p => [np.vget z (2 * fst p); np.vget z (2 * fst p + 1)]) (matched a) /\
  zp = flat_map (fun p => [np.vget zpred (Z.to_nat (2 * snd p));
                           np.vget zpred (Z.to_nat (2 * snd p + 1))]) (matched a) /\
  Ha = flat_map (fun p => [nth (Z.to_nat (2 * snd p)) H_ [];
                           nth (Z.to_nat (2 * snd p + 1)) H_ []]) (matched a).
Proof.
  unfold associate. intros E Hl.
  destruct (self_do_asso self); [|discriminate E].
  set (aj := JCBB _ _ _ _ _) in E.
  do 3 bind_inv E.
  assert (Ea' : a = aj) by congruence. subst a.
  assert (Eza : za = np.mask_select
                       (flat_map (fun ai => [(-1 <? ai)%Z; (-1 <? ai)%Z]) aj) z)
    by congruence.
  assert (Ezp : zp = np.take (flat_map (fun ai => [Z.to_nat (2 * ai); Z.to_nat (2 * ai + 1)])
                                (filter (fun ai => (-1 <? ai)%Z) aj)) zpred)
    by congruence.
  assert (EHa : Ha = np.take_rows
                       (flat_map (fun ai => [Z.to_nat (2 * ai); Z.to_nat (2 * ai + 1)])
                          (filter (fun ai => (-1 <? ai)%Z) aj)) H_)
    by congruence.
  clear E. split; [|split].
  - rewrite Eza, (mask_select_matched aj z 0 Hl). unfold matched.
    apply flat_map_ext. intro p. now rewrite Nat.sub_0_r.
  - rewrite Ezp, (matched_landmarks 0 aj). unfold matched, np.take.
    rewrite flat_map_concat_map, map_map, concat_map, map_map.
    rewrite flat_map_concat_map. reflexivity.
  - rewrite EHa, (matched_landmarks 0 aj). unfold matched, np.take_rows.
    rewrite flat_map_concat_map, map_map, concat_map, map_map.
    rewrite flat_map_concat_map. reflexivity.
Qed.

End AssociatePairs.

Lemma associate_example :
  associate (fun _ _ _ _ _ => [0%Z]) slam0 [2; 0] [2; 0] Ha1 Sa1
  = Ok (Some ([2; 0], [2; 0], Ha1, Sa1, [0%Z])).
Proof. reflexivity. Qed.

Lemma associate_pairs_witness :
  [2; 0] = flat_map (fun p : nat * Z => [np.vget [2; 0] (2 * fst p);
                                         np.vget [2; 0] (2 * fst p + 1)])
                    (matched [0%Z]) /\
  [2; 0] = flat_map (fun p : nat * Z => [np.vget [2; 0] (Z.to_nat (2 * snd p));
                                         np.vget [2; 0] (Z.to_nat (2 * snd p + 1))])
                    (matched [0%Z]) /\
  Ha1 = flat_map (fun p : nat * Z => [nth (Z.to_nat (2 * snd p)) Ha1 [];
                                      nth (Z.to_nat (2 * snd p + 1)) Ha1 []])
                 (matched [0%Z]).
Proof.
  apply (associate_pairs (fun _ _ _ _ _ => [0%Z]) slam0 [2; 0] [2; 0] Ha1 Sa1
           [2; 0] [2; 0] Ha1 Sa1 [0%Z]).
  - exact associate_example.
  - reflexivity.
Defined.
